(** * Poll lifecycle of the collective code-writing bot (src/bot.py)

    A shallow embedding of the storage class [BotStorage], the candidate
    generator [generate_code_options] and the poll handlers [send_poll],
    [poll_answer_handler], [close_poll] together with the commands that call
    them, followed by the properties of the poll lifecycle.

    Conventions of the embedding.
    - A Python [str] is the list of its code points.
    - A Python [dict] is an association list in insertion order; assignment to
      an existing key keeps its position, assignment to a new key appends.
    - Everything the handlers obtain from outside (the answer of the language
      model, the answers of the Telegram API, the clock) is read from a
      [World] record given to the handler.
    - A handler returns the store it leaves behind and the list of the
      effects it performed, in order: writes of the storage file, calls of
      the Telegram API, log records, timers and the settle delay.
    - A handler is first given as the computation it performs when no other
      handler runs before it has ended ([close_poll] in two parts, before
      and after [asyncio.sleep(5)]); [run] composes such computations one
      after the other.  The handlers are then given as coroutines, with a
      suspension at every [await] of a call of the Telegram API and at the
      sleep, and [interleave] resumes the coroutines of a pool in any order.
      The coroutines run alone do what the computations do. *)

From Stdlib Require Import String Ascii DecimalString.
From Stdlib Require Import List Arith ZArith NArith Lia Bool.
From Equations Require Import Equations.
Import ListNotations.

Set Implicit Arguments.
Set Warnings "-register-all".

(** ** Python strings *)

Definition pystr := list N.

(** A literal: the code points of an ASCII string. *)
Definition lit (s : string) : pystr :=
  map N_of_ascii (list_ascii_of_string s).

Fixpoint pystr_eqb (a b : pystr) : bool :=
  match a, b with
  | [], [] => true
  | x :: a', y :: b' => N.eqb x y && pystr_eqb a' b'
  | _, _ => false
  end.

(** [str.isspace] of one character, as CPython's [_PyUnicode_IsWhitespace]. *)
Definition isspace (c : N) : bool :=
  ((9 <=? c) && (c <=? 13) || (28 <=? c) && (c <=? 32)
   || (c =? 133) || (c =? 160) || (c =? 5760)
   || (8192 <=? c) && (c <=? 8202)
   || (c =? 8232) || (c =? 8233) || (c =? 8239) || (c =? 8287)
   || (c =? 12288))%N.

Fixpoint lstrip (s : pystr) : pystr :=
  match s with
  | [] => []
  | c :: t => if isspace c then lstrip t else s
  end.

(** [s.strip()] *)
Definition strip (s : pystr) : pystr := rev (lstrip (rev (lstrip s))).

(** [s.split('\n')], with [cur] the reversed segment read so far. *)
Fixpoint split_nl (cur s : pystr) : list pystr :=
  match s with
  | [] => [rev cur]
  | c :: t => if (c =? 10)%N then rev cur :: split_nl [] t
              else split_nl (c :: cur) t
  end.

(** [s.startswith(p)] *)
Fixpoint startswith (p s : pystr) : bool :=
  match p, s with
  | [], _ => true
  | x :: p', y :: s' => N.eqb x y && startswith p' s'
  | _ :: _, [] => false
  end.

(** [line in lines] *)
Definition mem (line : pystr) (lines : list pystr) : bool :=
  existsb (pystr_eqb line) lines.

(** [str(n)] of an [int]. *)
Definition str_of_Z (z : Z) : pystr := lit (NilZero.string_of_int (Z.to_int z)).

(** [not s] of a string. *)
Definition falsy (s : pystr) : bool :=
  match s with [] => true | _ => false end.

(** ** Generation adapter: [generate_code_options] *)

Definition fence : pystr := lit "```".

Definition fallback_first : list pystr :=
  [ lit "# Simple Python program"; lit "import sys"; lit "def main():";
    lit "if __name__ == '__main__':" ].

Definition fallback_next : list pystr :=
  [ lit "    pass"; lit "    # TODO: implement"; lit "    return None";
    lit "    print('Done')" ].

(** [f"    # Option {n}"] *)
Definition placeholder (n : nat) : pystr :=
  lit "    # Option " ++ str_of_Z (Z.of_nat n).

(** The [for] loop that removes duplicates and stops at four lines. *)
Fixpoint take_unique (lines unique_lines : list pystr) : list pystr :=
  match lines with
  | [] => unique_lines
  | line :: rest =>
      let unique_lines' :=
        if mem line unique_lines then unique_lines
        else unique_lines ++ [line] in
      if Nat.eqb (length unique_lines') 4 then unique_lines'
      else take_unique rest unique_lines'
  end.

(** The [while len(unique_lines) < 4] loop. *)
Equations? pad_options (unique_lines : list pystr) : list pystr
  by wf (4 - length unique_lines) lt :=
  pad_options unique_lines with lt_dec (length unique_lines) 4 => {
    | left _ := pad_options
                  (unique_lines ++ [placeholder (length unique_lines + 1)]);
    | right _ := unique_lines }.
Proof.
  clear pad_options. rewrite length_app.
  destruct (length unique_lines) as [|[|[|[|k]]]]; simpl; lia.
Qed.

(** [response] is what [call_llm] returned: the empty string when the
    service failed or answered without success. *)
Definition generate_code_options (response : pystr) (code_history : list pystr)
  : list pystr :=
  if falsy response then
    match code_history with
    | [] => fallback_first
    | _ :: _ => fallback_next
    end
  else
    let lines :=
      map strip (filter (fun line => negb (falsy (strip line)))
                        (split_nl [] response)) in
    let lines :=
      filter (fun line => negb (startswith fence line)
                          && Nat.leb (length line) 95) lines in
    let unique_lines := take_unique lines [] in
    let unique_lines := pad_options unique_lines in
    firstn 4 unique_lines.

(** ** Dictionaries in insertion order *)

Section ODict.
Variables (K V : Type) (eqb : K -> K -> bool).

(** [d.get(k)] *)
Fixpoint od_get (d : list (K * V)) (k : K) : option V :=
  match d with
  | [] => None
  | (k', v) :: t => if eqb k k' then Some v else od_get t k
  end.

(** [k in d] *)
Definition od_mem (d : list (K * V)) (k : K) : bool :=
  match od_get d k with Some _ => true | None => false end.

(** [d[k] = v] *)
Fixpoint od_set (d : list (K * V)) (k : K) (v : V) : list (K * V) :=
  match d with
  | [] => [(k, v)]
  | (k', v') :: t =>
      if eqb k k' then (k', v) :: t else (k', v') :: od_set t k v
  end.
End ODict.

(** ** Data model *)

(** A key of the [votes] dictionary: an [int] in a poll built by [send_poll],
    a [str] in a poll read back from the storage file. *)
Inductive key := KInt (i : Z) | KStr (s : pystr).

Definition key_eqb (a b : key) : bool :=
  match a, b with
  | KInt i, KInt j => Z.eqb i j
  | KStr s, KStr t => pystr_eqb s t
  | _, _ => false
  end.

(** The dictionary [poll_data] of [send_poll]. *)
Record PollData := {
  poll_id : pystr;
  message_id : Z;
  options : list pystr;
  votes : list (key * Z);
  close_time : Z;
  created_at : pystr }.

(** The dictionary [poll_result] of [close_poll]. *)
Record PollResult := {
  r_poll_id : pystr;
  r_options : list pystr;
  r_votes : list (key * Z);
  winner : pystr;
  winner_index : key;
  closed_at : pystr }.

(** One entry of [data["chats"]]. *)
Record Chat := {
  polls : list PollResult;
  active_poll : option PollData }.

(** [storage.data["chats"]], keyed by [str(chat_id)]. *)
Definition Store := list (pystr * Chat).

Definition new_chat : Chat := {| polls := []; active_poll := None |}.

Definition chat_get (s : Store) (chat_id : pystr) : option Chat :=
  od_get pystr_eqb s chat_id.

Definition chat_set (s : Store) (chat_id : pystr) (c : Chat) : Store :=
  od_set pystr_eqb s chat_id c.

(** ** Effects and the outside world *)

Inductive level := Info | Warning | Error.

(** Texts sent with [update.message.reply_text] / [reply_document]. *)
Inductive reply :=
| AdminOnly | BadChatId | Completing | CompletedCode | CompletedFile
| HistoryCleared | Welcome | CodeEmpty | CurrentCode (code : list pystr)
| NothingToComplete | AlreadyActive | SendingNow | Status | ErrorText.

Inductive effect :=
| ESave (data : Store)                                  (* storage.save() *)
| ELog (lvl : level)                                    (* logger.<lvl>(...) *)
| ESendPoll (chat_id : Z) (line_no : nat) (opts : list pystr)
                                                        (* bot.send_poll *)
| EStopPoll (chat_id : Z) (message : Z)                 (* bot.stop_poll *)
| ESendMessage (chat_id : Z) (winner_line : pystr) (count : Z)
                                                        (* bot.send_message *)
| ERunOnce (delay : Z) (chat_id : Z) (poll : pystr)     (* job_queue.run_once *)
| EReply (r : reply)                                    (* update.message *)
| ESleep (seconds : Z).                                 (* asyncio.sleep *)

(** What one run of a handler reads from outside. *)
Record World := {
  llm_response : pystr;                   (* call_llm(messages) *)
  send_poll_result : option (pystr * Z);  (* poll.id and message_id; [None]
                                             when bot.send_poll raises *)
  stop_poll_ok : bool;                    (* bot.stop_poll returns *)
  send_message_ok : bool;                 (* bot.send_message returns *)
  reply_ok : bool;                        (* update.message.reply_* return *)
  now_timestamp : Z;                      (* datetime.now().timestamp() *)
  now_isoformat : pystr }.                (* datetime.now().isoformat() *)

(** ** A state, trace and exception monad for the handlers

    A computation takes the store and returns its result ([None] when it
    raised), the store it left and the effects it performed. *)

Definition M (A : Type) : Type := Store -> option A * Store * list effect.

Definition ret {A} (a : A) : M A := fun s => (Some a, s, []).

Definition raise {A} : M A := fun s => (None, s, []).

Definition bind {A B} (m : M A) (f : A -> M B) : M B :=
  fun s =>
    match m s with
    | (Some a, s1, e1) =>
        match f a s1 with (r, s2, e2) => (r, s2, e1 ++ e2) end
    | (None, s1, e1) => (None, s1, e1)
    end.

Notation "x <- m ;; k" := (bind m (fun x => k))
  (at level 61, m at next level, right associativity).
Notation "m ;;; k" := (bind m (fun _ => k))
  (at level 61, right associativity).

Definition emit (e : effect) : M unit := fun s => (Some tt, s, [e]).

Definition log (lvl : level) : M unit := emit (ELog lvl).

(** [try: body except Exception: handler] *)
Definition try_except {A} (body handler : M A) : M A :=
  fun s =>
    match body s with
    | (Some a, s1, e1) => (Some a, s1, e1)
    | (None, s1, e1) =>
        match handler s1 with (r, s2, e2) => (r, s2, e1 ++ e2) end
    end.

(** A value that may be missing: evaluating it raises when it is. *)
Definition orraise {A} (o : option A) : M A :=
  match o with Some a => ret a | None => raise end.

(** ** BotStorage *)

(** [save]: the whole store is handed to [json.dump] for the storage file.
    [save] never raises; [ESave] records the call, and what the file holds
    afterwards is given by [written] below. *)
Definition save : M unit := fun s => (Some tt, s, [ESave s]).

Definition get_chat (chat_id : pystr) : M Chat :=
  fun s =>
    match chat_get s chat_id with
    | Some c => (Some c, s, [])
    | None =>
        let s' := chat_set s chat_id new_chat in
        (Some new_chat, s', [ESave s'])
    end.

Definition clear_chat (chat_id : pystr) : M unit :=
  fun s => save (chat_set s chat_id new_chat).

Definition add_poll (chat_id : pystr) (poll_data : PollResult) : M unit :=
  chat <- get_chat chat_id ;;
  (fun s => save (chat_set s chat_id
     {| polls := polls chat ++ [poll_data];
        active_poll := active_poll chat |})).

Definition set_active_poll (chat_id : pystr) (poll_data : option PollData)
  : M unit :=
  chat <- get_chat chat_id ;;
  (fun s => save (chat_set s chat_id
     {| polls := polls chat; active_poll := poll_data |})).

(** [[poll["winner"] for poll in polls if poll.get("winner")]] *)
Definition winners (polls : list PollResult) : list pystr :=
  map winner (filter (fun poll => negb (falsy (winner poll))) polls).

Definition get_code_history (chat_id : pystr) : M (list pystr) :=
  chat <- get_chat chat_id ;;
  ret (winners (polls chat)).

(** ** Python built-ins used by [close_poll] *)

(** [max(l, key=f)]: the first element whose key is not exceeded; raises on
    an empty iterable. *)
Definition py_max {A} (f : A -> Z) (l : list A) : option A :=
  match l with
  | [] => None
  | x :: t =>
      Some (fold_left (fun best y => if (f best <? f y)%Z then y else best)
                      t x)
  end.

(** [votes.get]; a key taken from the dictionary itself is always found. *)
Definition votes_get (vs : list (key * Z)) (k : key) : Z :=
  match od_get key_eqb vs k with Some n => n | None => 0%Z end.

(** [l[k]]: negative indices count from the end; an index out of range or a
    [str] index raises. *)
Definition py_index {A} (l : list A) (k : key) : option A :=
  match k with
  | KInt i =>
      let n := Z.of_nat (length l) in
      if ((0 <=? i) && (i <? n))%Z then nth_error l (Z.to_nat i)
      else if ((- n <=? i) && (i <? 0))%Z then nth_error l (Z.to_nat (n + i))
      else None
  | KStr _ => None
  end.

(** ** Handlers *)

Section Handlers.
(** Configuration read from the environment at start-up. *)
Variable POLL_TIMEOUT : Z.
Variable ADMIN_IDS : list Z.

Local Open Scope Z_scope.

Definition is_admin (user_id : Z) : bool :=
  existsb (Z.eqb user_id) ADMIN_IDS.

Definition reply_text (w : World) (r : reply) : M unit :=
  emit (EReply r) ;;; if reply_ok w then ret tt else raise.

(** [check_admin]: [true] when the command may go on. *)
Definition check_admin (w : World) (user_id : Z) : M bool :=
  if is_admin user_id then ret true
  else reply_text w AdminOnly ;;; ret false.

(** [{i: 0 for i in range(4)}] *)
Definition zero_votes : list (key * Z) :=
  map (fun i => (KInt (Z.of_nat i), 0)) (seq 0 4).

Definition bot_send_poll (w : World) (chat_id : Z) (line_no : nat)
    (opts : list pystr) : M (pystr * Z) :=
  emit (ESendPoll chat_id line_no opts) ;;; orraise (send_poll_result w).

Definition send_poll (w : World) (chat_id : Z) : M unit :=
  let chat_id_str := str_of_Z chat_id in
  try_except
    (code_history <- get_code_history chat_id_str ;;
     let opts := generate_code_options (llm_response w) code_history in
     log Info ;;;
     poll_message <-
       bot_send_poll w chat_id (length code_history + 1)%nat opts ;;
     let poll_data :=
       {| poll_id := fst poll_message;
          message_id := snd poll_message;
          options := opts;
          votes := zero_votes;
          close_time := now_timestamp w + POLL_TIMEOUT;
          created_at := now_isoformat w |} in
     set_active_poll chat_id_str (Some poll_data) ;;;
     log Info ;;;
     emit (ERunOnce POLL_TIMEOUT chat_id (fst poll_message)))
    (log Error).

(** [if option_id in votes: votes[option_id] += 1] *)
Definition count_vote (vs : list (key * Z)) (option_id : Z)
  : list (key * Z) :=
  match od_get key_eqb vs (KInt option_id) with
  | Some n => od_set key_eqb vs (KInt option_id) (n + 1)
  | None => vs
  end.

Definition count_votes (vs : list (key * Z)) (option_ids : list Z)
  : list (key * Z) :=
  fold_left count_vote option_ids vs.

(** The loop of [poll_answer_handler] over [data["chats"].items()]: the
    first chat whose active poll has the identifier gets the votes, and
    the loop stops; [None] when no chat matched. *)
Fixpoint answer_scan (pid : pystr) (option_ids : list Z) (chats : Store)
  : option Store :=
  match chats with
  | [] => None
  | (chat_id_str, chat_data) :: rest =>
      match active_poll chat_data with
      | Some ap =>
          if pystr_eqb (poll_id ap) pid then
            Some ((chat_id_str,
                   {| polls := polls chat_data;
                      active_poll := Some
                        {| poll_id := poll_id ap;
                           message_id := message_id ap;
                           options := options ap;
                           votes := count_votes (votes ap) option_ids;
                           close_time := close_time ap;
                           created_at := created_at ap |} |}) :: rest)
          else option_map (cons (chat_id_str, chat_data))
                          (answer_scan pid option_ids rest)
      | None => option_map (cons (chat_id_str, chat_data))
                           (answer_scan pid option_ids rest)
      end
  end.

Definition poll_answer_handler (pid : pystr) (option_ids : list Z)
  : M unit :=
  try_except
    (fun s =>
       match answer_scan pid option_ids s with
       | Some s' => (save ;;; log Info) s'
       | None => ret tt s
       end)
    (log Error).

Definition bot_stop_poll (w : World) (chat_id message : Z) : M unit :=
  try_except
    (emit (EStopPoll chat_id message) ;;;
     if stop_poll_ok w then ret tt else raise)
    (log Error).

Definition bot_send_message (w : World) (chat_id : Z) (line : pystr)
    (count : Z) : M unit :=
  emit (ESendMessage chat_id line count) ;;;
  if send_message_ok w then ret tt else raise.

(** [close_poll] up to [asyncio.sleep(5)].  The result is [true] when the
    handler reached the sleep and goes on with [close_poll_resume], and
    [false] when it returned. *)
Definition close_poll (w : World) (chat_id : Z) (pid : pystr)
    (flag_stop : bool) : M bool :=
  let chat_id_str := str_of_Z chat_id in
  try_except
    (chat_data <- get_chat chat_id_str ;;
     match active_poll chat_data with
     | None => log Warning ;;; ret false
     | Some ap =>
         if negb (pystr_eqb (poll_id ap) pid) then
           log Warning ;;; ret false
         else
           bot_stop_poll w chat_id (message_id ap) ;;;
           let vs := votes ap in
           winner_index <- orraise (py_max (votes_get vs) (map fst vs)) ;;
           winner_line <- orraise (py_index (options ap) winner_index) ;;
           let poll_result :=
             {| r_poll_id := pid;
                r_options := options ap;
                r_votes := vs;
                winner := winner_line;
                winner_index := winner_index;
                closed_at := now_isoformat w |} in
           add_poll chat_id_str poll_result ;;;
           set_active_poll chat_id_str None ;;;
           count <- orraise (od_get key_eqb vs winner_index) ;;
           bot_send_message w chat_id winner_line count ;;;
           log Info ;;;
           if flag_stop then ret false
           else emit (ESleep 5) ;;; ret true
     end)
    (log Error ;;; ret false).

(** [close_poll] after [asyncio.sleep(5)]. *)
Definition close_poll_resume (w : World) (chat_id : Z) : M unit :=
  let chat_id_str := str_of_Z chat_id in
  try_except
    (chat_data <- get_chat chat_id_str ;;
     match active_poll chat_data with
     | Some _ => ret tt
     | None => send_poll w chat_id
     end)
    (log Error).

(** The argument of [/start]: none, one that [int] rejects, or a chat. *)
Inductive start_arg := NoArg | BadArg | ChatArg (target : Z).

Definition on_error (w : World) : M unit :=
  log Error ;;; reply_text w ErrorText.

Definition start_command (w : World) (user_id chat_id : Z)
    (args : start_arg) : M unit :=
  try_except
    (if is_admin user_id then
       match
         match args with
         | NoArg => Some chat_id
         | ChatArg target => Some target
         | BadArg => None
         end
       with
       | None => reply_text w BadChatId
       | Some target_chat_id =>
           let chat_id_str := str_of_Z target_chat_id in
           code_history <- get_code_history chat_id_str ;;
           match code_history with
           | [] => ret tt
           | _ :: _ =>
               reply_text w Completing ;;;
               reply_text w CompletedCode ;;;
               reply_text w CompletedFile
           end ;;;
           clear_chat chat_id_str ;;;
           log Info ;;;
           reply_text w HistoryCleared ;;;
           send_poll w target_chat_id
       end
     else
       chat_data <- get_chat (str_of_Z chat_id) ;;
       reply_text w Welcome)
    (on_error w).

Definition code_command (w : World) (chat_id : Z) : M unit :=
  try_except
    (code_history <- get_code_history (str_of_Z chat_id) ;;
     match code_history with
     | [] => reply_text w CodeEmpty
     | _ :: _ => reply_text w (CurrentCode code_history)
     end)
    (on_error w).

Definition code_completed_command (w : World) (user_id chat_id : Z)
  : M unit :=
  ok <- check_admin w user_id ;;
  if negb ok then ret tt
  else
    try_except
      (code_history <- get_code_history (str_of_Z chat_id) ;;
       match code_history with
       | [] => reply_text w NothingToComplete
       | _ :: _ =>
           reply_text w Completing ;;;
           reply_text w CompletedCode ;;;
           reply_text w CompletedFile
       end)
      (on_error w).

Definition sendnow_command (w : World) (user_id chat_id : Z) : M unit :=
  ok <- check_admin w user_id ;;
  if negb ok then ret tt
  else
    try_except
      (chat_data <- get_chat (str_of_Z chat_id) ;;
       match active_poll chat_data with
       | Some _ => reply_text w AlreadyActive
       | None => reply_text w SendingNow ;;; send_poll w chat_id
       end)
      (on_error w).

Definition health_command (w : World) (user_id chat_id : Z) : M unit :=
  ok <- check_admin w user_id ;;
  if negb ok then ret tt
  else
    try_except
      (chat_data <- get_chat (str_of_Z chat_id) ;;
       reply_text w Status)
      (on_error w).

(** ** Events and runs *)

(** What the application dispatches: the commands, a poll answer, the
    timer of a poll ([close_poll_callback]) or a direct call of
    [close_poll], and the end of the settle delay of a close.  [run] is the
    serial schedule: every handler ends (or reaches the settle delay)
    before the next one starts. *)
Inductive event :=
| Start (w : World) (user_id chat_id : Z) (args : start_arg)
| Code (w : World) (chat_id : Z)
| CodeCompleted (w : World) (user_id chat_id : Z)
| SendNow (w : World) (user_id chat_id : Z)
| Health (w : World) (user_id chat_id : Z)
| PollAnswer (pid : pystr) (option_ids : list Z)
| ClosePoll (w : World) (chat_id : Z) (pid : pystr) (flag_stop : bool)
| Resume (w : World) (chat_id : Z).

Definition forget {A} (m : M A) : M unit :=
  fun s => match m s with (_, s', e) => (Some tt, s', e) end.

Definition handle (ev : event) : M unit :=
  match ev with
  | Start w u c a => forget (start_command w u c a)
  | Code w c => forget (code_command w c)
  | CodeCompleted w u c => forget (code_completed_command w u c)
  | SendNow w u c => forget (sendnow_command w u c)
  | Health w u c => forget (health_command w u c)
  | PollAnswer pid ids => forget (poll_answer_handler pid ids)
  | ClosePoll w c pid stop => forget (close_poll w c pid stop)
  | Resume w c => forget (close_poll_resume w c)
  end.

Fixpoint run (evs : list event) : M unit :=
  match evs with
  | [] => ret tt
  | ev :: rest => handle ev ;;; run rest
  end.

Definition store_of {A} (r : option A * Store * list effect) : Store :=
  snd (fst r).

Definition effects_of {A} (r : option A * Store * list effect)
  : list effect := snd r.

Definition result_of {A} (r : option A * Store * list effect) : option A :=
  fst (fst r).

End Handlers.

(** ** Persistence: [json.dump] and [json.load]

    [save] hands the dictionary [self.data] to [json.dump]; [load] returns
    what [json.load] builds from the file.  Both are modelled on untyped
    Python values, and [repr_store] gives the value a [Store] stands for. *)

Inductive pyval :=
| PNone
| PNum (n : Z)
| PStr (s : pystr)
| PList (l : list pyval)
| PDict (d : list (key * pyval)).

(** The document: JSON object names are strings. *)
Inductive json :=
| JNull
| JNum (n : Z)
| JString (s : pystr)
| JArray (l : list json)
| JObject (members : list (pystr * json)).

(** The name [json.dump] writes for a dictionary key: an [int] key is
    written as its decimal text. *)
Definition key_name (k : key) : pystr :=
  match k with
  | KInt i => str_of_Z i
  | KStr s => s
  end.

Fixpoint json_dump (v : pyval) : json :=
  match v with
  | PNone => JNull
  | PNum n => JNum n
  | PStr s => JString s
  | PList l => JArray (map json_dump l)
  | PDict d => JObject (map (fun kv => (key_name (fst kv), json_dump (snd kv))) d)
  end.

(** The dictionary [json.load] builds from the members of an object: every
    key is a [str], and a repeated name overwrites the earlier value. *)
Definition dict_of_members (members : list (pystr * pyval))
  : list (key * pyval) :=
  fold_left (fun d kv => od_set key_eqb d (KStr (fst kv)) (snd kv))
            members [].

Fixpoint json_load (j : json) : pyval :=
  match j with
  | JNull => PNone
  | JNum n => PNum n
  | JString s => PStr s
  | JArray l => PList (map json_load l)
  | JObject members =>
      PDict (dict_of_members
               (map (fun kv => (fst kv, json_load (snd kv))) members))
  end.

Definition repr_key (k : key) : pyval :=
  match k with
  | KInt i => PNum i
  | KStr s => PStr s
  end.

Definition repr_votes (vs : list (key * Z)) : pyval :=
  PDict (map (fun kv => (fst kv, PNum (snd kv))) vs).

Definition field (name : string) (v : pyval) : key * pyval :=
  (KStr (lit name), v).

Definition repr_poll_data (p : PollData) : pyval :=
  PDict [ field "poll_id" (PStr (poll_id p));
          field "message_id" (PNum (message_id p));
          field "options" (PList (map PStr (options p)));
          field "votes" (repr_votes (votes p));
          field "close_time" (PNum (close_time p));
          field "created_at" (PStr (created_at p)) ].

Definition repr_poll_result (r : PollResult) : pyval :=
  PDict [ field "poll_id" (PStr (r_poll_id r));
          field "options" (PList (map PStr (r_options r)));
          field "votes" (repr_votes (r_votes r));
          field "winner" (PStr (winner r));
          field "winner_index" (repr_key (winner_index r));
          field "closed_at" (PStr (closed_at r)) ].

Definition repr_chat (c : Chat) : pyval :=
  PDict [ field "polls" (PList (map repr_poll_result (polls c)));
          field "active_poll"
            match active_poll c with
            | None => PNone
            | Some p => repr_poll_data p
            end ].

Definition repr_store (s : Store) : pyval :=
  PDict [ field "chats"
            (PDict (map (fun kc => (KStr (fst kc), repr_chat (snd kc))) s)) ].

(** [json.load] of what [json.dump] wrote. *)
Definition roundtrip (v : pyval) : pyval := json_load (json_dump v).

(** The same on a [Store]: what a restarted process holds after [load] read
    a file that [save] wrote to its end (for a file that was cut off, see
    [restart]). *)
Definition reload_votes (vs : list (key * Z)) : list (key * Z) :=
  fold_left (fun d kv => od_set key_eqb d (KStr (key_name (fst kv))) (snd kv))
            vs [].

Definition reload_poll_data (p : PollData) : PollData :=
  {| poll_id := poll_id p;
     message_id := message_id p;
     options := options p;
     votes := reload_votes (votes p);
     close_time := close_time p;
     created_at := created_at p |}.

Definition reload_poll_result (r : PollResult) : PollResult :=
  {| r_poll_id := r_poll_id r;
     r_options := r_options r;
     r_votes := reload_votes (r_votes r);
     winner := winner r;
     winner_index := winner_index r;
     closed_at := closed_at r |}.

Definition reload_chat (c : Chat) : Chat :=
  {| polls := map reload_poll_result (polls c);
     active_poll := option_map reload_poll_data (active_poll c) |}.

Definition reload (s : Store) : Store :=
  fold_left (fun d kc => chat_set d (fst kc) (reload_chat (snd kc))) s [].

(** ** Predicates used in the statements *)

(** A line that survives both filters of [generate_code_options]. *)
Definition usable (line : pystr) : Prop :=
  line <> [] /\ length line <= 95 /\
  forall c t, line = c :: t -> isspace c = false.

(** The shape [send_poll] gives a poll and [poll_answer_handler] keeps:
    the votes are keyed by the integers 0..3 in this order and are not
    negative, and there are four options, none empty. *)
Definition poll_wf (p : PollData) : Prop :=
  map fst (votes p) = [KInt 0; KInt 1; KInt 2; KInt 3] /\
  Forall (fun kv => (0 <= snd kv)%Z) (votes p) /\
  length (options p) = 4 /\
  Forall (fun o => o <> []) (options p).

(** A store as a Python dictionary holds it, one entry per chat, in which
    every active poll satisfies [W]. *)
Definition store_inv (W : PollData -> Prop) (s : Store) : Prop :=
  NoDup (map fst s) /\
  Forall (fun kc => forall p, active_poll (snd kc) = Some p -> W p) s.

(** The same with every active poll well formed. *)
Definition store_wf (s : Store) : Prop := store_inv poll_wf s.

(** The active poll and the archive of a chat; a chat without an entry has
    neither. *)
Definition active_of (s : Store) (chat_id : pystr) : option PollData :=
  match chat_get s chat_id with
  | Some c => active_poll c
  | None => None
  end.

Definition polls_of (s : Store) (chat_id : pystr) : list PollResult :=
  match chat_get s chat_id with
  | Some c => polls c
  | None => []
  end.

(** The committed lines of a chat, as [get_code_history] computes them. *)
Definition history_of (s : Store) (chat_id : pystr) : list pystr :=
  winners (polls_of s chat_id).

(** The number of entries of [data["chats"]] for a chat that hold an active
    poll. *)
Definition active_count (s : Store) (chat_id : pystr) : nat :=
  length (filter (fun kc => pystr_eqb (fst kc) chat_id &&
                            match active_poll (snd kc) with
                            | Some _ => true
                            | None => false
                            end) s).

(** The store after a trace: the last one written, or the initial one. *)
Fixpoint last_saved (s : Store) (es : list effect) : Store :=
  match es with
  | [] => s
  | ESave d :: t => last_saved d t
  | _ :: t => last_saved s t
  end.

(** Every call of [bot.send_poll] in the trace is made while the chat it
    is sent to has no active poll. *)
Fixpoint opens_when_idle (s : Store) (es : list effect) : Prop :=
  match es with
  | [] => True
  | ESave d :: t => opens_when_idle d t
  | ESendPoll c _ _ :: t =>
      active_of s (str_of_Z c) = None /\ opens_when_idle s t
  | _ :: t => opens_when_idle s t
  end.

Definition is_send_poll (e : effect) : bool :=
  match e with ESendPoll _ _ _ => true | _ => false end.

Definition is_send_message (e : effect) : bool :=
  match e with ESendMessage _ _ _ => true | _ => false end.

Definition is_save (e : effect) : bool :=
  match e with ESave _ => true | _ => false end.

(** A specification of a computation: from a store that satisfies the
    invariant and [P] it leaves a store that satisfies the invariant and is
    the last one it wrote, it sends polls to idle chats only, and its
    result and store satisfy [Q]. *)
Definition triple (W : PollData -> Prop) {A} (P : Store -> Prop) (m : M A)
    (Q : option A -> Store -> Prop) : Prop :=
  forall s, store_inv W s -> P s ->
    match m s with
    | (r, s', es) =>
        store_inv W s' /\ last_saved s es = s' /\ opens_when_idle s es /\
        Q r s'
    end.

(** The votes of the example of the specification: a tie between the
    options 0 and 1. *)
Definition tie_poll : PollData :=
  {| poll_id := lit "poll-1";
     message_id := 1;
     options := [lit "a = 1"; lit "b = 2"; lit "c = 3"; lit "d = 4"];
     votes := [(KInt 0, 3); (KInt 1, 3); (KInt 2, 1); (KInt 3, 0)]%Z;
     close_time := 300;
     created_at := lit "2024-01-01T00:00:00" |}.

Definition tie_store : Store :=
  [(str_of_Z 7, {| polls := []; active_poll := Some tie_poll |})].

(** The record [close_poll] archives. *)
Definition poll_result_of (w : World) (pid : pystr) (p : PollData)
    (k : key) (line : pystr) : PollResult :=
  {| r_poll_id := pid;
     r_options := options p;
     r_votes := votes p;
     winner := line;
     winner_index := k;
     closed_at := now_isoformat w |}.

(** An outside world in which every call succeeds. *)
Definition calm_world : World :=
  {| llm_response := lit "x = 1";
     send_poll_result := Some (lit "poll-2", 2%Z);
     stop_poll_ok := true;
     send_message_ok := true;
     reply_ok := true;
     now_timestamp := 1000;
     now_isoformat := lit "2024-01-01T00:05:00" |}.

(** The active poll after [poll_answer_handler] counted the answers. *)
Definition with_votes (p : PollData) (vs : list (key * Z)) : PollData :=
  {| poll_id := poll_id p;
     message_id := message_id p;
     options := options p;
     votes := vs;
     close_time := close_time p;
     created_at := created_at p |}.

(** The dictionary [poll_data] that [send_poll] stores. *)
Definition new_poll (POLL_TIMEOUT : Z) (w : World) (pid : pystr) (mid : Z)
    (code_history : list pystr) : PollData :=
  {| poll_id := pid;
     message_id := mid;
     options := generate_code_options (llm_response w) code_history;
     votes := zero_votes;
     close_time := now_timestamp w + POLL_TIMEOUT;
     created_at := now_isoformat w |}.

(** An effect that neither writes the storage file nor sends a poll. *)
Definition quiet (e : effect) : bool := negb (is_save e) && negb (is_send_poll e).

(** A computation that leaves the store alone and has quiet effects only. *)
Definition benign {A} (m : M A) : Prop :=
  forall s, match m s with
            | (_, s', es) => s' = s /\ forallb quiet es = true
            end.

(** The outside world a little later: Telegram issues the next poll. *)
Definition later_world : World :=
  {| llm_response := lit "y = 2";
     send_poll_result := Some (lit "poll-3", 3%Z);
     stop_poll_ok := true;
     send_message_ok := true;
     reply_ok := true;
     now_timestamp := 1305;
     now_isoformat := lit "2024-01-01T00:10:05" |}.

(** A session as the bot builds it: chat 7 was started by the administrator
    1, one vote went to option 0 of the first poll, the poll was closed by
    its timer and the next poll was opened after the delay.  The chat has
    one line of history and an active poll. *)
Definition session_events : list event :=
  [ Start calm_world 1 7 NoArg;
    PollAnswer (lit "poll-2") [0%Z];
    ClosePoll later_world 7 (lit "poll-2") false;
    Resume later_world 7 ].

Definition session_store : Store :=
  store_of (run 300 [1%Z] session_events []).

(** ** Other functions of bot.py *)

(** ['\n'.join(lines)] *)
Fixpoint join_nl (lines : list pystr) : pystr :=
  match lines with
  | [] => []
  | [line] => line
  | line :: rest => line ++ 10%N :: join_nl rest
  end.

(** The loop of [complete_code] over the lines of the answer: a line whose
    stripped text starts with a fence flips [in_code_block] and is skipped;
    any other line is appended when the test of the second [if] holds. *)
Fixpoint drop_fences (lines : list pystr) (in_code_block : bool)
    (code_lines : list pystr) : list pystr :=
  match lines with
  | [] => code_lines
  | line :: rest =>
      if startswith fence (strip line) then
        drop_fences rest (negb in_code_block) code_lines
      else if negb in_code_block || negb (startswith fence (strip line)) then
        drop_fences rest in_code_block (code_lines ++ [line])
      else drop_fences rest in_code_block code_lines
  end.

(** [complete_code]; [response] is what [call_llm] returned. *)
Definition complete_code (response : pystr) (code_history : list pystr)
  : pystr :=
  match code_history with
  | [] => lit "# Empty code"
  | _ :: _ =>
      let code_text := join_nl code_history in
      if falsy response then code_text ++ 10%N :: lit "    pass"
      else strip (join_nl (drop_fences (split_nl [] response) false []))
  end.

(** [l[-n:]] for a positive [n]: the last [n] elements, or all of them. *)
Definition last_n {A} (n : nat) (l : list A) : list A :=
  skipn (length l - n) l.

(** The text [logs_command] puts between the fences of its reply, from the
    lines [f.readlines()] returned. *)
Definition logs_text (lines : list pystr) : pystr :=
  let last_lines := last_n 100 lines in
  let log_text := concat last_lines in
  if Nat.ltb 4000 (length log_text) then last_n 4000 log_text else log_text.

(** The hours, minutes and seconds [health_command] shows, from
    [int(uptime.total_seconds())]; [divmod] rounds down. *)
Definition uptime_parts (total : Z) : Z * Z * Z :=
  let hours := (total / 3600)%Z in
  let remainder := (total mod 3600)%Z in
  let minutes := (remainder / 60)%Z in
  let seconds := (remainder mod 60)%Z in
  (hours, minutes, seconds).

Definition is_run_once (e : effect) : bool :=
  match e with ERunOnce _ _ _ => true | _ => false end.

Definition is_stop_poll (e : effect) : bool :=
  match e with EStopPoll _ _ => true | _ => false end.

(** The same outside world, but [bot.stop_poll] raises. *)
Definition stop_fails (w : World) : World :=
  {| llm_response := llm_response w;
     send_poll_result := send_poll_result w;
     stop_poll_ok := false;
     send_message_ok := send_message_ok w;
     reply_ok := reply_ok w;
     now_timestamp := now_timestamp w;
     now_isoformat := now_isoformat w |}.

(** The store with the poll of the example read back from the file. *)
Definition reloaded_tie_store : Store := reload tie_store.

(** The store [poll_answer_handler] leaves. *)
Definition after_answer (pid : pystr) (option_ids : list Z) (s : Store)
  : Store :=
  match answer_scan pid option_ids s with
  | Some s' => s'
  | None => s
  end.

(** A line the model can give that [generate_code_options] keeps as it is:
    not empty, one line, no white space at either end, no fence in front,
    at most 95 characters. *)
Definition clean (line : pystr) : Prop :=
  line <> [] /\ ~ In 10%N line /\
  (forall c t, line = c :: t -> isspace c = false) /\
  (forall c t, rev line = c :: t -> isspace c = false) /\
  startswith fence line = false /\ length line <= 95.

(** A call that changes something at Telegram or schedules a timer. *)
Definition gateway_call (e : effect) : bool :=
  is_send_poll e || is_stop_poll e || is_send_message e || is_run_once e.

(** A computation that changes the archive and the active poll of no chat
    and makes no such call. *)
Definition reader {A} (m : M A) : Prop :=
  forall s, match m s with
            | (_, s', es) =>
                (forall c', polls_of s' c' = polls_of s c' /\
                            active_of s' c' = active_of s c') /\
                forallb (fun e => negb (gateway_call e)) es = true
            end.

(** The events that run no administrator action: [/code],
    [/code_completed] and [/health] from anyone, [/start] and [/sendnow]
    from a user who is not in [ADMIN_IDS]. *)
Definition read_only (admins : list Z) (ev : event) : bool :=
  match ev with
  | Start _ u _ _ => negb (is_admin admins u)
  | SendNow _ u _ => negb (is_admin admins u)
  | Code _ _ => true
  | CodeCompleted _ _ _ => true
  | Health _ _ _ => true
  | PollAnswer _ _ => false
  | ClosePoll _ _ _ _ => false
  | Resume _ _ => false
  end.

(** The chat [/start] works on: the one given as argument, or the chat the
    command was sent in. *)
Definition start_target (chat_id : Z) (args : start_arg) : Z :=
  match args with
  | ChatArg target => target
  | NoArg | BadArg => chat_id
  end.

(** A key that is a string. *)
Definition str_key (k : key) : Prop := exists t, k = KStr t.

(** A poll as [send_poll] builds it, with what Telegram asks of the
    options besides: pairwise distinct, at most 95 characters each. *)
Definition poll_ok (p : PollData) : Prop :=
  poll_wf p /\ NoDup (options p) /\
  Forall (fun o => length o <= 95) (options p).


(** A computation that keeps a property of the store. *)
Definition keeps {A} (P : Store -> Prop) (m : M A) : Prop :=
  forall s, P s -> P (store_of (m s)).


(** The number of votes counted in a poll. *)
Definition vote_total (vs : list (key * Z)) : Z :=
  fold_right Z.add 0%Z (map snd vs).

(** The same outside world, but [bot.send_poll] raises. *)
Definition publish_fails (w : World) : World :=
  {| llm_response := llm_response w;
     send_poll_result := None;
     stop_poll_ok := stop_poll_ok w;
     send_message_ok := send_message_ok w;
     reply_ok := reply_ok w;
     now_timestamp := now_timestamp w;
     now_isoformat := now_isoformat w |}.

(** The example of the specification in which one option leads: option 2
    has two votes, option 0 one. *)
Definition lead_poll : PollData :=
  {| poll_id := lit "poll-1";
     message_id := 1;
     options := [lit "a = 1"; lit "b = 2"; lit "c = 3"; lit "d = 4"];
     votes := [(KInt 0, 1); (KInt 1, 0); (KInt 2, 2); (KInt 3, 0)]%Z;
     close_time := 300;
     created_at := lit "2024-01-01T00:00:00" |}.

Definition lead_store : Store :=
  [(str_of_Z 7, {| polls := []; active_poll := Some lead_poll |})].

(** ** The storage file

    [save] opens the file with [encoding='utf-8'] and lets [json.dump] write
    the document with [ensure_ascii=False], so the characters of every
    string and of every key go to the file as they are.  A surrogate code
    point (U+D800..U+DFFF) has no UTF-8 encoding: the write raises
    [UnicodeEncodeError], [save] logs the error and returns, and the file
    is left cut off inside the document.  [json.load] rejects such a file,
    and [load] then returns the empty store [{"chats": {}}]. *)

Definition encodable_char (c : N) : bool :=
  ((c <? 55296) || (57343 <? c))%N.

Definition encodable (s : pystr) : bool := forallb encodable_char s.

(** The document of a value can be written to the file. *)
Fixpoint writable (v : pyval) : bool :=
  match v with
  | PNone => true
  | PNum _ => true
  | PStr s => encodable s
  | PList l => forallb writable l
  | PDict d =>
      forallb (fun kv => encodable (key_name (fst kv)) && writable (snd kv)) d
  end.

(** The file after [save]: the document, or [None] for a file that was cut
    off by the encoding error. *)
Definition written (v : pyval) : option json :=
  if writable v then Some (json_dump v) else None.

(** [load] of a process started afterwards. *)
Definition load (file : option json) : pyval :=
  match file with
  | Some j => json_load j
  | None => PDict [field "chats" (PDict [])]
  end.

Definition store_writable (s : Store) : bool := writable (repr_store s).

(** The store of a process restarted after [save] wrote [s]. *)
Definition restart (s : Store) : Store :=
  if store_writable s then reload s else [].

(** A committed line with a surrogate that stands alone. *)
Definition torn_store : Store :=
  [(str_of_Z 7,
    {| polls := [{| r_poll_id := lit "poll-1";
                    r_options := options tie_poll;
                    r_votes := votes tie_poll;
                    winner := lit "s = '" ++ [55357%N] ++ lit "'";
                    winner_index := KInt 0;
                    closed_at := lit "2024-01-01T00:05:00" |}];
       active_poll := None |})].

(** ** Suspension points

    The handlers are coroutines.  A handler is suspended at every [await]
    of a call of the Telegram API and at [asyncio.sleep], and the event
    loop may then resume another one: the application handles the updates
    one after the other, but the task the job queue starts for a timer
    ([close_poll_callback]) runs beside the handler of the current update.
    Between two suspensions a handler runs alone.

    A coroutine is given by its steps, with the suspensions marked.  The
    computations of the sections above are the handlers with the
    suspensions left out, that is, the handlers as they run when no other
    task is resumed in between ([flat]); [run] composes them in a serial
    schedule. *)

Inductive co (A : Type) : Type :=
| Fin (r : option A)                 (* returned, or raised with [None] *)
| Act (B : Type) (m : M B) (k : option B -> co A)
                                     (* the computation [m], then [k] *)
| Await (k : co A).                  (* suspended; goes on with [k] *)

Arguments Fin {A} r.
Arguments Act {A B} m k.
Arguments Await {A} k.

Fixpoint bind_co {A B} (x : co A) (f : A -> co B) : co B :=
  match x with
  | Fin (Some a) => f a
  | Fin None => Fin None
  | Act m k => Act m (fun r => bind_co (k r) f)
  | Await k => Await (bind_co k f)
  end.

Notation "x <~ m ;; k" := (bind_co m (fun x => k))
  (at level 61, m at next level, right associativity).
Notation "m ;~ k" := (bind_co m (fun _ => k))
  (at level 61, right associativity).

(** [try: body except Exception: handler] around suspensions. *)
Fixpoint try_co {A} (body : co A) (handler : co A) : co A :=
  match body with
  | Fin (Some a) => Fin (Some a)
  | Fin None => handler
  | Act m k => Act m (fun r => try_co (k r) handler)
  | Await k => Await (try_co k handler)
  end.

(** A computation without suspension. *)
Definition atom {A} (m : M A) : co A := Act m (fun r => Fin r).

(** The suspension of an [await]. *)
Definition await : co unit := Await (Fin (Some tt)).

(** The coroutine run to its next suspension: what is left of it, the
    store and the effects. *)
Fixpoint resume {A} (x : co A) (s : Store) : co A * Store * list effect :=
  match x with
  | Fin r => (Fin r, s, [])
  | Act m k =>
      match m s with
      | (r, s1, e1) =>
          match resume (k r) s1 with
          | (x', s2, e2) => (x', s2, e1 ++ e2)
          end
      end
  | Await k => (k, s, [])
  end.

(** The coroutine run to its end with no other task in between. *)
Fixpoint flat {A} (x : co A) : M A :=
  match x with
  | Fin r => fun s => (r, s, [])
  | Act m k =>
      fun s =>
        match m s with
        | (r, s1, e1) =>
            match flat (k r) s1 with
            | (r', s2, e2) => (r', s2, e1 ++ e2)
            end
        end
  | Await k => flat k
  end.

Fixpoint set_task (i : nat) (x : co unit) (pool : list (co unit))
  : list (co unit) :=
  match pool, i with
  | [], _ => []
  | _ :: rest, O => x :: rest
  | y :: rest, S j => y :: set_task j x rest
  end.

(** The event loop: the tasks of [pool] share the store, and [schedule]
    names the task that is resumed next, each time up to its next
    suspension. *)
Fixpoint interleave (schedule : list nat) (pool : list (co unit))
    (s : Store) : list (co unit) * Store * list effect :=
  match schedule with
  | [] => (pool, s, [])
  | i :: rest =>
      match nth_error pool i with
      | None => interleave rest pool s
      | Some x =>
          match resume x s with
          | (x', s1, e1) =>
              match interleave rest (set_task i x' pool) s1 with
              | (pool', s2, e2) => (pool', s2, e1 ++ e2)
              end
          end
      end
  end.

Definition finished (x : co unit) : bool :=
  match x with Fin (Some _) => true | _ => false end.

Section Tasks.
Variable POLL_TIMEOUT : Z.
Variable ADMIN_IDS : list Z.

Local Open Scope Z_scope.

Definition reply_text_co (w : World) (r : reply) : co unit :=
  atom (emit (EReply r)) ;~
  await ;~
  atom (if reply_ok w then ret tt else raise).

Definition check_admin_co (w : World) (user_id : Z) : co bool :=
  if is_admin ADMIN_IDS user_id then atom (ret true)
  else reply_text_co w AdminOnly ;~ atom (ret false).

Definition bot_send_poll_co (w : World) (chat_id : Z) (line_no : nat)
    (opts : list pystr) : co (pystr * Z) :=
  atom (emit (ESendPoll chat_id line_no opts)) ;~
  await ;~
  atom (orraise (send_poll_result w)).

Definition send_poll_co (w : World) (chat_id : Z) : co unit :=
  let chat_id_str := str_of_Z chat_id in
  try_co
    (code_history <~ atom (get_code_history chat_id_str) ;;
     let opts := generate_code_options (llm_response w) code_history in
     atom (log Info) ;~
     poll_message <~
       bot_send_poll_co w chat_id (length code_history + 1)%nat opts ;;
     let poll_data :=
       {| poll_id := fst poll_message;
          message_id := snd poll_message;
          options := opts;
          votes := zero_votes;
          close_time := now_timestamp w + POLL_TIMEOUT;
          created_at := now_isoformat w |} in
     atom (set_active_poll chat_id_str (Some poll_data)) ;~
     atom (log Info) ;~
     atom (emit (ERunOnce POLL_TIMEOUT chat_id (fst poll_message))))
    (atom (log Error)).

Definition bot_stop_poll_co (w : World) (chat_id message : Z) : co unit :=
  try_co
    (atom (emit (EStopPoll chat_id message)) ;~
     await ;~
     atom (if stop_poll_ok w then ret tt else raise))
    (atom (log Error)).

Definition bot_send_message_co (w : World) (chat_id : Z) (line : pystr)
    (count : Z) : co unit :=
  atom (emit (ESendMessage chat_id line count)) ;~
  await ;~
  atom (if send_message_ok w then ret tt else raise).

(** The body of [close_poll] up to [asyncio.sleep(5)]: [true] when it goes
    on after the sleep, [false] when it returned. *)
Definition close_poll_body_co (w : World) (chat_id : Z) (pid : pystr)
    (flag_stop : bool) : co bool :=
  let chat_id_str := str_of_Z chat_id in
  chat_data <~ atom (get_chat chat_id_str) ;;
  match active_poll chat_data with
  | None => atom (log Warning) ;~ atom (ret false)
  | Some ap =>
      if negb (pystr_eqb (poll_id ap) pid) then
        atom (log Warning) ;~ atom (ret false)
      else
        bot_stop_poll_co w chat_id (message_id ap) ;~
        let vs := votes ap in
        winner_index <~ atom (orraise (py_max (votes_get vs) (map fst vs))) ;;
        winner_line <~ atom (orraise (py_index (options ap) winner_index)) ;;
        let poll_result :=
          {| r_poll_id := pid;
             r_options := options ap;
             r_votes := vs;
             winner := winner_line;
             winner_index := winner_index;
             closed_at := now_isoformat w |} in
        atom (add_poll chat_id_str poll_result) ;~
        atom (set_active_poll chat_id_str None) ;~
        count <~ atom (orraise (od_get key_eqb vs winner_index)) ;;
        bot_send_message_co w chat_id winner_line count ;~
        atom (log Info) ;~
        if flag_stop then atom (ret false)
        else atom (emit (ESleep 5)) ;~ atom (ret true)
  end.

(** [close_poll] as a whole, under its one [try]; [w'] is what the handler
    reads from outside after the sleep. *)
Definition close_poll_co (w w' : World) (chat_id : Z) (pid : pystr)
    (flag_stop : bool) : co unit :=
  let chat_id_str := str_of_Z chat_id in
  try_co
    (go_on <~ close_poll_body_co w chat_id pid flag_stop ;;
     if go_on then
       await ;~
       chat_data <~ atom (get_chat chat_id_str) ;;
       match active_poll chat_data with
       | Some _ => atom (ret tt)
       | None => send_poll_co w' chat_id
       end
     else atom (ret tt))
    (atom (log Error)).

Definition on_error_co (w : World) : co unit :=
  atom (log Error) ;~ reply_text_co w ErrorText.

Definition start_command_co (w : World) (user_id chat_id : Z)
    (args : start_arg) : co unit :=
  try_co
    (if is_admin ADMIN_IDS user_id then
       match
         match args with
         | NoArg => Some chat_id
         | ChatArg target => Some target
         | BadArg => None
         end
       with
       | None => reply_text_co w BadChatId
       | Some target_chat_id =>
           let chat_id_str := str_of_Z target_chat_id in
           code_history <~ atom (get_code_history chat_id_str) ;;
           match code_history with
           | [] => atom (ret tt)
           | _ :: _ =>
               reply_text_co w Completing ;~
               reply_text_co w CompletedCode ;~
               reply_text_co w CompletedFile
           end ;~
           atom (clear_chat chat_id_str) ;~
           atom (log Info) ;~
           reply_text_co w HistoryCleared ;~
           send_poll_co w target_chat_id
       end
     else
       chat_data <~ atom (get_chat (str_of_Z chat_id)) ;;
       reply_text_co w Welcome)
    (on_error_co w).

Definition code_command_co (w : World) (chat_id : Z) : co unit :=
  try_co
    (code_history <~ atom (get_code_history (str_of_Z chat_id)) ;;
     match code_history with
     | [] => reply_text_co w CodeEmpty
     | _ :: _ => reply_text_co w (CurrentCode code_history)
     end)
    (on_error_co w).

Definition code_completed_command_co (w : World) (user_id chat_id : Z)
  : co unit :=
  ok <~ check_admin_co w user_id ;;
  if negb ok then atom (ret tt)
  else
    try_co
      (code_history <~ atom (get_code_history (str_of_Z chat_id)) ;;
       match code_history with
       | [] => reply_text_co w NothingToComplete
       | _ :: _ =>
           reply_text_co w Completing ;~
           reply_text_co w CompletedCode ;~
           reply_text_co w CompletedFile
       end)
      (on_error_co w).

Definition sendnow_command_co (w : World) (user_id chat_id : Z) : co unit :=
  ok <~ check_admin_co w user_id ;;
  if negb ok then atom (ret tt)
  else
    try_co
      (chat_data <~ atom (get_chat (str_of_Z chat_id)) ;;
       match active_poll chat_data with
       | Some _ => reply_text_co w AlreadyActive
       | None => reply_text_co w SendingNow ;~ send_poll_co w chat_id
       end)
      (on_error_co w).

Definition health_command_co (w : World) (user_id chat_id : Z) : co unit :=
  ok <~ check_admin_co w user_id ;;
  if negb ok then atom (ret tt)
  else
    try_co
      (chat_data <~ atom (get_chat (str_of_Z chat_id)) ;;
       reply_text_co w Status)
      (on_error_co w).

(** What the application starts: the handler of an update, or the task of
    a timer ([close_poll_callback]) or of a direct call of [close_poll]. *)
Inductive job :=
| JStart (w : World) (user_id chat_id : Z) (args : start_arg)
| JCode (w : World) (chat_id : Z)
| JCodeCompleted (w : World) (user_id chat_id : Z)
| JSendNow (w : World) (user_id chat_id : Z)
| JHealth (w : World) (user_id chat_id : Z)
| JPollAnswer (pid : pystr) (option_ids : list Z)
| JClosePoll (w w' : World) (chat_id : Z) (pid : pystr) (flag_stop : bool).

Definition task_of (j : job) : co unit :=
  match j with
  | JStart w u c a => start_command_co w u c a
  | JCode w c => code_command_co w c
  | JCodeCompleted w u c => code_completed_command_co w u c
  | JSendNow w u c => sendnow_command_co w u c
  | JHealth w u c => health_command_co w u c
  | JPollAnswer pid ids => atom (poll_answer_handler pid ids)
  | JClosePoll w w' c pid stop => close_poll_co w w' c pid stop
  end.

End Tasks.

(** [/start] from an administrator. *)
Definition admin_start_job (admins : list Z) (j : job) : bool :=
  match j with
  | JStart _ u _ _ => is_admin admins u
  | _ => false
  end.

(** Every computation of the coroutine keeps a property of the store. *)
Fixpoint co_keeps {A} (P : Store -> Prop) (x : co A) : Prop :=
  match x with
  | Fin _ => True
  | Act m k => keeps P m /\ forall r, co_keeps P (k r)
  | Await k => co_keeps P k
  end.

(** A coroutine and a computation that do the same when the coroutine is
    not interleaved with another task. *)
Definition agrees {A} (x : co A) (m : M A) : Prop :=
  forall s, flat x s = m s.

(** The same outside world, but [bot.send_message] raises. *)
Definition announce_fails (w : World) : World :=
  {| llm_response := llm_response w;
     send_poll_result := send_poll_result w;
     stop_poll_ok := stop_poll_ok w;
     send_message_ok := false;
     reply_ok := reply_ok w;
     now_timestamp := now_timestamp w;
     now_isoformat := now_isoformat w |}.

(** What the handler of a [/sendnow] reads from outside while the timer
    task of the example is at work: Telegram issues one more poll. *)
Definition sendnow_world : World :=
  {| llm_response := lit "z = 3";
     send_poll_result := Some (lit "poll-4", 4%Z);
     stop_poll_ok := true;
     send_message_ok := true;
     reply_ok := true;
     now_timestamp := 1306;
     now_isoformat := lit "2024-01-01T00:10:06" |}.

(** Chat 7 was started by the administrator 1 and one vote went to option
    0 of its first poll, which is still open. *)
Definition race_store : Store :=
  store_of (run 300 [1%Z]
              [Start calm_world 1 7 NoArg; PollAnswer (lit "poll-2") [0%Z]]
              []).

(** The timer of the poll fires, and an administrator sends [/sendnow]. *)
Definition race_pool : list (co unit) :=
  map (task_of 300 [1%Z])
      [ JClosePoll later_world later_world 7 (lit "poll-2") false;
        JSendNow sendnow_world 1 7 ].

(** The timer task runs up to the settle delay; the [/sendnow] arrives
    during the delay and is suspended in its first reply; the timer task
    wakes up, opens the next poll and ends; the [/sendnow] goes on. *)
Definition race_schedule : list nat := [0; 0; 0; 1; 0; 0; 1; 1]%nat.

(** The same with the answer of Telegram to the timer task arriving after
    the [/sendnow] has asked for its poll. *)
Definition race_schedule_late : list nat := [0; 0; 0; 1; 0; 1; 0; 1]%nat.

(** The two tasks one after the other. *)
Definition serial_schedule : list nat := [0; 0; 0; 0; 0; 1; 1; 1]%nat.

(** The pool, the store and the trace the event loop leaves. *)
Definition loop_pool (r : list (co unit) * Store * list effect)
  : list (co unit) := fst (fst r).

Definition loop_store (r : list (co unit) * Store * list effect) : Store :=
  snd (fst r).

Definition loop_effects (r : list (co unit) * Store * list effect)
  : list effect := snd r.

(** * Properties *)

Unset Implicit Arguments.

(** ** Strings and dictionaries *)

Lemma pystr_eqb_eq (a b : pystr) : pystr_eqb a b = true <-> a = b.
Proof.
  revert b; induction a as [|x a IH]; intros [|y b]; simpl;
    try (split; (reflexivity || discriminate)).
  rewrite andb_true_iff, N.eqb_eq, IH.
  split; [intros [-> ->]; reflexivity | intros H; inversion H; auto].
Qed.

Lemma pystr_eqb_refl (a : pystr) : pystr_eqb a a = true.
Proof. apply pystr_eqb_eq; reflexivity. Qed.

Lemma pystr_eqb_neq (a b : pystr) : pystr_eqb a b = false <-> a <> b.
Proof.
  rewrite <- pystr_eqb_eq. destruct (pystr_eqb a b); split; congruence.
Qed.

Lemma key_eqb_eq (a b : key) : key_eqb a b = true <-> a = b.
Proof.
  destruct a as [i|s], b as [j|t]; simpl;
    try (split; (discriminate || congruence)).
  - rewrite Z.eqb_eq; split; congruence.
  - rewrite pystr_eqb_eq; split; congruence.
Qed.

Lemma key_eqb_refl (a : key) : key_eqb a a = true.
Proof. apply key_eqb_eq; reflexivity. Qed.

Lemma mem_In (line : pystr) (lines : list pystr) :
  mem line lines = true <-> In line lines.
Proof.
  unfold mem. rewrite existsb_exists. split.
  - intros [x [Hin Heq]]. apply pystr_eqb_eq in Heq. subst; assumption.
  - intros Hin. exists line. split; [assumption | apply pystr_eqb_refl].
Qed.

(** ** The candidate generator *)

(** What [lstrip] leaves starts with a character that is not white space. *)
Lemma lstrip_head (s : pystr) (c : N) (t : pystr) :
  lstrip s = c :: t -> isspace c = false.
Proof.
  induction s as [|x s IH]; simpl; [discriminate|].
  destruct (isspace x) eqn:Hx; [exact IH|].
  intros H; inversion H; subst; assumption.
Qed.

(** [lstrip] removes a prefix. *)
Lemma lstrip_suffix (s : pystr) : exists ws, s = ws ++ lstrip s.
Proof.
  induction s as [|x s [ws IH]]; simpl.
  - exists []; reflexivity.
  - destruct (isspace x).
    + exists (x :: ws). simpl. f_equal. exact IH.
    + exists []. reflexivity.
Qed.

Lemma strip_head (s : pystr) (c : N) (t : pystr) :
  strip s = c :: t -> isspace c = false.
Proof.
  unfold strip. intros H.
  destruct (lstrip_suffix (rev (lstrip s))) as [ws Hws].
  assert (Hs : lstrip s = rev (lstrip (rev (lstrip s))) ++ rev ws).
  { rewrite <- rev_app_distr, <- Hws, rev_involutive. reflexivity. }
  rewrite H in Hs. simpl in Hs.
  apply lstrip_head with (s := s) (t := t ++ rev ws). exact Hs.
Qed.

Lemma take_unique_spec (lines acc : list pystr) :
  NoDup acc -> length acc < 4 ->
  let r := take_unique lines acc in
  NoDup r /\ length r <= 4 /\ (forall x, In x r -> In x acc \/ In x lines).
Proof.
  revert acc; induction lines as [|line rest IH]; intros acc Hnd Hlen; simpl.
  - repeat split; auto; lia.
  - destruct (mem line acc) eqn:Hmem.
    + assert (Hne : Nat.eqb (length acc) 4 = false)
        by (apply Nat.eqb_neq; lia).
      rewrite Hne.
      destruct (IH acc Hnd Hlen) as (H1 & H2 & H3).
      repeat split; auto. intros x Hx. destruct (H3 x Hx); auto.
    + assert (Hnd' : NoDup (acc ++ [line])).
      { apply NoDup_app; [assumption | repeat constructor; simpl; tauto |].
        intros x Hx [<-|[]].
        apply mem_In in Hx. congruence. }
      assert (Hin' : forall x, In x (acc ++ [line]) ->
                               In x acc \/ In x (line :: rest)).
      { intros x Hx. apply in_app_or in Hx. simpl in *. tauto. }
      destruct (Nat.eqb (length (acc ++ [line])) 4) eqn:H4.
      * apply Nat.eqb_eq in H4. repeat split; auto. lia.
      * apply Nat.eqb_neq in H4.
        assert (Hlen' : length (acc ++ [line]) < 4)
          by (rewrite length_app in *; simpl in *; lia).
        destruct (IH _ Hnd' Hlen') as (H1 & H2 & H3).
        repeat split; auto. intros x Hx.
        destruct (H3 x Hx) as [Hx'|Hx']; [apply Hin'; exact Hx' | simpl; auto].
Qed.

(** The padding loop in closed form. *)
Lemma pad_options_spec (unique_lines : list pystr) :
  pad_options unique_lines =
  unique_lines ++
  map placeholder (seq (length unique_lines + 1) (4 - length unique_lines)).
Proof.
  funelim (pad_options unique_lines).
  - rewrite H. rewrite length_app. simpl length.
    rewrite <- app_assoc. f_equal.
    replace (4 - length unique_lines)
      with (S (4 - (length unique_lines + 1))) by lia.
    simpl. do 3 f_equal. lia.
  - replace (4 - length unique_lines) with 0 by lia.
    simpl. rewrite app_nil_r. reflexivity.
Qed.

Lemma placeholder_shape (k : nat) (x : pystr) :
  k <= 4 -> In x (map placeholder (seq (k + 1) (4 - k))) ->
  x <> [] /\ length x <= 95 /\ exists t, x = 32%N :: t.
Proof.
  intros Hk Hin.
  destruct k as [|[|[|[|[|k]]]]]; try lia; simpl in Hin;
    repeat (destruct Hin as [<-|Hin];
            [repeat split; [discriminate | vm_compute; lia | eexists; reflexivity]|]);
    contradiction.
Qed.

Lemma placeholder_NoDup (k : nat) :
  k <= 4 -> NoDup (map placeholder (seq (k + 1) (4 - k))).
Proof.
  intros Hk.
  destruct k as [|[|[|[|[|k]]]]]; try lia; simpl;
    repeat constructor; simpl; intuition discriminate.
Qed.

Lemma fallback_first_ok :
  length fallback_first = 4 /\ NoDup fallback_first /\
  Forall (fun o => o <> [] /\ length o <= 95) fallback_first.
Proof.
  split; [reflexivity|]. split.
  - unfold fallback_first; repeat constructor; simpl; intuition discriminate.
  - unfold fallback_first; repeat constructor; try discriminate;
      vm_compute; lia.
Qed.

Lemma fallback_next_ok :
  length fallback_next = 4 /\ NoDup fallback_next /\
  Forall (fun o => o <> [] /\ length o <= 95) fallback_next.
Proof.
  split; [reflexivity|]. split.
  - unfold fallback_next; repeat constructor; simpl; intuition discriminate.
  - unfold fallback_next; repeat constructor; try discriminate;
      vm_compute; lia.
Qed.

(** The lines that reach the duplicate filter are usable. *)
Lemma filtered_lines_usable (response : pystr) (x : pystr) :
  In x (filter (fun line => negb (startswith fence line)
                            && Nat.leb (length line) 95)
          (map strip (filter (fun line => negb (falsy (strip line)))
                             (split_nl [] response)))) ->
  usable x /\ In x (map strip (split_nl [] response)).
Proof.
  intros Hin. apply filter_In in Hin. destruct Hin as [Hin Hf].
  apply andb_true_iff in Hf. destruct Hf as [_ Hlen].
  apply Nat.leb_le in Hlen.
  apply in_map_iff in Hin. destruct Hin as [raw [<- Hraw]].
  apply filter_In in Hraw. destruct Hraw as [Hraw Hne].
  split.
  - repeat split.
    + intros E. rewrite E in Hne. discriminate.
    + exact Hlen.
    + intros c t E. apply strip_head with (s := raw) (t := t). exact E.
  - apply in_map. exact Hraw.
Qed.

(** The shape of the result of [generate_code_options]. *)
Lemma generate_code_options_shape
    (response : pystr) (code_history : list pystr) :
  let r := generate_code_options response code_history in
  length r = 4 /\ NoDup r /\
  Forall (fun o => o <> [] /\ length o <= 95) r /\
  (response <> [] ->
   exists kept,
     r = kept ++ map placeholder (seq (length kept + 1) (4 - length kept)) /\
     length kept <= 4 /\
     forall x, In x kept -> In x (map strip (split_nl [] response))).
Proof.
  unfold generate_code_options.
  destruct response as [|c0 resp]; simpl falsy; cbv iota.
  - destruct code_history;
      [destruct fallback_first_ok as (A & B & C)
      |destruct fallback_next_ok as (A & B & C)];
      repeat split; auto; intros H; congruence.
  - set (lines := filter _ (map strip _)).
    pose proof (@take_unique_spec lines [] (NoDup_nil _)) as Hu.
    simpl in Hu. specialize (Hu ltac:(lia)).
    destruct Hu as (Hnd & Hlen & Hsrc).
    set (u := take_unique lines []) in *.
    assert (Hus : forall x, In x u ->
              usable x /\ In x (map strip (split_nl [] (c0 :: resp)))).
    { intros x Hx. destruct (Hsrc x Hx) as [[]|Hx'].
      apply filtered_lines_usable. exact Hx'. }
    rewrite pad_options_spec.
    assert (Hl4 : length (u ++ map placeholder
                            (seq (length u + 1) (4 - length u))) = 4).
    { rewrite length_app, length_map, length_seq. lia. }
    rewrite firstn_all2 by lia.
    split; [exact Hl4|]. split; [|split].
    + apply NoDup_app; [exact Hnd | apply placeholder_NoDup; exact Hlen |].
      intros x Hx Hp.
      destruct (@placeholder_shape _ _ Hlen Hp) as (_ & _ & [t ->]).
      destruct (Hus _ Hx) as [(_ & _ & Hhead) _].
      specialize (Hhead _ _ eq_refl). discriminate.
    + apply Forall_forall. intros x Hx. apply in_app_or in Hx.
      destruct Hx as [Hx|Hx].
      * destruct (Hus _ Hx) as [(H1 & H2 & _) _]. auto.
      * destruct (@placeholder_shape _ _ Hlen Hx) as (H1 & H2 & _). auto.
    + intros _. exists u. repeat split; auto.
      intros x Hx. apply Hus. exact Hx.
Qed.

(** C3. For every answer of the language model (the empty answer of a
    failed call included) and every history, [generate_code_options]
    returns exactly four strings, pairwise distinct, none empty and none
    longer than 95 characters; when the answer is not empty, the result is
    the first distinct usable lines of the answer followed by the numbered
    placeholders ["    # Option N"] that fill the list up to four. *)
Theorem generate_code_options_four_distinct
    (response : pystr) (code_history : list pystr) :
  let r := generate_code_options response code_history in
  length r = 4 /\ NoDup r /\
  Forall (fun o => o <> [] /\ length o <= 95) r /\
  (response <> [] ->
   exists kept,
     r = kept ++ map placeholder (seq (length kept + 1) (4 - length kept)) /\
     length kept <= 4 /\
     forall x, In x kept -> In x (map strip (split_nl [] response))).
Proof. apply generate_code_options_shape. Qed.

Lemma generate_code_options_four_distinct_witness :
  exists kept,
    generate_code_options (lit "x = 1") [] =
    kept ++ map placeholder (seq (length kept + 1) (4 - length kept)) /\
    (length kept <= 4)%nat.
Proof.
  destruct (generate_code_options_four_distinct (lit "x = 1") [])
    as (_ & _ & _ & Hpad).
  destruct Hpad as (kept & Hr & Hlen & _); [discriminate|].
  exists kept. split; assumption.
Defined.

(** ** Ordered dictionaries *)

Section ODictFacts.
Variables (K V : Type) (eqb : K -> K -> bool).
Hypothesis eqb_eq : forall a b, eqb a b = true <-> a = b.

Lemma eqb_same (a : K) : eqb a a = true.
Proof. apply eqb_eq; reflexivity. Qed.

Lemma eqb_diff (a b : K) : a <> b -> eqb a b = false.
Proof.
  intros H. destruct (eqb a b) eqn:E; [|reflexivity].
  apply eqb_eq in E. contradiction.
Qed.

Lemma od_get_set_same (d : list (K * V)) k v :
  od_get eqb (od_set eqb d k v) k = Some v.
Proof.
  induction d as [|[k' v'] d IH]; simpl.
  - rewrite eqb_same; reflexivity.
  - destruct (eqb k k') eqn:E; simpl; rewrite E; auto.
Qed.

Lemma od_get_set_other (d : list (K * V)) k v k' :
  k <> k' -> od_get eqb (od_set eqb d k v) k' = od_get eqb d k'.
Proof.
  intros Hne. induction d as [|[k0 v0] d IH]; simpl.
  - rewrite eqb_diff; auto.
  - destruct (eqb k k0) eqn:E; simpl.
    + apply eqb_eq in E. subst k0. rewrite eqb_diff; auto.
    + rewrite IH. reflexivity.
Qed.

Lemma od_get_In (d : list (K * V)) k v :
  od_get eqb d k = Some v -> In (k, v) d.
Proof.
  induction d as [|[k' v'] d IH]; simpl; [discriminate|].
  destruct (eqb k k') eqn:E.
  - apply eqb_eq in E. intros H; inversion H; subst; auto.
  - auto.
Qed.

Lemma od_get_None (d : list (K * V)) k :
  od_get eqb d k = None <-> ~ In k (map fst d).
Proof.
  induction d as [|[k' v'] d IH]; simpl; [tauto|].
  destruct (eqb k k') eqn:E.
  - apply eqb_eq in E. subst. split; [discriminate | tauto].
  - rewrite IH. split; [|tauto].
    intros H [H'|H']; [|tauto].
    subst. rewrite eqb_same in E. discriminate.
Qed.

Lemma od_get_first (pre post : list (K * V)) k v :
  ~ In k (map fst pre) ->
  od_get eqb (pre ++ (k, v) :: post) k = Some v.
Proof.
  induction pre as [|[k' v'] pre IH]; simpl; intros H.
  - rewrite eqb_same; reflexivity.
  - rewrite eqb_diff by (intros E; apply H; auto).
    apply IH. tauto.
Qed.

(** Assignment to a present key changes no key. *)
Lemma od_set_keys_present (d : list (K * V)) k v :
  In k (map fst d) -> map fst (od_set eqb d k v) = map fst d.
Proof.
  induction d as [|[k' v'] d IH]; simpl; [tauto|].
  destruct (eqb k k') eqn:E; simpl; [reflexivity|].
  intros [H|H].
  - subst. rewrite eqb_same in E. discriminate.
  - rewrite IH; auto.
Qed.

(** Assignment to a new key appends it. *)
Lemma od_set_keys_absent (d : list (K * V)) k v :
  ~ In k (map fst d) -> map fst (od_set eqb d k v) = map fst d ++ [k].
Proof.
  induction d as [|[k' v'] d IH]; simpl; [reflexivity|].
  intros H. rewrite eqb_diff by (intros E; apply H; auto).
  simpl. rewrite IH; tauto.
Qed.

Lemma od_set_NoDup (d : list (K * V)) k v :
  NoDup (map fst d) -> NoDup (map fst (od_set eqb d k v)).
Proof.
  intros Hnd.
  destruct (od_get eqb d k) eqn:E.
  - rewrite od_set_keys_present; [assumption|].
    apply od_get_In in E. apply (in_map fst) in E. exact E.
  - apply od_get_None in E. rewrite od_set_keys_absent by assumption.
    apply NoDup_app; [assumption | repeat constructor; simpl; tauto |].
    intros x Hx [<-|[]]. contradiction.
Qed.

(** What assignment leaves in the dictionary. *)
Lemma od_set_In (d : list (K * V)) k v k' v' :
  In (k', v') (od_set eqb d k v) -> In (k', v') d \/ v' = v.
Proof.
  induction d as [|[k0 v0] d IH]; simpl.
  - intros [H|[]]. inversion H; auto.
  - destruct (eqb k k0); simpl.
    + intros [H|H]; [inversion H; auto | auto].
    + intros [H|H]; [auto | destruct (IH H); auto].
Qed.

Lemma od_set_Forall (P : K * V -> Prop) (d : list (K * V)) k v :
  Forall P d -> (forall k', P (k', v)) -> Forall P (od_set eqb d k v).
Proof.
  intros Hd Hv. induction Hd as [|[k0 v0] d H0 Hd IH]; simpl.
  - constructor; auto.
  - destruct (eqb k k0); constructor; auto.
Qed.

(** Assigning a present key its own entry: the dictionary in place. *)
Lemma od_set_split (pre post : list (K * V)) k v v' :
  ~ In k (map fst pre) ->
  od_set eqb (pre ++ (k, v) :: post) k v' = pre ++ (k, v') :: post.
Proof.
  induction pre as [|[k0 v0] pre IH]; simpl; intros H.
  - rewrite eqb_same; reflexivity.
  - rewrite eqb_diff by (intros E; apply H; auto).
    rewrite IH; tauto.
Qed.

Lemma od_get_split (d : list (K * V)) k v :
  od_get eqb d k = Some v ->
  exists pre post, d = pre ++ (k, v) :: post /\ ~ In k (map fst pre).
Proof.
  induction d as [|[k0 v0] d IH]; simpl; [discriminate|].
  destruct (eqb k k0) eqn:E.
  - apply eqb_eq in E. intros H; inversion H; subst.
    exists [], d. simpl; tauto.
  - intros H. destruct (IH H) as (pre & post & -> & Hpre).
    exists ((k0, v0) :: pre), post. split; [reflexivity|].
    simpl. intros [H'|H']; [|tauto].
    subst. rewrite eqb_same in E. discriminate.
Qed.
End ODictFacts.

Lemma chat_get_set_same (s : Store) c ch :
  chat_get (chat_set s c ch) c = Some ch.
Proof. apply od_get_set_same, pystr_eqb_eq. Qed.

Lemma chat_get_set_other (s : Store) c ch c' :
  c <> c' -> chat_get (chat_set s c ch) c' = chat_get s c'.
Proof. apply od_get_set_other, pystr_eqb_eq. Qed.

Lemma chat_set_set (s : Store) c ch ch' :
  chat_set (chat_set s c ch) c ch' = chat_set s c ch'.
Proof.
  unfold chat_set. induction s as [|[k v] s IH]; simpl.
  - rewrite pystr_eqb_refl. reflexivity.
  - destruct (pystr_eqb c k) eqn:E; simpl; rewrite E; [reflexivity|].
    rewrite IH. reflexivity.
Qed.

(** ** The winner *)

Local Open Scope Z_scope.

Ltac each_index j :=
  let E := fresh "E" in
  assert (E : j = 0 \/ j = 1 \/ j = 2 \/ j = 3) by lia;
  destruct E as [->|[->|[->| ->]]]; lia.

(** On votes keyed 0..3 in this order, [max(votes, key=votes.get)] is the
    least index among those with the most votes. *)
Lemma py_max_lowest_index (vs : list (key * Z)) :
  map fst vs = [KInt 0; KInt 1; KInt 2; KInt 3] ->
  exists i,
    0 <= i < 4 /\
    py_max (votes_get vs) (map fst vs) = Some (KInt i) /\
    (forall j, 0 <= j < 4 ->
               votes_get vs (KInt j) <= votes_get vs (KInt i)) /\
    (forall j, 0 <= j < i ->
               votes_get vs (KInt j) < votes_get vs (KInt i)).
Proof.
  intros Hk. rewrite Hk. unfold py_max. simpl fold_left.
  set (f := votes_get vs).
  destruct (Z.ltb_spec (f (KInt 0)) (f (KInt 1))) as [H01|H01].
  - destruct (Z.ltb_spec (f (KInt 1)) (f (KInt 2))) as [H12|H12].
    + destruct (Z.ltb_spec (f (KInt 2)) (f (KInt 3))) as [H23|H23].
      * exists 3. repeat split; try lia; intros j Hr; each_index j.
      * exists 2. repeat split; try lia; intros j Hr; each_index j.
    + destruct (Z.ltb_spec (f (KInt 1)) (f (KInt 3))) as [H13|H13].
      * exists 3. repeat split; try lia; intros j Hr; each_index j.
      * exists 1. repeat split; try lia; intros j Hr; each_index j.
  - destruct (Z.ltb_spec (f (KInt 0)) (f (KInt 2))) as [H02|H02].
    + destruct (Z.ltb_spec (f (KInt 2)) (f (KInt 3))) as [H23|H23].
      * exists 3. repeat split; try lia; intros j Hr; each_index j.
      * exists 2. repeat split; try lia; intros j Hr; each_index j.
    + destruct (Z.ltb_spec (f (KInt 0)) (f (KInt 3))) as [H03|H03].
      * exists 3. repeat split; try lia; intros j Hr; each_index j.
      * exists 0. repeat split; try lia; intros j Hr; each_index j.
Qed.

Lemma votes_get_present (vs : list (key * Z)) (k : key) :
  In k (map fst vs) -> od_get key_eqb vs k = Some (votes_get vs k).
Proof.
  intros Hin. unfold votes_get.
  destruct (od_get key_eqb vs k) eqn:E; [reflexivity|].
  apply (od_get_None _ _ key_eqb key_eqb_eq) in E. contradiction.
Qed.

Lemma poll_wf_vote (p : PollData) (i : Z) :
  poll_wf p -> 0 <= i < 4 ->
  od_get key_eqb (votes p) (KInt i) = Some (votes_get (votes p) (KInt i)).
Proof.
  intros (Hk & _) Hi. apply votes_get_present. rewrite Hk.
  assert (E : i = 0 \/ i = 1 \/ i = 2 \/ i = 3) by lia.
  destruct E as [->|[->|[->| ->]]]; simpl; auto.
Qed.

Lemma poll_wf_option (p : PollData) (i : Z) :
  poll_wf p -> 0 <= i < 4 ->
  exists line,
    py_index (options p) (KInt i) = Some line /\
    nth_error (options p) (Z.to_nat i) = Some line /\ line <> [].
Proof.
  intros (_ & _ & Hlen & Hne) Hi. unfold py_index. rewrite Hlen.
  replace ((0 <=? i) && (i <? Z.of_nat 4)) with true
    by (symmetry; apply andb_true_iff; split;
        [apply Z.leb_le | apply Z.ltb_lt]; lia).
  destruct (nth_error (options p) (Z.to_nat i)) as [line|] eqn:E.
  - exists line. repeat split; auto.
    rewrite Forall_forall in Hne. apply Hne.
    apply nth_error_In with (n := Z.to_nat i). exact E.
  - apply nth_error_None in E. lia.
Qed.

(** ** Evaluation of the monad *)

Lemma bind_ok {A B} (m : M A) (f : A -> M B) s a s1 e1 r s2 e2 es :
  m s = (Some a, s1, e1) -> f a s1 = (r, s2, e2) -> es = e1 ++ e2 ->
  bind m f s = (r, s2, es).
Proof. intros Hm Hf ->. unfold bind. rewrite Hm, Hf. reflexivity. Qed.

Lemma bind_raised {A B} (m : M A) (f : A -> M B) s s1 e1 :
  m s = (None, s1, e1) -> bind m f s = (None, s1, e1).
Proof. intros Hm. unfold bind. rewrite Hm. reflexivity. Qed.

Lemma try_ok {A} (body handler : M A) s a s1 e1 :
  body s = (Some a, s1, e1) -> try_except body handler s = (Some a, s1, e1).
Proof. intros Hm. unfold try_except. rewrite Hm. reflexivity. Qed.

Lemma try_raised {A} (body handler : M A) s s1 e1 r s2 e2 es :
  body s = (None, s1, e1) -> handler s1 = (r, s2, e2) -> es = e1 ++ e2 ->
  try_except body handler s = (r, s2, es).
Proof. intros Hm Hh ->. unfold try_except. rewrite Hm, Hh. reflexivity. Qed.

Lemma get_chat_found (s : Store) c ch :
  chat_get s c = Some ch -> get_chat c s = (Some ch, s, []).
Proof. intros H. unfold get_chat. rewrite H. reflexivity. Qed.

Lemma get_chat_missing (s : Store) c :
  chat_get s c = None ->
  get_chat c s = (Some new_chat, chat_set s c new_chat,
                  [ESave (chat_set s c new_chat)]).
Proof. intros H. unfold get_chat. rewrite H. reflexivity. Qed.

Lemma add_poll_found (s : Store) c ch r :
  chat_get s c = Some ch ->
  let s' := chat_set s c {| polls := polls ch ++ [r];
                            active_poll := active_poll ch |} in
  add_poll c r s = (Some tt, s', [ESave s']).
Proof.
  intros H s'. unfold add_poll.
  eapply bind_ok; [apply get_chat_found; exact H | reflexivity | reflexivity].
Qed.

Lemma set_active_poll_found (s : Store) c ch p :
  chat_get s c = Some ch ->
  let s' := chat_set s c {| polls := polls ch; active_poll := p |} in
  set_active_poll c p s = (Some tt, s', [ESave s']).
Proof.
  intros H s'. unfold set_active_poll.
  eapply bind_ok; [apply get_chat_found; exact H | reflexivity | reflexivity].
Qed.

Lemma get_code_history_found (s : Store) c ch :
  chat_get s c = Some ch ->
  get_code_history c s = (Some (winners (polls ch)), s, []).
Proof.
  intros H. unfold get_code_history.
  eapply bind_ok; [apply get_chat_found; exact H | reflexivity | reflexivity].
Qed.

(** Evaluation of a computation, one [bind] or [try_except] at a time;
    [tac] rewrites with the facts at hand before each step. *)
Ltac meval tac :=
  cbv beta iota zeta; tac; cbv beta iota zeta delta [negb];
  lazymatch goal with
  | |- bind _ _ _ = _ =>
      first [ eapply bind_ok; [ meval tac | meval tac | reflexivity ]
            | eapply bind_raised; meval tac ]
  | |- try_except _ _ _ = _ =>
      first [ eapply try_ok; meval tac
            | eapply try_raised; [ meval tac | meval tac | reflexivity ] ]
  | |- _ =>
      first [ reflexivity | eassumption
            | multimatch goal with H : _ = _ |- _ => exact H end
            | apply get_chat_found; eassumption ]
  end.

(** ** [close_poll] on the active poll *)

Lemma close_poll_matched (w : World) (chat_id : Z) (pid : pystr)
    (flag_stop : bool) (s : Store) (chat : Chat) (p : PollData)
    (k : key) (line : pystr) (n : Z) :
  chat_get s (str_of_Z chat_id) = Some chat ->
  active_poll chat = Some p ->
  poll_id p = pid ->
  py_max (votes_get (votes p)) (map fst (votes p)) = Some k ->
  py_index (options p) k = Some line ->
  od_get key_eqb (votes p) k = Some n ->
  let r := poll_result_of w pid p k line in
  let s1 := chat_set s (str_of_Z chat_id)
              {| polls := polls chat ++ [r]; active_poll := Some p |} in
  let s2 := chat_set s (str_of_Z chat_id)
              {| polls := polls chat ++ [r]; active_poll := None |} in
  close_poll w chat_id pid flag_stop s =
  (Some (send_message_ok w && negb flag_stop), s2,
   EStopPoll chat_id (message_id p)
   :: (if stop_poll_ok w then [] else [ELog Error])
   ++ [ESave s1; ESave s2; ESendMessage chat_id line n]
   ++ (if send_message_ok w
       then ELog Info :: (if flag_stop then [] else [ESleep 5])
       else [ELog Error])).
Proof.
  intros Hc Ha Hid Hmax Hidx Hn r s1 s2.
  assert (Hadd : add_poll (str_of_Z chat_id) r s = (Some tt, s1, [ESave s1])).
  { rewrite (add_poll_found _ _ _ r Hc). rewrite Ha. reflexivity. }
  assert (Hset : set_active_poll (str_of_Z chat_id) None s1 =
                 (Some tt, s2, [ESave s2])).
  { unfold s1.
    rewrite (set_active_poll_found _ _ _ None (chat_get_set_same _ _ _)).
    rewrite chat_set_set. reflexivity. }
  subst pid. unfold close_poll, bot_stop_poll, bot_send_message.
  fold (poll_result_of w (poll_id p) p).
  destruct (stop_poll_ok w), (send_message_ok w), flag_stop;
    meval ltac:(try rewrite Ha; try rewrite pystr_eqb_refl;
                try rewrite Hmax; try rewrite Hidx; try rewrite Hn;
                try fold r).
Qed.

Lemma close_poll_stale (w : World) (chat_id : Z) (pid : pystr)
    (flag_stop : bool) (s : Store) (chat : Chat) :
  chat_get s (str_of_Z chat_id) = Some chat ->
  (forall p, active_poll chat = Some p -> poll_id p <> pid) ->
  close_poll w chat_id pid flag_stop s = (Some false, s, [ELog Warning]).
Proof.
  intros Hc Hp. unfold close_poll.
  destruct (active_poll chat) as [p|] eqn:Ha.
  - assert (Hne : pystr_eqb (poll_id p) pid = false)
      by (apply pystr_eqb_neq; auto).
    meval ltac:(try rewrite Ha; try rewrite Hne).
  - meval ltac:(try rewrite Ha).
Qed.

Lemma winners_app (l : list PollResult) (r : PollResult) :
  winners (l ++ [r]) =
  winners l ++ (if falsy (winner r) then [] else [winner r]).
Proof.
  unfold winners. rewrite filter_app, map_app. simpl.
  destruct (falsy (winner r)); reflexivity.
Qed.

Lemma polls_of_set (s : Store) c ch : polls_of (chat_set s c ch) c = polls ch.
Proof. unfold polls_of. rewrite chat_get_set_same. reflexivity. Qed.

Lemma active_of_set (s : Store) c ch :
  active_of (chat_set s c ch) c = active_poll ch.
Proof. unfold active_of. rewrite chat_get_set_same. reflexivity. Qed.

Lemma poll_wf_tie_poll : poll_wf tie_poll.
Proof.
  unfold poll_wf, tie_poll; simpl. repeat split.
  - repeat constructor; simpl; lia.
  - repeat constructor; discriminate.
Qed.

(** What [close_poll] does to a chat whose active poll is well formed and
    has the identifier: the facts shared by the theorems below. *)
Lemma close_poll_wf (w : World) (chat_id : Z) (pid : pystr)
    (flag_stop : bool) (s : Store) (chat : Chat) (p : PollData) :
  chat_get s (str_of_Z chat_id) = Some chat ->
  active_poll chat = Some p ->
  poll_id p = pid ->
  poll_wf p ->
  exists i line,
    0 <= i < 4 /\
    (forall j, 0 <= j < 4 ->
               votes_get (votes p) (KInt j) <= votes_get (votes p) (KInt i)) /\
    (forall j, 0 <= j < i ->
               votes_get (votes p) (KInt j) < votes_get (votes p) (KInt i)) /\
    nth_error (options p) (Z.to_nat i) = Some line /\ line <> [] /\
    let r := poll_result_of w pid p (KInt i) line in
    let s1 := chat_set s (str_of_Z chat_id)
                {| polls := polls chat ++ [r]; active_poll := Some p |} in
    let s2 := chat_set s (str_of_Z chat_id)
                {| polls := polls chat ++ [r]; active_poll := None |} in
    close_poll w chat_id pid flag_stop s =
    (Some (send_message_ok w && negb flag_stop), s2,
     EStopPoll chat_id (message_id p)
     :: (if stop_poll_ok w then [] else [ELog Error])
     ++ [ESave s1; ESave s2;
         ESendMessage chat_id line (votes_get (votes p) (KInt i))]
     ++ (if send_message_ok w
         then ELog Info :: (if flag_stop then [] else [ESleep 5])
         else [ELog Error])).
Proof.
  intros Hc Ha Hid Hwf.
  destruct (py_max_lowest_index (votes p) (proj1 Hwf))
    as (i & Hi & Hmax & Hge & Hlt).
  destruct (poll_wf_option p i Hwf Hi) as (line & Hidx & Hnth & Hne).
  exists i, line. repeat split; try assumption; try lia.
  intros r s1 s2.
  apply (close_poll_matched w chat_id pid flag_stop s chat p (KInt i) line
           (votes_get (votes p) (KInt i)) Hc Ha Hid Hmax Hidx).
  apply poll_wf_vote; assumption.
Qed.

(** An entry of the votes of a poll as [send_poll] builds it is the entry
    of one of the indices 0..3, and [votes.get] returns its count. *)
Lemma poll_wf_In_votes (p : PollData) (j n : Z) :
  poll_wf p -> In (KInt j, n) (votes p) ->
  0 <= j < 4 /\ votes_get (votes p) (KInt j) = n.
Proof.
  intros (Hk & _) Hin. unfold votes_get.
  destruct (votes p) as [|[k0 n0] [|[k1 n1] [|[k2 n2] [|[k3 n3] [|x vs]]]]];
    try discriminate Hk.
  simpl in Hk. inversion Hk; subst.
  simpl in Hin.
  destruct Hin as [E|[E|[E|[E|[]]]]]; inversion E; subst;
    (split; [lia | reflexivity]).
Qed.

(** The index [close_poll] picks, read on the entries of the votes: its
    entry has a count no other entry exceeds, and every entry of a lower
    index has a smaller count. *)
Lemma winner_on_entries (p : PollData) (i : Z) :
  poll_wf p -> 0 <= i < 4 ->
  (forall j, 0 <= j < 4 ->
             votes_get (votes p) (KInt j) <= votes_get (votes p) (KInt i)) ->
  (forall j, 0 <= j < i ->
             votes_get (votes p) (KInt j) < votes_get (votes p) (KInt i)) ->
  exists m,
    In (KInt i, m) (votes p) /\
    forall j n, In (KInt j, n) (votes p) -> n <= m /\ (j < i -> n < m).
Proof.
  intros Hwf Hi Hge Hlt.
  exists (votes_get (votes p) (KInt i)). split.
  - apply (od_get_In _ _ key_eqb key_eqb_eq). apply poll_wf_vote; assumption.
  - intros j n Hin.
    destruct (poll_wf_In_votes p j n Hwf Hin) as [Hj <-].
    split; [apply Hge; exact Hj | intros Hji; apply Hlt; lia].
Qed.

(** C1. When [close_poll] finds the active poll of the chat with the given
    identifier (a poll as [send_poll] builds it), the index it archives as
    the winner is the index of an entry of the votes whose count no entry
    exceeds, every entry of a lower index has a strictly smaller count, and
    the line it archives is the option at that index.  For the votes
    {0:3, 1:3, 2:1, 3:0} the archived index is 0. *)
Theorem close_poll_winner_lowest_max (w : World) (chat_id : Z) (pid : pystr)
    (flag_stop : bool) (s : Store) (chat : Chat) (p : PollData) :
  chat_get s (str_of_Z chat_id) = Some chat ->
  active_poll chat = Some p ->
  poll_id p = pid ->
  poll_wf p ->
  (exists i m line,
     In (KInt i, m) (votes p) /\
     (forall j n, In (KInt j, n) (votes p) -> n <= m /\ (j < i -> n < m)) /\
     nth_error (options p) (Z.to_nat i) = Some line /\
     polls_of (store_of (close_poll w chat_id pid flag_stop s))
              (str_of_Z chat_id)
     = polls chat ++
       [{| r_poll_id := pid;
           r_options := options p;
           r_votes := votes p;
           winner := line;
           winner_index := KInt i;
           closed_at := now_isoformat w |}]) /\
  map winner_index
      (polls_of (store_of (close_poll w 7 (lit "poll-1") flag_stop tie_store))
                (str_of_Z 7)) = [KInt 0].
Proof.
  intros Hc Ha Hid Hwf. split.
  - destruct (close_poll_wf w chat_id pid flag_stop s chat p Hc Ha Hid Hwf)
      as (i & line & Hi & Hge & Hlt & Hnth & _ & Hrun).
    destruct (winner_on_entries p i Hwf Hi Hge Hlt) as (m & Hin & Hall).
    exists i, m, line.
    split; [exact Hin|]. split; [exact Hall|]. split; [exact Hnth|].
    rewrite Hrun. unfold store_of. simpl. apply polls_of_set.
  - destruct (stop_poll_ok w) eqn:H1, (send_message_ok w) eqn:H2, flag_stop;
      unfold close_poll, bot_stop_poll, bot_send_message, try_except, bind;
      simpl; rewrite ?H1, ?H2; reflexivity.
Qed.

Lemma close_poll_winner_lowest_max_witness :
  map winner_index
    (polls_of (store_of (close_poll calm_world 7 (lit "poll-1") false
                           lead_store))
              (str_of_Z 7)) = [KInt 2].
Proof.
  destruct (close_poll_winner_lowest_max calm_world 7 (lit "poll-1") false
              lead_store {| polls := []; active_poll := Some lead_poll |}
              lead_poll)
    as [(i & m & line & Hin & Hall & _ & Hpolls) _].
  - reflexivity.
  - reflexivity.
  - reflexivity.
  - unfold poll_wf, lead_poll; simpl. repeat split.
    + repeat constructor; simpl; lia.
    + repeat constructor; discriminate.
  - rewrite Hpolls. simpl.
    assert (H2 : 2 <= m /\ (2 < i -> 2 < m))
      by (apply Hall; simpl; auto).
    assert (H0 : 1 <= m /\ (0 < i -> 1 < m))
      by (apply Hall; simpl; auto).
    simpl in Hin.
    destruct Hin as [E|[E|[E|[E|[]]]]]; inversion E; subst;
      solve [reflexivity | lia].
Defined.

(** The store [close_poll] leaves after it closed the active poll. *)
Lemma close_poll_commits (w : World) (chat_id : Z) (pid : pystr)
    (flag_stop : bool) (s : Store) (chat : Chat) (p : PollData) :
  chat_get s (str_of_Z chat_id) = Some chat ->
  active_poll chat = Some p ->
  poll_id p = pid ->
  poll_wf p ->
  let c := str_of_Z chat_id in
  let s' := store_of (close_poll w chat_id pid flag_stop s) in
  exists i line,
    0 <= i < 4 /\
    nth_error (options p) (Z.to_nat i) = Some line /\
    py_max (votes_get (votes p)) (map fst (votes p)) = Some (KInt i) /\
    history_of s' c = history_of s c ++ [line] /\
    length (history_of s' c) = S (length (history_of s c)) /\
    last (history_of s' c) [] = line /\
    result_of (get_code_history c s') = Some (history_of s c ++ [line]) /\
    polls_of s' c =
      polls_of s c ++
      [{| r_poll_id := pid;
          r_options := options p;
          r_votes := votes p;
          winner := line;
          winner_index := KInt i;
          closed_at := now_isoformat w |}] /\
    active_of s' c = None.
Proof.
  intros Hc Ha Hid Hwf c s'.
  destruct (py_max_lowest_index (votes p) (proj1 Hwf))
    as (i & Hi & Hmax & _ & _).
  destruct (poll_wf_option p i Hwf Hi) as (line & Hidx & Hnth & Hne).
  pose proof (close_poll_matched w chat_id pid flag_stop s chat p (KInt i) line
                (votes_get (votes p) (KInt i)) Hc Ha Hid Hmax Hidx
                (poll_wf_vote p i Hwf Hi)) as Hrun.
  cbv zeta in Hrun.
  assert (Hs' : s' = chat_set s c
                  {| polls := polls chat ++ [poll_result_of w pid p (KInt i) line];
                     active_poll := None |}).
  { unfold s'. rewrite Hrun. reflexivity. }
  assert (Hpolls : polls_of s c = polls chat).
  { unfold polls_of. fold c in Hc. rewrite Hc. reflexivity. }
  assert (Hhist : history_of s' c = history_of s c ++ [line]).
  { unfold history_of. rewrite Hs', polls_of_set, Hpolls. simpl polls.
    rewrite winners_app. simpl winner.
    destruct line; [contradiction | reflexivity]. }
  exists i, line. repeat split; try lia; try assumption.
  - rewrite Hhist, length_app. simpl. lia.
  - rewrite Hhist. apply last_last.
  - rewrite <- Hhist. unfold history_of, polls_of.
    rewrite Hs'. rewrite chat_get_set_same.
    rewrite (get_code_history_found _ _ _ (chat_get_set_same _ _ _)).
    reflexivity.
  - rewrite Hs', polls_of_set, Hpolls. reflexivity.
  - rewrite Hs', active_of_set. reflexivity.
Qed.

(** C5. After [close_poll] found the active poll of the chat with the given
    identifier, the history of the chat is the former history followed by
    the winning option (one line longer, the last line being that option),
    the archive of the chat is the former archive followed by a record of
    the options, the final votes, the winner index, the winner line and the
    closing time, and the chat has no active poll.  The winning option is
    the one at the index of an entry of the votes whose count no entry
    exceeds and which every entry of a lower index stays below. *)
Theorem close_poll_commits_winner (w : World) (chat_id : Z) (pid : pystr)
    (flag_stop : bool) (s : Store) (chat : Chat) (p : PollData) :
  chat_get s (str_of_Z chat_id) = Some chat ->
  active_poll chat = Some p ->
  poll_id p = pid ->
  poll_wf p ->
  let c := str_of_Z chat_id in
  let s' := store_of (close_poll w chat_id pid flag_stop s) in
  exists i m line,
    In (KInt i, m) (votes p) /\
    (forall j n, In (KInt j, n) (votes p) -> n <= m /\ (j < i -> n < m)) /\
    nth_error (options p) (Z.to_nat i) = Some line /\
    history_of s' c = history_of s c ++ [line] /\
    length (history_of s' c) = S (length (history_of s c)) /\
    last (history_of s' c) [] = line /\
    result_of (get_code_history c s') = Some (history_of s c ++ [line]) /\
    polls_of s' c =
      polls_of s c ++
      [{| r_poll_id := pid;
          r_options := options p;
          r_votes := votes p;
          winner := line;
          winner_index := KInt i;
          closed_at := now_isoformat w |}] /\
    active_of s' c = None.
Proof.
  intros Hc Ha Hid Hwf c s'.
  destruct (close_poll_commits w chat_id pid flag_stop s chat p Hc Ha Hid Hwf)
    as (i & line & Hi & Hnth & Hmax & Hrest).
  destruct (py_max_lowest_index (votes p) (proj1 Hwf))
    as (i' & Hi' & Hmax' & Hge & Hlt).
  rewrite Hmax in Hmax'. inversion Hmax'; subst i'.
  destruct (winner_on_entries p i Hwf Hi Hge Hlt) as (m & Hin & Hall).
  exists i, m, line.
  split; [exact Hin|]. split; [exact Hall|]. split; [exact Hnth|].
  exact Hrest.
Qed.

Lemma close_poll_commits_winner_witness :
  let s' := store_of (close_poll calm_world 7 (lit "poll-1") false lead_store) in
  history_of s' (str_of_Z 7) = [lit "c = 3"] /\
  active_of s' (str_of_Z 7) = None.
Proof.
  destruct (close_poll_commits_winner calm_world 7 (lit "poll-1") false
              lead_store {| polls := []; active_poll := Some lead_poll |}
              lead_poll)
    as (i & m & line & Hin & Hall & Hnth & Hhist & _ & _ & _ & _ & Hact).
  - reflexivity.
  - reflexivity.
  - reflexivity.
  - unfold poll_wf, lead_poll; simpl. repeat split.
    + repeat constructor; simpl; lia.
    + repeat constructor; discriminate.
  - split; [|exact Hact]. rewrite Hhist.
    assert (H2 : 2 <= m /\ (2 < i -> 2 < m))
      by (apply Hall; simpl; auto).
    assert (H0 : 1 <= m /\ (0 < i -> 1 < m))
      by (apply Hall; simpl; auto).
    simpl in Hin.
    destruct Hin as [E|[E|[E|[E|[]]]]]; inversion E; subst; try lia.
    simpl in Hnth. inversion Hnth. reflexivity.
Defined.

(** C4. A call of [close_poll] for an identifier that is not the one of the
    chat's active poll (the chat has none, or another one) leaves the store
    as it is, writes nothing, calls nothing and only logs a warning.  So
    when a poll is closed and [close_poll] is called again for it, the
    second call changes nothing: the two calls together archive one record,
    add one line to the history and announce one result. *)
Theorem close_poll_idempotent (w1 w2 : World) (chat_id : Z) (pid : pystr)
    (flag1 flag2 : bool) (s : Store) (chat : Chat) (p : PollData) :
  chat_get s (str_of_Z chat_id) = Some chat ->
  active_poll chat = Some p ->
  poll_id p = pid ->
  poll_wf p ->
  let c := str_of_Z chat_id in
  let r1 := close_poll w1 chat_id pid flag1 s in
  let r2 := close_poll w2 chat_id pid flag2 (store_of r1) in
  r2 = (Some false, store_of r1, [ELog Warning]) /\
  length (polls_of (store_of r2) c) = S (length (polls_of s c)) /\
  length (history_of (store_of r2) c) = S (length (history_of s c)) /\
  length (filter is_send_message (effects_of r1 ++ effects_of r2)) = 1%nat /\
  (forall w' flag' s' chat',
     chat_get s' c = Some chat' ->
     (forall q, active_poll chat' = Some q -> poll_id q <> pid) ->
     close_poll w' chat_id pid flag' s' = (Some false, s', [ELog Warning])).
Proof.
  intros Hc Ha Hid Hwf c r1 r2.
  destruct (close_poll_commits w1 chat_id pid flag1 s chat p
              Hc Ha Hid Hwf)
    as (i & line & _ & _ & _ & _ & Hlen & _ & _ & Hpolls & Hact).
  fold c in Hlen, Hpolls, Hact. fold r1 in Hlen, Hpolls, Hact.
  destruct (close_poll_wf w1 chat_id pid flag1 s chat p Hc Ha Hid Hwf)
    as (i' & line' & _ & _ & _ & _ & _ & Hrun).
  cbv zeta in Hrun. fold r1 in Hrun.
  assert (Hget : chat_get (store_of r1) c =
                 Some {| polls := polls chat ++
                           [poll_result_of w1 pid p (KInt i') line'];
                         active_poll := None |}).
  { rewrite Hrun. unfold store_of. simpl. apply chat_get_set_same. }
  assert (H2 : r2 = (Some false, store_of r1, [ELog Warning])).
  { unfold r2. apply (close_poll_stale w2 chat_id pid flag2 _ _ Hget).
    simpl. discriminate. }
  split; [exact H2|].
  assert (Hs2 : store_of r2 = store_of r1) by (rewrite H2; reflexivity).
  assert (He2 : effects_of r2 = [ELog Warning]) by (rewrite H2; reflexivity).
  rewrite Hs2, He2.
  split; [rewrite Hpolls, length_app; simpl; lia|].
  split; [exact Hlen|].
  split.
  - rewrite Hrun. unfold effects_of. simpl snd.
    destruct (stop_poll_ok w1), (send_message_ok w1), flag1; reflexivity.
  - intros w' flag' s' chat' Hc' Hq.
    apply (close_poll_stale w' chat_id pid flag' s' chat' Hc' Hq).
Qed.

Lemma close_poll_idempotent_witness :
  let r1 := close_poll calm_world 7 (lit "poll-1") false tie_store in
  close_poll calm_world 7 (lit "poll-1") false (store_of r1)
  = (Some false, store_of r1, [ELog Warning]).
Proof.
  destruct (close_poll_idempotent calm_world calm_world 7 (lit "poll-1")
              false false tie_store
              {| polls := []; active_poll := Some tie_poll |} tie_poll)
    as (H & _).
  - reflexivity.
  - reflexivity.
  - reflexivity.
  - unfold poll_wf, tie_poll; simpl. repeat split.
    + repeat constructor; simpl; lia.
    + repeat constructor; discriminate.
  - exact H.
Defined.

(** ** Votes *)

Lemma answer_scan_no_match (pid : pystr) (ids : list Z) (s : Store) :
  (forall k chat p, In (k, chat) s -> active_poll chat = Some p ->
                    poll_id p <> pid) ->
  answer_scan pid ids s = None.
Proof.
  induction s as [|[k chat] s IH]; intros H; simpl; [reflexivity|].
  assert (IH' : answer_scan pid ids s = None).
  { apply IH. intros k' c' p' Hin. apply (H k' c' p'). right. exact Hin. }
  destruct (active_poll chat) as [p|] eqn:Ha.
  - assert (Hne : pystr_eqb (poll_id p) pid = false).
    { apply pystr_eqb_neq. apply (H k chat p); [left; reflexivity | exact Ha]. }
    rewrite Hne, IH'. reflexivity.
  - rewrite IH'. reflexivity.
Qed.

(** C7. A poll answer whose poll identifier is not the one of any chat's
    active poll changes nothing: [poll_answer_handler] returns normally,
    leaves the store as it is and performs no effect (no write of the
    storage file, no log record, no error). *)
Theorem vote_for_unknown_poll_is_noop (pid : pystr) (option_ids : list Z)
    (s : Store) :
  (forall k chat p, In (k, chat) s -> active_poll chat = Some p ->
                    poll_id p <> pid) ->
  poll_answer_handler pid option_ids s = (Some tt, s, []).
Proof.
  intros H. unfold poll_answer_handler, try_except.
  rewrite (answer_scan_no_match pid option_ids s H). reflexivity.
Qed.

Lemma vote_for_unknown_poll_is_noop_witness :
  poll_answer_handler (lit "poll-0") [2] tie_store = (Some tt, tie_store, []).
Proof.
  apply (vote_for_unknown_poll_is_noop (lit "poll-0") [2] tie_store).
  intros k chat p [Hin|[]] Ha. inversion Hin; subst. simpl in Ha.
  inversion Ha; subst. simpl. discriminate.
Defined.

Lemma count_vote_keys (vs : list (key * Z)) (o : Z) :
  map fst (count_vote vs o) = map fst vs.
Proof.
  unfold count_vote. destruct (od_get key_eqb vs (KInt o)) eqn:E;
    [|reflexivity].
  apply (od_set_keys_present _ _ key_eqb key_eqb_eq).
  apply (od_get_In _ _ key_eqb key_eqb_eq) in E.
  apply (in_map fst) in E. exact E.
Qed.

Lemma count_votes_keys (ids : list Z) (vs : list (key * Z)) :
  map fst (count_votes vs ids) = map fst vs.
Proof.
  revert vs; induction ids as [|o ids IH]; intros vs; simpl; [reflexivity|].
  unfold count_votes in *. simpl. rewrite IH. apply count_vote_keys.
Qed.

Lemma count_vote_nonneg (vs : list (key * Z)) (o : Z) :
  Forall (fun kv => 0 <= snd kv) vs ->
  Forall (fun kv => 0 <= snd kv) (count_vote vs o).
Proof.
  intros H. unfold count_vote.
  destruct (od_get key_eqb vs (KInt o)) as [n|] eqn:E; [|exact H].
  apply od_set_Forall; [exact H|].
  intros k'. simpl.
  apply (od_get_In _ _ key_eqb key_eqb_eq) in E.
  rewrite Forall_forall in H. specialize (H _ E). simpl in H. lia.
Qed.

Lemma count_votes_nonneg (ids : list Z) (vs : list (key * Z)) :
  Forall (fun kv => 0 <= snd kv) vs ->
  Forall (fun kv => 0 <= snd kv) (count_votes vs ids).
Proof.
  revert vs; induction ids as [|o ids IH]; intros vs H; simpl; [exact H|].
  unfold count_votes in *. simpl. apply IH, count_vote_nonneg, H.
Qed.

(** One answer adds one to the count of the option it names, when the
    option is a key, and changes no other count. *)
Lemma count_vote_get (vs : list (key * Z)) (o : Z) (k : key) :
  votes_get (count_vote vs o) k =
  votes_get vs k +
  (if key_eqb (KInt o) k && od_mem key_eqb vs (KInt o) then 1 else 0).
Proof.
  unfold count_vote, od_mem, votes_get.
  destruct (od_get key_eqb vs (KInt o)) as [n|] eqn:E.
  - destruct (key_eqb (KInt o) k) eqn:Ek.
    + apply key_eqb_eq in Ek. subst k.
      rewrite (od_get_set_same _ _ key_eqb key_eqb_eq), E. reflexivity.
    + rewrite (od_get_set_other _ _ key_eqb key_eqb_eq).
      * simpl. lia.
      * intros Heq. subst k. rewrite key_eqb_refl in Ek. discriminate.
  - rewrite andb_false_r. lia.
Qed.

Lemma count_votes_get (ids : list Z) (vs : list (key * Z)) (i : Z) :
  od_mem key_eqb vs (KInt i) = true ->
  votes_get (count_votes vs ids) (KInt i) =
  votes_get vs (KInt i) + Z.of_nat (count_occ Z.eq_dec ids i).
Proof.
  revert vs; induction ids as [|o ids IH]; intros vs Hi.
  - simpl. lia.
  - unfold count_votes in *. simpl fold_left. rewrite IH.
    + rewrite count_vote_get. simpl count_occ.
      destruct (Z.eq_dec o i) as [->|Hne].
      * simpl key_eqb. rewrite Z.eqb_refl, Hi. simpl. lia.
      * simpl key_eqb.
        replace (o =? i) with false by (symmetry; apply Z.eqb_neq; exact Hne).
        simpl. lia.
    + unfold od_mem in *.
      destruct (od_get key_eqb vs (KInt i)) eqn:E; [|discriminate].
      assert (Hin : In (KInt i) (map fst (count_vote vs o))).
      { rewrite count_vote_keys.
        apply (od_get_In _ _ key_eqb key_eqb_eq) in E.
        apply (in_map fst) in E. exact E. }
      destruct (od_get key_eqb (count_vote vs o) (KInt i)) eqn:E';
        [reflexivity|].
      apply (od_get_None _ _ key_eqb key_eqb_eq) in E'. contradiction.
Qed.

Lemma answer_scan_first (pid : pystr) (ids : list Z)
    (pre : Store) (k : pystr) (chat : Chat) (p : PollData) (post : Store) :
  (forall k' c' q, In (k', c') pre -> active_poll c' = Some q ->
                   poll_id q <> pid) ->
  active_poll chat = Some p ->
  poll_id p = pid ->
  answer_scan pid ids (pre ++ (k, chat) :: post) =
  Some (pre ++
        (k, {| polls := polls chat;
               active_poll := Some
                 {| poll_id := poll_id p;
                    message_id := message_id p;
                    options := options p;
                    votes := count_votes (votes p) ids;
                    close_time := close_time p;
                    created_at := created_at p |} |}) :: post).
Proof.
  intros Hpre Ha Hid.
  induction pre as [|[k0 c0] pre IH]; simpl.
  - rewrite Ha, Hid, pystr_eqb_refl. reflexivity.
  - assert (IH' := IH (fun k' c' q Hin => Hpre k' c' q (or_intror Hin))).
    destruct (active_poll c0) as [q|] eqn:Ha0.
    + assert (Hne : pystr_eqb (poll_id q) pid = false).
      { apply pystr_eqb_neq. apply (Hpre k0 c0 q); [left; reflexivity|exact Ha0]. }
      rewrite Hne, IH'. reflexivity.
    + rewrite IH'. reflexivity.
Qed.

Lemma poll_wf_mem (p : PollData) (i : Z) :
  poll_wf p -> 0 <= i < 4 -> od_mem key_eqb (votes p) (KInt i) = true.
Proof.
  intros Hwf Hi. unfold od_mem. rewrite (poll_wf_vote p i Hwf Hi). reflexivity.
Qed.

Lemma poll_wf_with_votes (p : PollData) (ids : list Z) :
  poll_wf p -> poll_wf (with_votes p (count_votes (votes p) ids)).
Proof.
  intros (Hk & Hv & Hl & Hn). unfold poll_wf, with_votes; simpl.
  repeat split; try assumption.
  - rewrite count_votes_keys. exact Hk.
  - apply count_votes_nonneg. exact Hv.
Qed.

(** C8. A poll answer for the active poll of a chat (the first chat of the
    store whose active poll has the identifier) leaves the lifecycle as it
    is: the chat keeps its archive and its active poll, with the same
    identifier, message, options and times, and every other chat is
    untouched.  Only the votes change: the keys stay 0, 1, 2, 3, no value is
    negative, no count decreases, and the count of each index grows by the
    number of times the answer names it, that is by one for a named index
    and by nothing for the others when the answer names no index twice. *)
Theorem vote_only_increments (pid : pystr) (option_ids : list Z)
    (pre : Store) (k : pystr) (chat : Chat) (p : PollData) (post : Store) :
  (forall k' c' q, In (k', c') pre -> active_poll c' = Some q ->
                   poll_id q <> pid) ->
  active_poll chat = Some p ->
  poll_id p = pid ->
  poll_wf p ->
  let s := pre ++ (k, chat) :: post in
  let vs' := count_votes (votes p) option_ids in
  let s' := pre ++ (k, {| polls := polls chat;
                          active_poll := Some (with_votes p vs') |}) :: post in
  poll_answer_handler pid option_ids s = (Some tt, s', [ESave s'; ELog Info]) /\
  map fst vs' = [KInt 0; KInt 1; KInt 2; KInt 3] /\
  Forall (fun kv => 0 <= snd kv) vs' /\
  (forall i, 0 <= i < 4 ->
     votes_get vs' (KInt i) =
     votes_get (votes p) (KInt i) + Z.of_nat (count_occ Z.eq_dec option_ids i)) /\
  (forall i, 0 <= i < 4 ->
     votes_get (votes p) (KInt i) <= votes_get vs' (KInt i)) /\
  (NoDup option_ids ->
   forall i, 0 <= i < 4 ->
     votes_get vs' (KInt i) =
     votes_get (votes p) (KInt i) +
     (if in_dec Z.eq_dec i option_ids then 1 else 0)).
Proof.
  intros Hpre Ha Hid Hwf s vs' s'.
  assert (Hcount : forall i, 0 <= i < 4 ->
     votes_get vs' (KInt i) =
     votes_get (votes p) (KInt i) + Z.of_nat (count_occ Z.eq_dec option_ids i)).
  { intros i Hi. apply count_votes_get. apply poll_wf_mem; assumption. }
  destruct (poll_wf_with_votes p option_ids Hwf) as (Hk & Hv & _).
  repeat split.
  - unfold poll_answer_handler, try_except, s.
    rewrite (answer_scan_first pid option_ids pre k chat p post Hpre Ha Hid).
    reflexivity.
  - exact Hk.
  - exact Hv.
  - exact Hcount.
  - intros i Hi. rewrite (Hcount i Hi). lia.
  - intros Hnd i Hi. rewrite (Hcount i Hi).
    destruct (in_dec Z.eq_dec i option_ids) as [Hin|Hnin].
    + rewrite (proj1 (NoDup_count_occ' Z.eq_dec option_ids) Hnd i Hin).
      reflexivity.
    + rewrite (proj1 (count_occ_not_In Z.eq_dec option_ids i) Hnin).
      reflexivity.
Qed.

Lemma vote_only_increments_witness :
  poll_answer_handler (lit "poll-1") [1] tie_store =
  (Some tt,
   [(str_of_Z 7,
     {| polls := [];
        active_poll := Some
          (with_votes tie_poll [(KInt 0, 3); (KInt 1, 4); (KInt 2, 1);
                                (KInt 3, 0)]) |})],
   [ESave
      [(str_of_Z 7,
        {| polls := [];
           active_poll := Some
             (with_votes tie_poll [(KInt 0, 3); (KInt 1, 4); (KInt 2, 1);
                                   (KInt 3, 0)]) |})];
    ELog Info]).
Proof.
  destruct (vote_only_increments (lit "poll-1") [1] [] (str_of_Z 7)
              {| polls := []; active_poll := Some tie_poll |} tie_poll [])
    as (H & _).
  - intros k' c' q [].
  - reflexivity.
  - reflexivity.
  - unfold poll_wf, tie_poll; simpl. repeat split.
    + repeat constructor; simpl; lia.
    + repeat constructor; discriminate.
  - exact H.
Defined.

(** ** The history is read from the archive *)

Lemma get_code_history_result (c : pystr) (s : Store) :
  result_of (get_code_history c s) = Some (history_of s c).
Proof.
  unfold history_of, polls_of.
  destruct (chat_get s c) as [ch|] eqn:E.
  - rewrite (get_code_history_found s c ch E). reflexivity.
  - unfold get_code_history.
    erewrite bind_ok;
      [ | apply get_chat_missing; exact E | reflexivity | reflexivity ].
    reflexivity.
Qed.

Lemma add_poll_polls (c : pystr) (r : PollResult) (s : Store) :
  polls_of (store_of (add_poll c r s)) c = polls_of s c ++ [r].
Proof.
  unfold polls_of at 2.
  destruct (chat_get s c) as [ch|] eqn:E.
  - rewrite (add_poll_found s c ch r E). unfold store_of. simpl.
    apply polls_of_set.
  - unfold add_poll.
    erewrite bind_ok;
      [ | apply get_chat_missing; exact E | reflexivity | reflexivity ].
    unfold store_of. simpl. apply polls_of_set.
Qed.

(** C10. The lines of a chat are not kept on their own: [get_code_history]
    returns the [winner] fields of the archived polls of the chat, in order,
    leaving out the empty ones.  So after [clear_chat] the history is empty,
    and archiving a record puts its winner at the end of the history when
    the winner is not empty and leaves the history as it is when the winner
    is empty. *)
Theorem history_is_derived_from_archive :
  (forall c s,
     result_of (get_code_history c s) =
     Some (map winner
             (filter (fun r => match winner r with
                               | [] => false
                               | _ :: _ => true
                               end) (polls_of s c)))) /\
  (forall c s,
     polls_of (store_of (clear_chat c s)) c = [] /\
     result_of (get_code_history c (store_of (clear_chat c s))) = Some []) /\
  (forall c r s h,
     result_of (get_code_history c s) = Some h ->
     winner r <> [] ->
     result_of (get_code_history c (store_of (add_poll c r s))) =
     Some (h ++ [winner r])) /\
  (forall c r s h,
     result_of (get_code_history c s) = Some h ->
     winner r = [] ->
     result_of (get_code_history c (store_of (add_poll c r s))) = Some h).
Proof.
  split; [|split; [|split]].
  - intros c s. rewrite get_code_history_result. unfold history_of, winners.
    do 2 f_equal. apply filter_ext. intros r.
    destruct (winner r); reflexivity.
  - intros c s. split; [apply polls_of_set|].
    rewrite get_code_history_result. unfold history_of.
    unfold clear_chat, save, store_of. simpl. rewrite polls_of_set.
    reflexivity.
  - intros c r s h Hh Hr. rewrite get_code_history_result in *.
    inversion Hh; subst h. unfold history_of.
    rewrite add_poll_polls, winners_app.
    destruct (winner r); [contradiction | reflexivity].
  - intros c r s h Hh Hr. rewrite get_code_history_result in *.
    inversion Hh; subst h. unfold history_of.
    rewrite add_poll_polls, winners_app, Hr. simpl. rewrite app_nil_r.
    reflexivity.
Qed.

Lemma history_is_derived_from_archive_witness :
  result_of
    (get_code_history (str_of_Z 7)
       (store_of (add_poll (str_of_Z 7)
                    (poll_result_of calm_world (lit "poll-1") tie_poll (KInt 0)
                       (lit "a = 1"))
                    tie_store))) = Some [lit "a = 1"] /\
  result_of
    (get_code_history (str_of_Z 7)
       (store_of (add_poll (str_of_Z 7)
                    (poll_result_of calm_world (lit "poll-1") tie_poll (KInt 0)
                       [])
                    tie_store))) = Some [].
Proof.
  destruct history_is_derived_from_archive as (_ & _ & Hadd & Hskip).
  split.
  - apply (Hadd (str_of_Z 7)
             (poll_result_of calm_world (lit "poll-1") tie_poll (KInt 0)
                (lit "a = 1")) tie_store []).
    + reflexivity.
    + discriminate.
  - apply (Hskip (str_of_Z 7)
             (poll_result_of calm_world (lit "poll-1") tie_poll (KInt 0) [])
             tie_store []); reflexivity.
Defined.

(** ** Opening a poll *)

Lemma send_poll_found (T : Z) (w : World) (chat_id : Z) (s : Store)
    (ch : Chat) (pid : pystr) (mid : Z) :
  chat_get s (str_of_Z chat_id) = Some ch ->
  send_poll_result w = Some (pid, mid) ->
  let hist := winners (polls ch) in
  let s' := chat_set s (str_of_Z chat_id)
              {| polls := polls ch;
                 active_poll := Some (new_poll T w pid mid hist) |} in
  send_poll T w chat_id s =
  (Some tt, s',
   [ELog Info;
    ESendPoll chat_id (length hist + 1)
      (generate_code_options (llm_response w) hist);
    ESave s'; ELog Info; ERunOnce T chat_id pid]).
Proof.
  intros Hc Hr hist s'.
  pose proof (get_code_history_found s _ ch Hc) as Hh.
  pose proof (set_active_poll_found s _ ch
                (Some (new_poll T w pid mid hist)) Hc) as Hset.
  cbv zeta in Hset. fold s' in Hset.
  unfold send_poll, bot_send_poll.
  meval ltac:(try rewrite Hr).
Qed.

Lemma send_poll_failed (T : Z) (w : World) (chat_id : Z) (s : Store)
    (ch : Chat) :
  chat_get s (str_of_Z chat_id) = Some ch ->
  send_poll_result w = None ->
  let hist := winners (polls ch) in
  send_poll T w chat_id s =
  (Some tt, s,
   [ELog Info;
    ESendPoll chat_id (length hist + 1)
      (generate_code_options (llm_response w) hist);
    ELog Error]).
Proof.
  intros Hc Hr hist.
  pose proof (get_code_history_found s _ ch Hc) as Hh.
  unfold send_poll, bot_send_poll.
  meval ltac:(try rewrite Hr).
Qed.

Lemma close_poll_resume_busy (T : Z) (w : World) (chat_id : Z) (s : Store)
    (ch : Chat) (q : PollData) :
  chat_get s (str_of_Z chat_id) = Some ch ->
  active_poll ch = Some q ->
  close_poll_resume T w chat_id s = (Some tt, s, []).
Proof.
  intros Hc Ha. unfold close_poll_resume.
  meval ltac:(try rewrite Ha).
Qed.

Lemma close_poll_resume_idle (T : Z) (w : World) (chat_id : Z) (s : Store)
    (ch : Chat) :
  chat_get s (str_of_Z chat_id) = Some ch ->
  active_poll ch = None ->
  close_poll_resume T w chat_id s = send_poll T w chat_id s.
Proof.
  intros Hc Ha.
  destruct (send_poll_result w) as [[pid mid]|] eqn:Hr.
  - pose proof (send_poll_found T w chat_id s ch pid mid Hc Hr) as Hs.
    cbv zeta in Hs. rewrite Hs. unfold close_poll_resume.
    meval ltac:(try rewrite Ha).
  - pose proof (send_poll_failed T w chat_id s ch Hc Hr) as Hs.
    cbv zeta in Hs. rewrite Hs. unfold close_poll_resume.
    meval ltac:(try rewrite Ha).
Qed.

(** The chain of polls when the announcement is delivered.  Let
    [close_poll] close the active poll of a chat.  Called with the stop
    flag it returns without sleeping, and neither call sends a poll before
    the delay.  Called without the flag, once [bot.send_message] returned
    it sleeps 5 seconds as its last step before going on.  After the delay
    it reads the chat again: when the chat has an active poll, it does
    nothing; when the chat has none, it runs [send_poll], which asks
    Telegram for a new poll and, when Telegram accepts it, makes it the
    active poll of the chat. *)
Lemma chain_after_announced_close (T : Z) (w w' : World) (chat_id : Z)
    (pid : pystr) (s : Store) (chat : Chat) (p : PollData) :
  chat_get s (str_of_Z chat_id) = Some chat ->
  active_poll chat = Some p ->
  poll_id p = pid ->
  poll_wf p ->
  let c := str_of_Z chat_id in
  (result_of (close_poll w chat_id pid true s) = Some false /\
   ~ In (ESleep 5) (effects_of (close_poll w chat_id pid true s))) /\
  (forall flag,
     filter is_send_poll (effects_of (close_poll w chat_id pid flag s)) = []) /\
  (send_message_ok w = true ->
   result_of (close_poll w chat_id pid false s) = Some true /\
   exists es, effects_of (close_poll w chat_id pid false s) = es ++ [ESleep 5]
              /\ ~ In (ESleep 5) es) /\
  (forall s1 ch1 q,
     chat_get s1 c = Some ch1 -> active_poll ch1 = Some q ->
     close_poll_resume T w' chat_id s1 = (Some tt, s1, [])) /\
  (forall s1 ch1,
     chat_get s1 c = Some ch1 -> active_poll ch1 = None ->
     close_poll_resume T w' chat_id s1 = send_poll T w' chat_id s1 /\
     In (ESendPoll chat_id (length (history_of s1 c) + 1)
           (generate_code_options (llm_response w') (history_of s1 c)))
        (effects_of (close_poll_resume T w' chat_id s1)) /\
     forall pid' mid',
       send_poll_result w' = Some (pid', mid') ->
       active_of (store_of (close_poll_resume T w' chat_id s1)) c =
       Some (new_poll T w' pid' mid' (history_of s1 c))).
Proof.
  intros Hc Ha Hid Hwf c.
  assert (Hrun : forall flag,
    exists line n s1 s2,
      close_poll w chat_id pid flag s =
      (Some (send_message_ok w && negb flag), s2,
       EStopPoll chat_id (message_id p)
       :: (if stop_poll_ok w then [] else [ELog Error])
       ++ [ESave s1; ESave s2; ESendMessage chat_id line n]
       ++ (if send_message_ok w
           then ELog Info :: (if flag then [] else [ESleep 5])
           else [ELog Error]))).
  { intros flag.
    destruct (close_poll_wf w chat_id pid flag s chat p Hc Ha Hid Hwf)
      as (i & line & _ & _ & _ & _ & _ & H).
    cbv zeta in H. eauto. }
  split; [|split; [|split; [|split]]].
  - destruct (Hrun true) as (line & n & s1 & s2 & H). rewrite H.
    unfold result_of, effects_of; simpl fst; simpl snd.
    split; [rewrite andb_false_r; reflexivity|].
    destruct (stop_poll_ok w), (send_message_ok w); simpl;
      intuition discriminate.
  - intros flag. destruct (Hrun flag) as (line & n & s1 & s2 & H). rewrite H.
    unfold effects_of; simpl snd.
    destruct (stop_poll_ok w), (send_message_ok w), flag; reflexivity.
  - intros Hok. destruct (Hrun false) as (line & n & s1 & s2 & H). rewrite H.
    unfold result_of, effects_of; simpl fst; simpl snd. rewrite Hok.
    split; [reflexivity|].
    exists (EStopPoll chat_id (message_id p)
            :: (if stop_poll_ok w then [] else [ELog Error])
            ++ [ESave s1; ESave s2; ESendMessage chat_id line n; ELog Info]).
    split.
    + destruct (stop_poll_ok w); reflexivity.
    + destruct (stop_poll_ok w); simpl; intuition discriminate.
  - intros s1 ch1 q Hc1 Ha1.
    apply (close_poll_resume_busy T w' chat_id s1 ch1 q Hc1 Ha1).
  - intros s1 ch1 Hc1 Ha1.
    pose proof (close_poll_resume_idle T w' chat_id s1 ch1 Hc1 Ha1) as Hres.
    assert (Hhist : history_of s1 c = winners (polls ch1)).
    { unfold history_of, polls_of. rewrite Hc1. reflexivity. }
    split; [exact Hres|]. rewrite Hres, Hhist. split.
    + destruct (send_poll_result w') as [[pid' mid']|] eqn:Hr.
      * pose proof (send_poll_found T w' chat_id s1 ch1 pid' mid' Hc1 Hr) as H.
        cbv zeta in H. rewrite H. unfold effects_of. simpl. auto.
      * pose proof (send_poll_failed T w' chat_id s1 ch1 Hc1 Hr) as H.
        cbv zeta in H. rewrite H. unfold effects_of. simpl. auto.
    + intros pid' mid' Hr.
      pose proof (send_poll_found T w' chat_id s1 ch1 pid' mid' Hc1 Hr) as H.
      cbv zeta in H. rewrite H. unfold store_of. simpl fst. simpl snd.
      apply active_of_set.
Qed.

(** ** A program logic for the invariants *)

Lemma last_saved_app (s : Store) (e1 e2 : list effect) :
  last_saved s (e1 ++ e2) = last_saved (last_saved s e1) e2.
Proof.
  revert s; induction e1 as [|e e1 IH]; intros s; simpl; [reflexivity|].
  destruct e; apply IH.
Qed.

Lemma opens_when_idle_app (s : Store) (e1 e2 : list effect) :
  opens_when_idle s (e1 ++ e2) <->
  opens_when_idle s e1 /\ opens_when_idle (last_saved s e1) e2.
Proof.
  revert s; induction e1 as [|e e1 IH]; intros s; simpl; [tauto|].
  destruct e; try apply IH.
  rewrite IH. tauto.
Qed.

Lemma quiet_last_saved (s : Store) (es : list effect) :
  forallb quiet es = true -> last_saved s es = s.
Proof.
  induction es as [|e es IH]; simpl; [reflexivity|].
  intros H. apply andb_true_iff in H. destruct H as [He Hes].
  destruct e; try discriminate; apply IH; exact Hes.
Qed.

Lemma quiet_opens_when_idle (s : Store) (es : list effect) :
  forallb quiet es = true -> opens_when_idle s es.
Proof.
  induction es as [|e es IH]; simpl; [trivial|].
  intros H. apply andb_true_iff in H. destruct H as [He Hes].
  destruct e; try discriminate; apply IH; exact Hes.
Qed.

Section Logic.
(** The property every active poll is to keep. *)
Variable W : PollData -> Prop.

Lemma triple_conseq {A} (P P' : Store -> Prop) (m : M A)
    (Q Q' : option A -> Store -> Prop) :
  (forall s, P' s -> P s) -> triple W P m Q ->
  (forall r s, Q r s -> Q' r s) -> triple W P' m Q'.
Proof.
  intros HP Hm HQ s Hwf Hs. specialize (Hm s Hwf (HP s Hs)).
  destruct (m s) as [[r s'] es]. intuition.
Qed.

Lemma triple_bind {A B} (P : Store -> Prop) (m : M A) (f : A -> M B)
    (Q : option A -> Store -> Prop) (R : option B -> Store -> Prop) :
  triple W P m Q ->
  (forall a, triple W (Q (Some a)) (f a) R) ->
  (forall s, Q None s -> R None s) ->
  triple W P (bind m f) R.
Proof.
  intros Hm Hf Hn s Hwf Hs. unfold bind.
  specialize (Hm s Hwf Hs). destruct (m s) as [[[a|] s1] e1].
  - destruct Hm as (Hwf1 & Hl1 & Ho1 & HQ).
    specialize (Hf a s1 Hwf1 HQ). destruct (f a s1) as [[r s2] e2].
    destruct Hf as (Hwf2 & Hl2 & Ho2 & HR).
    cbv beta iota. split; [exact Hwf2 | split; [ | split; [ | exact HR]]].
    + rewrite last_saved_app, Hl1. exact Hl2.
    + apply opens_when_idle_app. rewrite Hl1. split; assumption.
  - destruct Hm as (Hwf1 & Hl1 & Ho1 & HQ). auto.
Qed.

Lemma triple_try {A} (P : Store -> Prop) (body handler : M A)
    (Q R : option A -> Store -> Prop) :
  triple W P body Q ->
  triple W (Q None) handler R ->
  (forall a s, Q (Some a) s -> R (Some a) s) ->
  triple W P (try_except body handler) R.
Proof.
  intros Hb Hh Hok s Hwf Hs. unfold try_except.
  specialize (Hb s Hwf Hs). destruct (body s) as [[[a|] s1] e1].
  - destruct Hb as (Hwf1 & Hl1 & Ho1 & HQ). auto.
  - destruct Hb as (Hwf1 & Hl1 & Ho1 & HQ).
    specialize (Hh s1 Hwf1 HQ). destruct (handler s1) as [[r s2] e2].
    destruct Hh as (Hwf2 & Hl2 & Ho2 & HR).
    cbv beta iota. split; [exact Hwf2 | split; [ | split; [ | exact HR]]].
    + rewrite last_saved_app, Hl1. exact Hl2.
    + apply opens_when_idle_app. rewrite Hl1. split; assumption.
Qed.

(** A benign computation keeps every property of the store. *)
Lemma triple_benign {A} (P : Store -> Prop) (m : M A) :
  benign m -> triple W P m (fun _ s => P s).
Proof.
  intros Hm s Hwf Hs. specialize (Hm s). destruct (m s) as [[r s'] es].
  destruct Hm as [-> Hq].
  split; [exact Hwf | split; [ | split; [ | exact Hs]]].
  - apply quiet_last_saved; exact Hq.
  - apply quiet_opens_when_idle; exact Hq.
Qed.

Lemma benign_ret {A} (a : A) : benign (ret a).
Proof. intros s. simpl. auto. Qed.

Lemma benign_raise {A} : benign (@raise A).
Proof. intros s. simpl. auto. Qed.

Lemma benign_orraise {A} (o : option A) : benign (orraise o).
Proof. destruct o; [apply benign_ret | apply benign_raise]. Qed.

Lemma benign_emit (e : effect) : quiet e = true -> benign (emit e).
Proof. intros He s. simpl. rewrite He. auto. Qed.

Lemma benign_log (lvl : level) : benign (log lvl).
Proof. apply benign_emit. reflexivity. Qed.

Lemma benign_bind {A B} (m : M A) (f : A -> M B) :
  benign m -> (forall a, benign (f a)) -> benign (bind m f).
Proof.
  intros Hm Hf s. unfold bind. specialize (Hm s).
  destruct (m s) as [[[a|] s1] e1]; [|exact Hm].
  destruct Hm as [-> H1]. specialize (Hf a s).
  destruct (f a s) as [[r s2] e2]. destruct Hf as [-> H2].
  split; [reflexivity|]. rewrite forallb_app, H1, H2. reflexivity.
Qed.

Lemma benign_try {A} (body handler : M A) :
  benign body -> benign handler -> benign (try_except body handler).
Proof.
  intros Hb Hh s. unfold try_except. specialize (Hb s).
  destruct (body s) as [[[a|] s1] e1]; [exact Hb|].
  destruct Hb as [-> H1]. specialize (Hh s).
  destruct (handler s) as [[r s2] e2]. destruct Hh as [-> H2].
  split; [reflexivity|]. rewrite forallb_app, H1, H2. reflexivity.
Qed.

Lemma benign_if {A} (b : bool) (m1 m2 : M A) :
  benign m1 -> benign m2 -> benign (if b then m1 else m2).
Proof. destruct b; auto. Qed.

Lemma benign_reply_text (w : World) (r : reply) : benign (reply_text w r).
Proof.
  unfold reply_text. apply benign_bind; [apply benign_emit; reflexivity|].
  intros _. apply benign_if; [apply benign_ret | apply benign_raise].
Qed.

Lemma benign_on_error (w : World) : benign (on_error w).
Proof.
  unfold on_error. apply benign_bind; [apply benign_log|].
  intros _. apply benign_reply_text.
Qed.

Lemma benign_check_admin (admins : list Z) (w : World) (u : Z) :
  benign (check_admin admins w u).
Proof.
  unfold check_admin. apply benign_if; [apply benign_ret|].
  apply benign_bind; [apply benign_reply_text | intros _; apply benign_ret].
Qed.

Lemma benign_bot_stop_poll (w : World) (c m : Z) : benign (bot_stop_poll w c m).
Proof.
  unfold bot_stop_poll. apply benign_try; [|apply benign_log].
  apply benign_bind; [apply benign_emit; reflexivity|].
  intros _. apply benign_if; [apply benign_ret | apply benign_raise].
Qed.

Lemma benign_bot_send_message (w : World) (c : Z) (l : pystr) (n : Z) :
  benign (bot_send_message w c l n).
Proof.
  unfold bot_send_message. apply benign_bind; [apply benign_emit; reflexivity|].
  intros _. apply benign_if; [apply benign_ret | apply benign_raise].
Qed.

Hypothesis W_new :
  forall T w pid mid hist, W (new_poll T w pid mid hist).
Hypothesis W_votes :
  forall p ids, W p -> W (with_votes p (count_votes (votes p) ids)).

Lemma store_inv_set (s : Store) (c : pystr) (ch : Chat) :
  store_inv W s -> (forall p, active_poll ch = Some p -> W p) ->
  store_inv W (chat_set s c ch).
Proof.
  intros [Hnd Hall] Hch. split.
  - apply od_set_NoDup; [apply pystr_eqb_eq | exact Hnd].
  - apply od_set_Forall; [exact Hall | intros k'; exact Hch].
Qed.

Lemma store_inv_get (s : Store) (c : pystr) (ch : Chat) (p : PollData) :
  store_inv W s -> chat_get s c = Some ch -> active_poll ch = Some p -> W p.
Proof.
  intros [_ Hall] Hc Ha.
  apply (od_get_In _ _ pystr_eqb pystr_eqb_eq) in Hc.
  rewrite Forall_forall in Hall. apply (Hall _ Hc). exact Ha.
Qed.

Lemma active_of_set_other (s : Store) (c c' : pystr) (ch : Chat) :
  c <> c' -> active_of (chat_set s c ch) c' = active_of s c'.
Proof.
  intros H. unfold active_of. rewrite chat_get_set_other by exact H.
  reflexivity.
Qed.

Lemma active_of_new_chat (s : Store) (c c' : pystr) :
  chat_get s c = None ->
  active_of (chat_set s c new_chat) c' = active_of s c'.
Proof.
  intros Hc. destruct (pystr_eqb c c') eqn:E.
  - apply pystr_eqb_eq in E. subst c'. rewrite active_of_set.
    unfold active_of. rewrite Hc. reflexivity.
  - apply pystr_eqb_neq in E. apply active_of_set_other. exact E.
Qed.

(** [get_chat] returns the entry of the chat, which it creates empty when
    it is missing, and changes the active poll of no chat. *)
Lemma triple_get_chat (c c0 : pystr) (v : option PollData) :
  triple W (fun s => active_of s c0 = v) (get_chat c)
    (fun r s => (exists ch, r = Some ch /\ chat_get s c = Some ch) /\
                active_of s c0 = v).
Proof.
  intros s Hinv Hv. unfold get_chat.
  destruct (chat_get s c) as [ch|] eqn:Hc.
  - simpl. repeat split; try apply Hinv; eauto.
  - simpl. split; [|split; [reflexivity | split; [trivial|]]].
    + apply store_inv_set; [exact Hinv | discriminate].
    + split.
      * exists new_chat. split; [reflexivity | apply chat_get_set_same].
      * rewrite active_of_new_chat by exact Hc. exact Hv.
Qed.

(** Writing an entry and saving. *)
Lemma triple_store_chat (c : pystr) (ch : Chat) (P : Store -> Prop) :
  (forall s, store_inv W s -> P s -> forall p, active_poll ch = Some p -> W p) ->
  triple W P (fun s => save (chat_set s c ch))
    (fun r s => r = Some tt /\ active_of s c = active_poll ch).
Proof.
  intros Hch s Hinv Hs. simpl.
  split; [apply store_inv_set; [exact Hinv | exact (Hch s Hinv Hs)]|].
  split; [reflexivity|]. split; [trivial|].
  split; [reflexivity | apply active_of_set].
Qed.

Lemma triple_clear_chat (c : pystr) :
  triple W (fun _ => True) (clear_chat c)
    (fun r s => active_of s c = None).
Proof.
  unfold clear_chat.
  apply (triple_conseq (fun _ => True) _ _
           (fun r s => r = Some tt /\ active_of s c = active_poll new_chat)).
  - trivial.
  - apply triple_store_chat. discriminate.
  - intros r s [_ H]. exact H.
Qed.

Lemma triple_add_poll (c : pystr) (r : PollResult) :
  triple W (fun _ => True) (add_poll c r) (fun _ _ => True).
Proof.
  intros s Hinv _. unfold add_poll, bind, get_chat, save.
  destruct (chat_get s c) as [ch|] eqn:Hc; simpl.
  - split; [|auto]. apply store_inv_set; [exact Hinv|].
    simpl. intros p Hp. apply (store_inv_get s c ch p Hinv Hc Hp).
  - split; [|auto]. apply store_inv_set; [|discriminate].
    apply store_inv_set; [exact Hinv | discriminate].
Qed.

Lemma triple_set_active_poll (c : pystr) (o : option PollData) :
  (forall p, o = Some p -> W p) ->
  triple W (fun _ => True) (set_active_poll c o)
    (fun r s => active_of s c = o).
Proof.
  intros Ho s Hinv _. unfold set_active_poll, bind, get_chat, save.
  destruct (chat_get s c) as [ch|] eqn:Hc; simpl.
  - split; [apply store_inv_set; [exact Hinv | exact Ho]|].
    split; [reflexivity|]. split; [trivial|]. apply active_of_set.
  - split; [apply store_inv_set; [|exact Ho];
            apply store_inv_set; [exact Hinv | discriminate]|].
    split; [reflexivity|]. split; [trivial|]. apply active_of_set.
Qed.

(** Sequencing when the postcondition of the first part does not depend
    on its result. *)
Lemma triple_seq {A B} (P Q : Store -> Prop) (m : M A) (f : A -> M B)
    (R : option B -> Store -> Prop) :
  triple W P m (fun _ s => Q s) ->
  (forall a, triple W Q (f a) R) ->
  (forall s, Q s -> R None s) ->
  triple W P (bind m f) R.
Proof. intros Hm Hf Hn. apply (triple_bind P m f (fun _ s => Q s) R); auto. Qed.

Lemma triple_weaken {A} (P P' : Store -> Prop) (m : M A)
    (Q : option A -> Store -> Prop) :
  triple W P m Q -> (forall s, P' s -> P s) ->
  triple W P' m (fun _ _ => True).
Proof.
  intros Hm HP. apply (triple_conseq P P' m Q); auto.
Qed.

Lemma triple_get_chat_idle (c c0 : pystr) (v : option PollData) :
  triple W (fun s => active_of s c0 = v) (get_chat c)
    (fun _ s => active_of s c0 = v).
Proof.
  apply (triple_conseq _ _ _ _ _ (fun s H => H) (triple_get_chat c c0 v)).
  intros r s [_ H]. exact H.
Qed.

Lemma triple_get_code_history (c c0 : pystr) (v : option PollData) :
  triple W (fun s => active_of s c0 = v) (get_code_history c)
    (fun _ s => active_of s c0 = v).
Proof.
  unfold get_code_history.
  apply (triple_seq _ _ _ _ _ (triple_get_chat_idle c c0 v)).
  - intros ch. apply triple_benign, benign_ret.
  - trivial.
Qed.

Lemma triple_bot_send_poll (w : World) (c : Z) (n : nat) (opts : list pystr) :
  triple W (fun s => active_of s (str_of_Z c) = None)
    (bot_send_poll w c n opts) (fun _ _ => True).
Proof.
  intros s Hinv Hs. unfold bot_send_poll, bind, emit, orraise.
  destruct (send_poll_result w); simpl; auto.
Qed.

Lemma triple_send_poll (T : Z) (w : World) (c : Z) :
  triple W (fun s => active_of s (str_of_Z c) = None) (send_poll T w c)
    (fun _ _ => True).
Proof.
  unfold send_poll.
  apply (triple_try _ _ _ (fun _ _ => True)).
  - apply (triple_seq _ _ _ _ _
             (triple_get_code_history (str_of_Z c) (str_of_Z c) None)).
    + intros hist.
      apply (triple_seq _ (fun s => active_of s (str_of_Z c) = None));
        [apply triple_benign, benign_log | | trivial].
      intros _.
      apply (triple_seq _ (fun _ => True));
        [apply triple_bot_send_poll | | trivial].
      intros pm.
      apply (triple_seq _ (fun _ => True)); [ | | trivial].
      * assert (Hnew : forall p,
                  Some (new_poll T w (fst pm) (snd pm) hist) = Some p -> W p).
        { intros p H. inversion H. apply W_new. }
        apply (triple_weaken _ _ _ _
                 (triple_set_active_poll (str_of_Z c) _ Hnew)).
        trivial.
      * intros _.
        apply (triple_seq _ (fun _ => True));
          [apply triple_benign, benign_log | | trivial].
        intros _. apply triple_benign, benign_emit. reflexivity.
    + trivial.
  - apply triple_benign, benign_log.
  - trivial.
Qed.

Lemma triple_get_chat_entry (c : pystr) :
  triple W (fun _ => True) (get_chat c)
    (fun r s => forall ch, r = Some ch -> chat_get s c = Some ch).
Proof.
  intros s Hinv _.
  pose proof (triple_get_chat c c (active_of s c) s Hinv eq_refl) as H.
  destruct (get_chat c s) as [[r s'] es].
  destruct H as (H1 & H2 & H3 & [(ch & Hr & Hc) _]).
  repeat split; try assumption; try apply H1.
  intros ch' Hr'. congruence.
Qed.

Lemma triple_true_benign {A} (P : Store -> Prop) (m : M A) :
  benign m -> triple W P m (fun _ _ => True).
Proof.
  intros Hm. apply (triple_conseq P P m (fun _ s => P s)); auto.
  apply triple_benign. exact Hm.
Qed.

Lemma triple_true_set_none (P : Store -> Prop) (c : pystr) :
  triple W P (set_active_poll c None) (fun _ _ => True).
Proof.
  apply (triple_weaken (fun _ => True) P _ _
           (triple_set_active_poll c None
              (fun p H => False_ind _ (eq_ind None
                 (fun o => match o with None => True | Some _ => False end)
                 I _ H)))).
  trivial.
Qed.

Lemma triple_true_add_poll (P : Store -> Prop) (c : pystr) (r : PollResult) :
  triple W P (add_poll c r) (fun _ _ => True).
Proof. apply (triple_weaken (fun _ => True) P _ _ (triple_add_poll c r)). trivial. Qed.

Lemma triple_true_get_chat (P : Store -> Prop) (c : pystr) :
  triple W P (get_chat c) (fun _ _ => True).
Proof.
  apply (triple_weaken (fun _ => True) P _ _ (triple_get_chat_entry c)).
  trivial.
Qed.

Lemma triple_true_get_code_history (P : Store -> Prop) (c : pystr) :
  triple W P (get_code_history c) (fun _ _ => True).
Proof.
  unfold get_code_history.
  apply (triple_seq P (fun _ => True));
    [apply triple_true_get_chat | | trivial].
  intros ch. apply triple_true_benign, benign_ret.
Qed.

Lemma triple_true_clear_chat (P : Store -> Prop) (c : pystr) :
  triple W P (clear_chat c) (fun _ _ => True).
Proof.
  apply (triple_weaken (fun _ => True) P _ _ (triple_clear_chat c)). trivial.
Qed.

Ltac benign_solve :=
  repeat first
    [ apply benign_ret | apply benign_raise | apply benign_orraise
    | apply benign_log | apply benign_reply_text | apply benign_on_error
    | apply benign_check_admin | apply benign_bot_stop_poll
    | apply benign_bot_send_message
    | (apply benign_emit; reflexivity)
    | (apply benign_bind; [|intros ?])
    | apply benign_try | apply benign_if
    | match goal with
      | |- benign (match ?x with _ => _ end) => destruct x
      end ].

(** Computations whose specification asks for the invariants only. *)
Ltac tt_solve :=
  lazymatch goal with
  | |- triple _ _ (bind _ _) _ =>
      apply (triple_seq _ (fun _ => True));
        [ tt_solve | intros ?; tt_solve | trivial ]
  | |- triple _ _ (try_except _ _) _ =>
      apply (triple_try _ _ _ (fun _ _ => True));
        [ tt_solve | tt_solve | trivial ]
  | |- triple _ _ (add_poll _ _) _ => apply triple_true_add_poll
  | |- triple _ _ (set_active_poll _ None) _ => apply triple_true_set_none
  | |- triple _ _ (get_chat _) _ => apply triple_true_get_chat
  | |- triple _ _ (get_code_history _) _ => apply triple_true_get_code_history
  | |- triple _ _ (clear_chat _) _ => apply triple_true_clear_chat
  | |- triple _ _ (match ?x with _ => _ end) _ => destruct x; tt_solve
  | |- _ => apply triple_true_benign; benign_solve
  end.

Lemma triple_close_poll (w : World) (c : Z) (pid : pystr) (flag : bool) :
  triple W (fun _ => True) (close_poll w c pid flag) (fun _ _ => True).
Proof. unfold close_poll. tt_solve. Qed.

Lemma answer_scan_inv (pid : pystr) (ids : list Z) (s s' : Store) :
  answer_scan pid ids s = Some s' -> store_inv W s -> store_inv W s'.
Proof.
  intros Hscan [Hnd Hall].
  assert (H : map fst s' = map fst s /\
              Forall (fun kc => forall p, active_poll (snd kc) = Some p -> W p)
                     s').
  { revert s' Hscan Hall. clear Hnd.
    induction s as [|[k ch] s IH]; intros s' Hscan Hall; simpl in Hscan;
      [discriminate|].
    inversion Hall as [|x l Hch Hrest]; subst.
    assert (Hskip : option_map (cons (k, ch)) (answer_scan pid ids s) = Some s'
                    -> map fst s' = map fst ((k, ch) :: s) /\
                       Forall (fun kc => forall p,
                                 active_poll (snd kc) = Some p -> W p) s').
    { intros Hs. destruct (answer_scan pid ids s) as [t|] eqn:Et;
        [|discriminate].
      simpl in Hs. inversion Hs; subst s'.
      destruct (IH t eq_refl Hrest) as [Hk Hf].
      simpl. rewrite Hk. split; [reflexivity|]. constructor; assumption. }
    destruct (active_poll ch) as [p|] eqn:Ha; [|exact (Hskip Hscan)].
    destruct (pystr_eqb (poll_id p) pid); [|exact (Hskip Hscan)].
    inversion Hscan; subst s'. simpl. split; [reflexivity|].
    constructor; [|exact Hrest].
    simpl. intros p' Hp'. inversion Hp'; subst p'.
    apply (W_votes p ids). apply Hch. simpl. exact Ha. }
  destruct H as [Hk Hf]. split; [rewrite Hk; exact Hnd | exact Hf].
Qed.

Lemma triple_poll_answer_handler (pid : pystr) (ids : list Z) :
  triple W (fun _ => True) (poll_answer_handler pid ids) (fun _ _ => True).
Proof.
  intros s Hinv _. unfold poll_answer_handler, try_except.
  destruct (answer_scan pid ids s) as [s'|] eqn:E; simpl.
  - split; [exact (answer_scan_inv pid ids s s' E Hinv) | auto].
  - auto.
Qed.

(** A poll is sent after the chat was found without an active poll. *)
Lemma triple_send_poll_entry (T : Z) (w : World) (c : Z) (ch : Chat) :
  active_poll ch = None ->
  triple W (fun s => chat_get s (str_of_Z c) = Some ch) (send_poll T w c)
    (fun _ _ => True).
Proof.
  intros Ha.
  apply (triple_conseq (fun s => active_of s (str_of_Z c) = None) _ _
           (fun _ _ => True)).
  - intros s H. unfold active_of. rewrite H. exact Ha.
  - apply triple_send_poll.
  - trivial.
Qed.

(** After [get_chat], going on by the active poll of the entry: nothing
    but quiet effects when there is one, and a new poll when there is
    none. *)
Lemma triple_open_if_idle {A} (T : Z) (w : World) (c : Z)
    (busy : M unit) (before : M A) :
  benign busy -> benign before ->
  triple W (fun _ => True)
    (chat_data <- get_chat (str_of_Z c) ;;
     match active_poll chat_data with
     | Some _ => busy
     | None => before ;;; send_poll T w c
     end)
    (fun _ _ => True).
Proof.
  intros Hbusy Hbefore.
  apply (triple_bind _ _ _ _ _ (triple_get_chat_entry (str_of_Z c)));
    [|trivial].
  intros ch. destruct (active_poll ch) as [q|] eqn:Ha.
  - apply triple_true_benign. exact Hbusy.
  - apply (triple_conseq (fun s => chat_get s (str_of_Z c) = Some ch) _ _
             (fun _ _ => True)); [auto | | trivial].
    apply (triple_seq _ (fun s => chat_get s (str_of_Z c) = Some ch));
      [apply triple_benign; exact Hbefore | | trivial].
    intros _. apply triple_send_poll_entry. exact Ha.
Qed.

Lemma triple_close_poll_resume (T : Z) (w : World) (c : Z) :
  triple W (fun _ => True) (close_poll_resume T w c) (fun _ _ => True).
Proof.
  unfold close_poll_resume.
  apply (triple_try _ _ _ (fun _ _ => True));
    [ | apply triple_true_benign, benign_log | trivial].
  pose proof (triple_open_if_idle T w c (ret tt) (ret tt)
                (benign_ret tt) (benign_ret tt)) as H.
  intros s Hinv Hs. specialize (H s Hinv Hs).
  unfold bind at 1 in H. unfold bind at 1.
  destruct (get_chat (str_of_Z c) s) as [[[ch|] s1] e1]; [|exact H].
  destruct (active_poll ch); [exact H|].
  unfold bind, ret in H. simpl in H.
  destruct (send_poll T w c s1) as [[r s2] e2]. exact H.
Qed.

Lemma triple_sendnow_command (T : Z) (admins : list Z) (w : World) (u c : Z) :
  triple W (fun _ => True) (sendnow_command T admins w u c)
    (fun _ _ => True).
Proof.
  unfold sendnow_command.
  apply (triple_seq _ (fun _ => True));
    [apply triple_true_benign, benign_check_admin | | trivial].
  intros ok. destruct (negb ok); [apply triple_true_benign, benign_ret|].
  apply (triple_try _ _ _ (fun _ _ => True));
    [ | apply triple_true_benign, benign_on_error | trivial].
  apply (triple_open_if_idle T w c); apply benign_reply_text.
Qed.

Lemma triple_start_command (T : Z) (admins : list Z) (w : World) (u c : Z)
    (a : start_arg) :
  triple W (fun _ => True) (start_command T admins w u c a)
    (fun _ _ => True).
Proof.
  unfold start_command.
  apply (triple_try _ _ _ (fun _ _ => True));
    [ | apply triple_true_benign, benign_on_error | trivial].
  destruct (is_admin admins u); [|tt_solve].
  match goal with
  | |- triple _ _ (match ?x with _ => _ end) _ =>
      destruct x as [target|]
  end; [|apply triple_true_benign, benign_reply_text].
  apply (triple_seq _ (fun _ => True));
    [apply triple_true_get_code_history | | trivial].
  intros hist.
  apply (triple_seq _ (fun _ => True));
    [destruct hist; apply triple_true_benign; benign_solve | | trivial].
  intros _.
  apply (triple_seq _ (fun s => active_of s (str_of_Z target) = None));
    [apply (triple_conseq _ _ _ _ _ (fun s H => H)
              (triple_clear_chat (str_of_Z target))); auto | | trivial].
  intros _.
  apply (triple_seq _ (fun s => active_of s (str_of_Z target) = None));
    [apply triple_benign, benign_log | | trivial].
  intros _.
  apply (triple_seq _ (fun s => active_of s (str_of_Z target) = None));
    [apply triple_benign, benign_reply_text | | trivial].
  intros _. apply triple_send_poll.
Qed.

Lemma triple_handle (T : Z) (admins : list Z) (ev : event) :
  triple W (fun _ => True) (handle T admins ev) (fun _ _ => True).
Proof.
  assert (Hforget : forall A (m : M A),
            triple W (fun _ => True) m (fun _ _ => True) ->
            triple W (fun _ => True) (forget m) (fun _ _ => True)).
  { intros A m Hm s Hinv Hs. specialize (Hm s Hinv Hs). unfold forget.
    destruct (m s) as [[r s'] es]. exact Hm. }
  destruct ev; simpl; apply Hforget.
  - apply triple_start_command.
  - unfold code_command. tt_solve.
  - unfold code_completed_command. tt_solve.
  - apply triple_sendnow_command.
  - unfold health_command. tt_solve.
  - apply triple_poll_answer_handler.
  - apply triple_close_poll.
  - apply triple_close_poll_resume.
Qed.

Lemma triple_run (T : Z) (admins : list Z) (evs : list event) :
  triple W (fun _ => True) (run T admins evs) (fun _ _ => True).
Proof.
  induction evs as [|ev evs IH]; simpl.
  - apply triple_true_benign, benign_ret.
  - apply (triple_seq _ (fun _ => True));
      [apply triple_handle | intros _; exact IH | trivial].
Qed.

End Logic.

(** ** One active poll per chat *)

Lemma active_count_le_1 (s : Store) (c : pystr) :
  NoDup (map fst s) -> (active_count s c <= 1)%nat.
Proof.
  unfold active_count. intros Hnd.
  induction s as [|[k ch] s IH]; simpl; [lia|].
  inversion Hnd as [|x l Hnotin Hnd']; subst.
  specialize (IH Hnd').
  destruct (pystr_eqb k c) eqn:E; simpl; [|exact IH].
  apply pystr_eqb_eq in E. subst k.
  assert (Hnone : filter (fun kc => pystr_eqb (fst kc) c &&
                            match active_poll (snd kc) with
                            | Some _ => true
                            | None => false
                            end) s = []).
  { clear IH Hnd Hnd'. induction s as [|[k' ch'] s IHs]; simpl; [reflexivity|].
    simpl in Hnotin.
    destruct (pystr_eqb k' c) eqn:E'.
    - apply pystr_eqb_eq in E'. subst k'. exfalso. apply Hnotin. auto.
    - simpl. apply IHs. tauto. }
  rewrite Hnone. destruct (active_poll ch); simpl; lia.
Qed.

Lemma poll_wf_new_poll (T : Z) (w : World) (pid : pystr) (mid : Z)
    (hist : list pystr) :
  poll_wf (new_poll T w pid mid hist).
Proof.
  destruct (generate_code_options_shape (llm_response w) hist)
    as (Hlen & _ & Hall & _).
  unfold poll_wf, new_poll; simpl. repeat split.
  - repeat constructor; simpl; lia.
  - exact Hlen.
  - rewrite Forall_forall in *. intros o Ho. apply (Hall o Ho).
Qed.

(** Every store reached from a well-formed store is well formed: the
    active polls keep the shape [send_poll] gives them. *)
Lemma run_keeps_store_wf (T : Z) (admins : list Z) (evs : list event)
    (s0 : Store) :
  store_wf s0 -> store_wf (store_of (run T admins evs s0)).
Proof.
  intros Hwf.
  pose proof (triple_run poll_wf poll_wf_new_poll poll_wf_with_votes
                T admins evs s0 Hwf I) as H.
  destruct (run T admins evs s0) as [[r s'] es]. apply H.
Qed.

(** Handlers that run one after the other.  Let any sequence of events
    (commands, poll answers, closes, ends of a settle delay) run from a
    store with one entry per chat, each handler to its end before the next
    starts.  The store it reaches has one entry per chat again, so that no
    chat has more than one active poll; and every call of [bot.send_poll]
    made on the way was made at a moment when the chat it was sent to had
    no active poll.  (For handlers that are suspended and resumed in
    between, see [interleave].) *)
Lemma serial_run_opens_when_idle (T : Z) (admins : list Z)
    (evs : list event) (s0 : Store) :
  NoDup (map fst s0) ->
  let r := run T admins evs s0 in
  NoDup (map fst (store_of r)) /\
  (forall c, (active_count (store_of r) c <= 1)%nat) /\
  opens_when_idle s0 (effects_of r) /\
  last_saved s0 (effects_of r) = store_of r.
Proof.
  intros Hnd r.
  assert (Hinv : store_inv (fun _ => True) s0).
  { split; [exact Hnd|]. apply Forall_forall. trivial. }
  pose proof (triple_run (fun _ => True) (fun _ _ _ _ _ => I)
                (fun _ _ _ => I) T admins evs s0 Hinv I) as H.
  fold r in H. destruct r as [[res s'] es].
  destruct H as ([Hnd' _] & Hlast & Hopen & _).
  unfold store_of, effects_of; simpl.
  repeat split; try assumption.
  intros c. apply active_count_le_1. exact Hnd'.
Qed.

(** ** Persistence *)

Lemma roundtrip_strings (l : list pystr) :
  map json_load (map json_dump (map PStr l)) = map PStr l.
Proof. induction l as [|x l IH]; simpl; [reflexivity | rewrite IH; reflexivity]. Qed.

(** Building a dictionary with [str] keys, on values and on what they
    stand for. *)
Lemma od_set_repr {V} (h : V -> pyval) (d : list (pystr * V)) (k : pystr)
    (v : V) :
  map (fun kv => (KStr (fst kv), h (snd kv))) (od_set pystr_eqb d k v) =
  od_set key_eqb (map (fun kv => (KStr (fst kv), h (snd kv))) d)
         (KStr k) (h v).
Proof.
  induction d as [|[k' v'] d IH]; simpl; [reflexivity|].
  destruct (pystr_eqb k k'); simpl; [reflexivity | rewrite IH; reflexivity].
Qed.

Lemma od_set_repr_votes (d : list (key * Z)) (k : pystr) (n : Z) :
  map (fun kv => (fst kv, PNum (snd kv))) (od_set key_eqb d (KStr k) n) =
  od_set key_eqb (map (fun kv => (fst kv, PNum (snd kv))) d)
         (KStr k) (PNum n).
Proof.
  induction d as [|[k' v'] d IH]; simpl; [reflexivity|].
  destruct k' as [i|t]; simpl.
  - rewrite IH. reflexivity.
  - destruct (pystr_eqb k t); simpl; [reflexivity | rewrite IH; reflexivity].
Qed.

Lemma roundtrip_votes (vs : list (key * Z)) :
  roundtrip (repr_votes vs) = repr_votes (reload_votes vs).
Proof.
  unfold roundtrip, repr_votes, reload_votes. simpl. f_equal.
  rewrite !map_map. simpl. unfold dict_of_members.
  change (@nil (key * pyval))
    with (map (fun kv : key * Z => (fst kv, PNum (snd kv))) []).
  generalize (@nil (key * Z)) as acc.
  induction vs as [|[k n] vs IH]; intros acc; simpl; [reflexivity|].
  rewrite <- od_set_repr_votes. apply IH.
Qed.

Lemma roundtrip_poll_data (p : PollData) :
  roundtrip (repr_poll_data p) = repr_poll_data (reload_poll_data p).
Proof.
  pose proof (roundtrip_votes (votes p)) as Hv.
  unfold roundtrip in *. unfold repr_poll_data, reload_poll_data.
  simpl json_dump. simpl json_load. simpl in Hv. rewrite Hv.
  rewrite roundtrip_strings. reflexivity.
Qed.

Lemma roundtrip_poll_result (r : PollResult) :
  roundtrip (repr_poll_result r) = repr_poll_result (reload_poll_result r).
Proof.
  pose proof (roundtrip_votes (r_votes r)) as Hv.
  unfold roundtrip in *. unfold repr_poll_result, reload_poll_result.
  simpl json_dump. simpl json_load. simpl in Hv. rewrite Hv.
  rewrite roundtrip_strings.
  destruct (winner_index r); reflexivity.
Qed.

Lemma roundtrip_chat (c : Chat) :
  roundtrip (repr_chat c) = repr_chat (reload_chat c).
Proof.
  assert (Hp : map json_load (map json_dump (map repr_poll_result (polls c)))
               = map repr_poll_result (map reload_poll_result (polls c))).
  { induction (polls c) as [|r l IH]; simpl; [reflexivity|].
    rewrite IH. f_equal. apply roundtrip_poll_result. }
  assert (Ha : json_load (json_dump match active_poll c with
                                    | Some p => repr_poll_data p
                                    | None => PNone
                                    end)
               = match option_map reload_poll_data (active_poll c) with
                 | Some p => repr_poll_data p
                 | None => PNone
                 end).
  { destruct (active_poll c); [apply roundtrip_poll_data | reflexivity]. }
  unfold roundtrip, repr_chat, reload_chat.
  simpl json_dump. simpl json_load. simpl polls. simpl active_poll.
  rewrite Hp, Ha. reflexivity.
Qed.

Lemma roundtrip_chats (s acc : Store) :
  fold_left (fun d kv => od_set key_eqb d (KStr (fst kv)) (snd kv))
    (map (fun kc : pystr * Chat =>
            (fst kc, json_load (json_dump (repr_chat (snd kc))))) s)
    (map (fun kc : pystr * Chat => (KStr (fst kc), repr_chat (snd kc))) acc)
  = map (fun kc : pystr * Chat => (KStr (fst kc), repr_chat (snd kc)))
      (fold_left (fun d kc => chat_set d (fst kc) (reload_chat (snd kc)))
                 s acc).
Proof.
  revert acc. induction s as [|[k c] s IH]; intros acc; [reflexivity|].
  cbn [map fold_left fst snd].
  pose proof (roundtrip_chat c) as Hc. unfold roundtrip in Hc. rewrite Hc.
  unfold chat_set. rewrite <- od_set_repr. apply IH.
Qed.

(** What a restarted process reads is the store [reload] gives. *)
Lemma roundtrip_store (s : Store) :
  roundtrip (repr_store s) = repr_store (reload s).
Proof.
  unfold roundtrip, repr_store, reload, field.
  cbn [json_dump json_load map fst snd key_name].
  rewrite !map_map. cbn [fst snd key_name].
  unfold dict_of_members at 1. cbn [fold_left od_set fst snd].
  do 4 f_equal. unfold dict_of_members.
  apply (roundtrip_chats s []).
Qed.

(** Assignment keeps the first key of a dictionary that is not empty. *)
Lemma od_set_head (d : list (key * Z)) (k0 : key) (v0 : Z) (k : key) (v : Z) :
  exists v' d', od_set key_eqb ((k0, v0) :: d) k v = (k0, v') :: d'.
Proof. simpl. destruct (key_eqb k k0); eauto. Qed.

Lemma reload_votes_head (vs acc : list (key * Z)) (k0 : key) (v0 : Z) :
  exists v' d',
    fold_left (fun d kv => od_set key_eqb d (KStr (key_name (fst kv))) (snd kv))
              vs ((k0, v0) :: acc) = (k0, v') :: d'.
Proof.
  revert acc v0. induction vs as [|[k n] vs IH]; intros acc v0.
  - simpl. eauto.
  - cbn [fold_left fst snd].
    destruct (od_set_head acc k0 v0 (KStr (key_name k)) n) as (v' & d' & ->).
    apply IH.
Qed.

(** A poll with an integer key in front does not survive the restart. *)
Lemma reload_poll_data_changes (p : PollData) :
  poll_wf p -> reload_poll_data p <> p.
Proof.
  intros (Hk & _) H.
  assert (Hv : reload_votes (votes p) = votes p)
    by (rewrite <- H at 2; reflexivity).
  destruct (votes p) as [|[k n] vs]; [discriminate Hk|].
  simpl in Hk. inversion Hk as [[Hk0 Hrest]]. subst k.
  unfold reload_votes in Hv. cbn [fold_left od_set fst snd key_name] in Hv.
  destruct (reload_votes_head vs [] (KStr (str_of_Z 0)) n) as (v' & d' & E).
  rewrite E in Hv. discriminate Hv.
Qed.

Lemma reload_get (s acc : Store) (c : pystr) :
  NoDup (map fst s) ->
  chat_get (fold_left (fun d kc => chat_set d (fst kc) (reload_chat (snd kc)))
                      s acc) c =
  match chat_get s c with
  | Some ch => Some (reload_chat ch)
  | None => chat_get acc c
  end.
Proof.
  revert acc. induction s as [|[k ch] s IH]; intros acc Hnd; [reflexivity|].
  inversion Hnd as [|x l Hnotin Hnd']; subst.
  cbn [fold_left fst snd]. rewrite (IH _ Hnd').
  unfold chat_get at 3. simpl.
  destruct (pystr_eqb c k) eqn:E.
  - apply pystr_eqb_eq in E. subst k.
    assert (Hnone : chat_get s c = None)
      by (apply (od_get_None _ _ pystr_eqb pystr_eqb_eq); exact Hnotin).
    rewrite Hnone. apply chat_get_set_same.
  - fold (chat_get s c). destruct (chat_get s c); [reflexivity|].
    apply chat_get_set_other. intros Heq. subst k.
    rewrite pystr_eqb_refl in E. discriminate.
Qed.

(** No store that holds an active poll opened by [send_poll] is read back
    as it was written. *)
Lemma reload_changes_store (s : Store) (c : pystr) (p : PollData) :
  store_wf s -> active_of s c = Some p -> reload s <> s.
Proof.
  intros [Hnd Hall] Ha H.
  unfold active_of in Ha. destruct (chat_get s c) as [ch|] eqn:Hc;
    [|discriminate].
  assert (Hr : chat_get (reload s) c = Some (reload_chat ch)).
  { unfold reload. rewrite (reload_get s [] c Hnd), Hc. reflexivity. }
  rewrite H, Hc in Hr. inversion Hr as [Hch].
  assert (Hp : option_map reload_poll_data (active_poll ch) = active_poll ch)
    by (rewrite Hch at 2; reflexivity).
  rewrite Ha in Hp. simpl in Hp. inversion Hp as [Hp'].
  apply (reload_poll_data_changes p); [|exact Hp'].
  apply (od_get_In _ _ pystr_eqb pystr_eqb_eq) in Hc.
  rewrite Forall_forall in Hall. apply (Hall _ Hc). exact Ha.
Qed.

(** C6. The session [session_store] (one committed line, an active poll
    opened by [send_poll]) does not come back from the storage file as it
    was saved: [json.dump] writes the integer keys of [votes] as strings
    and [json.load] returns them as strings.  After the restart a vote for
    option 0 of the active poll is not counted, and [close_poll] raises on
    the string index and leaves the poll active. *)
Theorem roundtrip_turns_vote_keys_into_strings :
  let c := str_of_Z 7 in
  let s := session_store in
  history_of s c = [lit "x = 1"] /\
  option_map votes (active_of s c) =
    Some [(KInt 0, 0); (KInt 1, 0); (KInt 2, 0); (KInt 3, 0)] /\
  store_wf s /\
  roundtrip (repr_store s) = repr_store (reload s) /\
  roundtrip (repr_store s) <> repr_store s /\
  reload s <> s /\
  option_map votes (active_of (reload s) c) =
    Some [(KStr (lit "0"), 0); (KStr (lit "1"), 0);
          (KStr (lit "2"), 0); (KStr (lit "3"), 0)] /\
  option_map votes
    (active_of (store_of (poll_answer_handler (lit "poll-3") [0] (reload s)))
               c) =
    Some [(KStr (lit "0"), 0); (KStr (lit "1"), 0);
          (KStr (lit "2"), 0); (KStr (lit "3"), 0)] /\
  close_poll later_world 7 (lit "poll-3") false (reload s) =
    (Some false, reload s, [EStopPoll 7 3; ELog Error]).
Proof.
  cbv zeta.
  assert (Hneq : reload session_store <> session_store).
  { intros H.
    assert (H' : option_map votes (active_of (reload session_store)
                                              (str_of_Z 7)) =
                 option_map votes (active_of session_store (str_of_Z 7)))
      by (rewrite H; reflexivity).
    vm_compute in H'. discriminate H'. }
  split; [vm_compute; reflexivity|].
  split; [vm_compute; reflexivity|].
  split.
  { apply (run_keeps_store_wf 300 [1] session_events []).
    split; [constructor | constructor]. }
  split; [apply roundtrip_store|].
  split.
  { rewrite roundtrip_store. intros H.
    vm_compute in H. discriminate H. }
  split; [exact Hneq|].
  split; [vm_compute; reflexivity|].
  split; vm_compute; reflexivity.
Qed.

(** * Further properties of the code *)

(** ** BotStorage *)

(** X1. [clear_chat] leaves the chat with an empty archive, an empty
    history and no active poll, whatever it held before; it saves the
    store once and touches no other chat. *)
Theorem clear_chat_resets (c : pystr) (s : Store) :
  let r := clear_chat c s in
  polls_of (store_of r) c = [] /\
  history_of (store_of r) c = [] /\
  active_of (store_of r) c = None /\
  effects_of r = [ESave (store_of r)] /\
  (forall c', c <> c' -> chat_get (store_of r) c' = chat_get s c').
Proof.
  unfold clear_chat, save, store_of, effects_of; simpl.
  repeat split.
  - apply polls_of_set.
  - unfold history_of. rewrite polls_of_set. reflexivity.
  - apply active_of_set.
  - intros c' Hne. apply chat_get_set_other. exact Hne.
Qed.

(** X2. [get_chat] creates a missing chat empty and saves once; it returns
    an existing chat without writing.  Either way the chat it returns is
    the entry of the store, the archive and the active poll of every chat
    are what they were, and a second call writes nothing. *)
Theorem get_chat_creates_once (c : pystr) (s : Store) :
  let r := get_chat c s in
  (exists ch,
     result_of r = Some ch /\ chat_get (store_of r) c = Some ch /\
     match chat_get s c with
     | Some ch0 => ch = ch0 /\ store_of r = s /\ effects_of r = []
     | None => ch = new_chat /\ effects_of r = [ESave (store_of r)]
     end) /\
  (forall c', polls_of (store_of r) c' = polls_of s c' /\
              active_of (store_of r) c' = active_of s c') /\
  (forall c', c <> c' -> chat_get (store_of r) c' = chat_get s c') /\
  get_chat c (store_of r) = (result_of r, store_of r, []).
Proof.
  unfold get_chat. destruct (chat_get s c) as [ch|] eqn:Hc.
  - unfold store_of, effects_of, result_of; simpl.
    split; [exists ch; auto|]. split; [auto|]. split; [auto|].
    rewrite Hc. reflexivity.
  - unfold store_of, effects_of, result_of; simpl.
    split; [exists new_chat; repeat split; apply chat_get_set_same|].
    split; [|split].
    + intros c'. split.
      * unfold polls_of. destruct (pystr_eqb c c') eqn:E.
        -- apply pystr_eqb_eq in E. subst c'.
           rewrite chat_get_set_same, Hc. reflexivity.
        -- apply pystr_eqb_neq in E.
           rewrite chat_get_set_other by exact E. reflexivity.
      * apply active_of_new_chat. exact Hc.
    + intros c' Hne. apply chat_get_set_other. exact Hne.
    + rewrite chat_get_set_same. reflexivity.
Qed.

Lemma set_active_poll_store (c : pystr) (o : option PollData) (s : Store) :
  store_of (set_active_poll c o s) =
  chat_set s c {| polls := polls_of s c; active_poll := o |}.
Proof.
  unfold polls_of. destruct (chat_get s c) as [ch|] eqn:Hc.
  - rewrite (set_active_poll_found s c ch o Hc). reflexivity.
  - unfold set_active_poll.
    erewrite bind_ok;
      [ | apply get_chat_missing; exact Hc | reflexivity | reflexivity ].
    unfold store_of; simpl. apply chat_set_set.
Qed.

Lemma add_poll_store (c : pystr) (r : PollResult) (s : Store) :
  store_of (add_poll c r s) =
  chat_set s c {| polls := polls_of s c ++ [r];
                  active_poll := active_of s c |}.
Proof.
  unfold polls_of, active_of. destruct (chat_get s c) as [ch|] eqn:Hc.
  - rewrite (add_poll_found s c ch r Hc). reflexivity.
  - unfold add_poll.
    erewrite bind_ok;
      [ | apply get_chat_missing; exact Hc | reflexivity | reflexivity ].
    unfold store_of; simpl. apply chat_set_set.
Qed.

(** X3. [set_active_poll] makes the given value (a poll or [None]) the
    active poll of the chat and changes nothing else: the archive and the
    history of the chat are kept, and so is every other chat. *)
Theorem set_active_poll_replaces_only_the_poll (c : pystr)
    (o : option PollData) (s : Store) :
  let s' := store_of (set_active_poll c o s) in
  active_of s' c = o /\
  polls_of s' c = polls_of s c /\
  history_of s' c = history_of s c /\
  (forall c', c <> c' -> chat_get s' c' = chat_get s c').
Proof.
  cbv zeta. rewrite set_active_poll_store. repeat split.
  - apply active_of_set.
  - apply polls_of_set.
  - unfold history_of. rewrite polls_of_set. reflexivity.
  - intros c' Hne. apply chat_get_set_other. exact Hne.
Qed.

(** X4. [add_poll] appends the record at the end of the archive of the
    chat, creating the chat when it is missing; the active poll of the
    chat and every other chat are kept. *)
Theorem add_poll_appends_last (c : pystr) (r : PollResult) (s : Store) :
  let s' := store_of (add_poll c r s) in
  polls_of s' c = polls_of s c ++ [r] /\
  active_of s' c = active_of s c /\
  (forall c', c <> c' -> chat_get s' c' = chat_get s c').
Proof.
  cbv zeta. rewrite add_poll_store. repeat split.
  - apply polls_of_set.
  - apply active_of_set.
  - intros c' Hne. apply chat_get_set_other. exact Hne.
Qed.

(** ** Opening a poll *)

Lemma get_code_history_missing (s : Store) (c : pystr) :
  chat_get s c = None ->
  get_code_history c s =
  (Some [], chat_set s c new_chat, [ESave (chat_set s c new_chat)]).
Proof.
  intros H. unfold get_code_history.
  eapply bind_ok; [apply get_chat_missing; exact H | reflexivity | reflexivity].
Qed.

Lemma get_chat_frame (c : pystr) (s : Store) :
  (forall c', polls_of (store_of (get_chat c s)) c' = polls_of s c' /\
              active_of (store_of (get_chat c s)) c' = active_of s c') /\
  (effects_of (get_chat c s) = [] \/
   effects_of (get_chat c s) = [ESave (store_of (get_chat c s))]).
Proof.
  unfold get_chat. destruct (chat_get s c) as [ch|] eqn:Hc;
    unfold store_of, effects_of; simpl; [auto|].
  split; [|auto]. intros c'. split.
  - unfold polls_of. destruct (pystr_eqb c c') eqn:E.
    + apply pystr_eqb_eq in E. subst c'.
      rewrite chat_get_set_same, Hc. reflexivity.
    + apply pystr_eqb_neq in E.
      rewrite chat_get_set_other by exact E. reflexivity.
  - apply active_of_new_chat. exact Hc.
Qed.

(** [send_poll] in one piece: the store after [get_chat], the trace of
    [get_chat], and what follows by the answer of Telegram. *)
Lemma send_poll_eval (T : Z) (w : World) (chat_id : Z) (s : Store) :
  let c := str_of_Z chat_id in
  let s0 := store_of (get_chat c s) in
  let hist := history_of s c in
  let opts := generate_code_options (llm_response w) hist in
  send_poll T w chat_id s =
  match send_poll_result w with
  | Some (pid, mid) =>
      let s' := chat_set s c {| polls := polls_of s c;
                                active_poll := Some (new_poll T w pid mid hist) |} in
      (Some tt, s',
       effects_of (get_chat c s) ++
       [ELog Info; ESendPoll chat_id (length hist + 1) opts;
        ESave s'; ELog Info; ERunOnce T chat_id pid])
  | None =>
      (Some tt, s0,
       effects_of (get_chat c s) ++
       [ELog Info; ESendPoll chat_id (length hist + 1) opts; ELog Error])
  end.
Proof.
  cbv zeta. unfold history_of, polls_of. set (c := str_of_Z chat_id).
  destruct (chat_get s c) as [ch|] eqn:Hc.
  - rewrite (get_chat_found s c ch Hc).
    unfold store_of, effects_of; simpl fst; simpl snd.
    destruct (send_poll_result w) as [[pid mid]|] eqn:Hr.
    + pose proof (send_poll_found T w chat_id s ch pid mid Hc Hr) as H.
      cbv zeta in H. rewrite H. reflexivity.
    + pose proof (send_poll_failed T w chat_id s ch Hc Hr) as H.
      cbv zeta in H. rewrite H. reflexivity.
  - rewrite (get_chat_missing s c Hc).
    unfold store_of, effects_of; simpl fst; simpl snd.
    pose proof (get_code_history_missing s c Hc) as Hh.
    destruct (send_poll_result w) as [[pid mid]|] eqn:Hr.
    + pose proof (set_active_poll_found (chat_set s c new_chat) c new_chat
                    (Some (new_poll T w pid mid [])) (chat_get_set_same _ _ _))
        as Hset.
      cbv zeta in Hset. rewrite chat_set_set in Hset. simpl polls in Hset.
      unfold send_poll, bot_send_poll. fold c.
      meval ltac:(try rewrite Hr).
    + unfold send_poll, bot_send_poll. fold c.
      meval ltac:(try rewrite Hr).
Qed.

(** X5. When Telegram accepts the poll, [send_poll] makes it the active
    poll of the chat: four options generated from the history of the chat,
    all votes zero, the deadline [POLL_TIMEOUT] after now.  It schedules
    exactly one timer, for this poll, after [POLL_TIMEOUT]; the archive of
    every chat and the active poll of every other chat are kept. *)
Theorem send_poll_opens_and_schedules (T : Z) (w : World) (chat_id : Z)
    (s : Store) (pid : pystr) (mid : Z) :
  send_poll_result w = Some (pid, mid) ->
  let c := str_of_Z chat_id in
  let r := send_poll T w chat_id s in
  active_of (store_of r) c = Some (new_poll T w pid mid (history_of s c)) /\
  close_time (new_poll T w pid mid (history_of s c)) = now_timestamp w + T /\
  votes (new_poll T w pid mid (history_of s c)) =
    [(KInt 0, 0); (KInt 1, 0); (KInt 2, 0); (KInt 3, 0)] /\
  filter is_run_once (effects_of r) = [ERunOnce T chat_id pid] /\
  (forall c', polls_of (store_of r) c' = polls_of s c') /\
  (forall c', c <> c' -> active_of (store_of r) c' = active_of s c').
Proof.
  intros Hr c r. unfold r. rewrite (send_poll_eval T w chat_id s), Hr.
  fold c. unfold store_of, effects_of; simpl fst; simpl snd.
  split; [apply active_of_set|]. split; [reflexivity|].
  split; [reflexivity|]. split; [|split].
  - rewrite filter_app. unfold get_chat.
    destruct (chat_get s c); reflexivity.
  - intros c'. destruct (pystr_eqb c c') eqn:E.
    + apply pystr_eqb_eq in E. subst c'. apply polls_of_set.
    + apply pystr_eqb_neq in E. unfold polls_of.
      rewrite chat_get_set_other by exact E. reflexivity.
  - intros c' Hne. apply active_of_set_other. exact Hne.
Qed.

Lemma send_poll_opens_and_schedules_witness :
  filter is_run_once (effects_of (send_poll 300 calm_world 7 [])) =
  [ERunOnce 300 7 (lit "poll-2")].
Proof.
  destruct (send_poll_opens_and_schedules 300 calm_world 7 []
              (lit "poll-2") 2) as (_ & _ & _ & H & _).
  - reflexivity.
  - exact H.
Defined.

(** X6. When [bot.send_poll] raises, [send_poll] marks no poll active and
    schedules no timer: it returns normally after logging the error, the
    archive and the active poll of every chat are what they were, and the
    only write is the one of [get_chat] for a chat that was missing. *)
Theorem send_poll_publish_failure (T : Z) (w : World) (chat_id : Z)
    (s : Store) :
  send_poll_result w = None ->
  let c := str_of_Z chat_id in
  let r := send_poll T w chat_id s in
  result_of r = Some tt /\
  store_of r = store_of (get_chat c s) /\
  (forall c', polls_of (store_of r) c' = polls_of s c' /\
              active_of (store_of r) c' = active_of s c') /\
  filter is_run_once (effects_of r) = [] /\
  filter is_save (effects_of r) = filter is_save (effects_of (get_chat c s)) /\
  In (ELog Error) (effects_of r).
Proof.
  intros Hr c r.
  destruct (get_chat_frame c s) as [Hframe Heff].
  unfold r. rewrite (send_poll_eval T w chat_id s), Hr. fold c.
  remember (get_chat c s) as g eqn:Hg.
  change (store_of (Some tt, store_of g,
                    effects_of g ++
                    [ELog Info;
                     ESendPoll chat_id (length (history_of s c) + 1)
                       (generate_code_options (llm_response w)
                          (history_of s c));
                     ELog Error])) with (store_of g).
  unfold effects_of at 1 2 4. simpl snd. unfold result_of. simpl fst.
  split; [reflexivity|]. split; [reflexivity|]. split; [exact Hframe|].
  split; [|split].
  - rewrite filter_app. simpl.
    destruct Heff as [-> | ->]; reflexivity.
  - rewrite filter_app. simpl. rewrite app_nil_r. reflexivity.
  - apply in_or_app. right. simpl. auto.
Qed.

Lemma send_poll_publish_failure_witness :
  send_poll_result (publish_fails calm_world) = None /\
  result_of (send_poll 300 (publish_fails calm_world) 7 []) = Some tt /\
  filter is_run_once
    (effects_of (send_poll 300 (publish_fails calm_world) 7 [])) = [] /\
  active_of (store_of (send_poll 300 (publish_fails calm_world) 7 []))
    (str_of_Z 7) = None.
Proof.
  destruct (send_poll_publish_failure 300 (publish_fails calm_world) 7 [])
    as (Hres & _ & Hframe & Hrun & _).
  - reflexivity.
  - split; [reflexivity|]. split; [exact Hres|]. split; [exact Hrun|].
    destruct (Hframe (str_of_Z 7)) as [_ Hact]. exact Hact.
Defined.

(** ** Closing a poll *)

(** X7. A failure of [bot.stop_poll] does not change what [close_poll]
    does to the store or to the chat: the same record is archived, the
    same result is announced and the same value is returned; the trace
    only gains one error record after the call that failed. *)
Theorem close_poll_survives_stop_failure (w : World) (chat_id : Z)
    (pid : pystr) (flag_stop : bool) (s : Store) (chat : Chat)
    (p : PollData) :
  chat_get s (str_of_Z chat_id) = Some chat ->
  active_poll chat = Some p ->
  poll_id p = pid ->
  poll_wf p ->
  stop_poll_ok w = true ->
  let ok := close_poll w chat_id pid flag_stop s in
  let ko := close_poll (stop_fails w) chat_id pid flag_stop s in
  store_of ko = store_of ok /\
  result_of ko = result_of ok /\
  exists rest,
    effects_of ok = EStopPoll chat_id (message_id p) :: rest /\
    effects_of ko = EStopPoll chat_id (message_id p) :: ELog Error :: rest /\
    length (filter is_send_message rest) = 1%nat.
Proof.
  intros Hc Ha Hid Hwf Hok ok ko.
  destruct (py_max_lowest_index (votes p) (proj1 Hwf))
    as (i & Hi & Hmax & _ & _).
  destruct (poll_wf_option p i Hwf Hi) as (line & Hidx & _ & _).
  pose proof (poll_wf_vote p i Hwf Hi) as Hn.
  pose proof (close_poll_matched w chat_id pid flag_stop s chat p (KInt i)
                line _ Hc Ha Hid Hmax Hidx Hn) as H1.
  pose proof (close_poll_matched (stop_fails w) chat_id pid flag_stop s chat p
                (KInt i) line _ Hc Ha Hid Hmax Hidx Hn) as H2.
  cbv zeta in H1, H2. unfold ok, ko. rewrite H1, H2, Hok.
  unfold store_of, result_of, effects_of; simpl fst; simpl snd.
  split; [reflexivity|]. split; [reflexivity|].
  eexists. split; [reflexivity|]. split; [reflexivity|].
  destruct (send_message_ok w), flag_stop; reflexivity.
Qed.

Lemma close_poll_survives_stop_failure_witness :
  store_of (close_poll (stop_fails calm_world) 7 (lit "poll-1") false
              tie_store)
  = store_of (close_poll calm_world 7 (lit "poll-1") false tie_store).
Proof.
  destruct (close_poll_survives_stop_failure calm_world 7 (lit "poll-1")
              false tie_store
              {| polls := []; active_poll := Some tie_poll |} tie_poll)
    as (H & _).
  - reflexivity.
  - reflexivity.
  - reflexivity.
  - unfold poll_wf, tie_poll; simpl. repeat split.
    + repeat constructor; simpl; lia.
    + repeat constructor; discriminate.
  - reflexivity.
  - exact H.
Defined.

(** [max] returns one of the elements. *)
Lemma py_max_In {A} (f : A -> Z) (l : list A) (x : A) :
  py_max f l = Some x -> In x l.
Proof.
  destruct l as [|a l]; simpl; [discriminate|].
  intros H. inversion H as [Hx]. clear H Hx.
  revert a. induction l as [|b l IH]; intros a; simpl; [auto|].
  destruct (f a <? f b).
  - destruct (IH b) as [H|H]; auto.
  - destruct (IH a) as [H|H]; auto.
Qed.

(** X8. When the votes of the active poll are keyed by strings (as in a
    store read back from the file) or its votes dictionary is empty,
    [close_poll] stops the Telegram poll and then raises while it looks
    for the winner: it logs the error and returns with the store as it
    was, so the poll stays active, nothing is archived or announced, and
    no next poll is chained. *)
Theorem close_poll_keeps_poll_when_winner_fails (w : World) (chat_id : Z)
    (pid : pystr) (flag_stop : bool) (s : Store) (chat : Chat)
    (p : PollData) :
  chat_get s (str_of_Z chat_id) = Some chat ->
  active_poll chat = Some p ->
  poll_id p = pid ->
  Forall (fun kv => exists t, fst kv = KStr t) (votes p) ->
  close_poll w chat_id pid flag_stop s =
  (Some false, s,
   EStopPoll chat_id (message_id p)
   :: (if stop_poll_ok w then [] else [ELog Error]) ++ [ELog Error]).
Proof.
  intros Hc Ha Hid Hkeys. subst pid.
  assert (Hwin : py_max (votes_get (votes p)) (map fst (votes p)) = None \/
                 exists k, py_max (votes_get (votes p)) (map fst (votes p))
                           = Some k /\
                           py_index (options p) k = None).
  { destruct (py_max (votes_get (votes p)) (map fst (votes p))) as [k|] eqn:E;
      [right | left; reflexivity].
    exists k. split; [reflexivity|].
    apply py_max_In in E. apply in_map_iff in E.
    destruct E as [kv [Hk Hin]].
    rewrite Forall_forall in Hkeys. destruct (Hkeys kv Hin) as [t Ht].
    rewrite <- Hk, Ht. reflexivity. }
  unfold close_poll, bot_stop_poll.
  destruct Hwin as [Hmax | (k & Hmax & Hidx)];
    destruct (stop_poll_ok w);
    meval ltac:(try rewrite Ha; try rewrite pystr_eqb_refl;
                try rewrite Hmax; try rewrite Hidx).
Qed.

Lemma close_poll_keeps_poll_when_winner_fails_witness :
  close_poll calm_world 7 (lit "poll-1") false reloaded_tie_store =
  (Some false, reloaded_tie_store, [EStopPoll 7 1; ELog Error]).
Proof.
  apply (close_poll_keeps_poll_when_winner_fails calm_world 7 (lit "poll-1")
           false reloaded_tie_store
           {| polls := []; active_poll := Some (reload_poll_data tie_poll) |}
           (reload_poll_data tie_poll)).
  - reflexivity.
  - reflexivity.
  - reflexivity.
  - simpl. repeat constructor; eexists; reflexivity.
Defined.

(** ** Counting votes *)

Lemma count_votes_unknown (ids : list Z) (vs : list (key * Z)) :
  (forall o, In o ids -> od_get key_eqb vs (KInt o) = None) ->
  count_votes vs ids = vs.
Proof.
  unfold count_votes. induction ids as [|o ids IH]; intros H; simpl;
    [reflexivity|].
  unfold count_vote at 2. rewrite (H o (or_introl eq_refl)).
  apply IH. intros o' Ho'. apply H. right. exact Ho'.
Qed.

(** X9. An answer that names no key of the votes of the active poll (a
    retracted vote with no option, option ids outside 0..3, or any answer
    for a poll whose votes are keyed by strings) changes no count and
    nothing else in the store; the handler still writes the storage file
    and logs. *)
Theorem answer_without_known_option_counts_nothing (pid : pystr)
    (option_ids : list Z) (pre : Store) (k : pystr) (chat : Chat)
    (p : PollData) (post : Store) :
  (forall k' c' q, In (k', c') pre -> active_poll c' = Some q ->
                   poll_id q <> pid) ->
  active_poll chat = Some p ->
  poll_id p = pid ->
  (forall o, In o option_ids -> od_get key_eqb (votes p) (KInt o) = None) ->
  let s := pre ++ (k, chat) :: post in
  poll_answer_handler pid option_ids s = (Some tt, s, [ESave s; ELog Info]).
Proof.
  intros Hpre Ha Hid Hun s.
  unfold poll_answer_handler, try_except, s.
  rewrite (answer_scan_first pid option_ids pre k chat p post Hpre Ha Hid).
  rewrite (count_votes_unknown option_ids (votes p) Hun).
  destruct chat as [pl ap]. simpl in Ha. subst ap. destruct p. reflexivity.
Qed.

Lemma answer_without_known_option_counts_nothing_witness :
  poll_answer_handler (lit "poll-1") [] tie_store =
  (Some tt, tie_store, [ESave tie_store; ELog Info]) /\
  poll_answer_handler (lit "poll-1") [0; 3] reloaded_tie_store =
  (Some tt, reloaded_tie_store, [ESave reloaded_tie_store; ELog Info]).
Proof.
  split.
  - apply (answer_without_known_option_counts_nothing (lit "poll-1") []
             [] (str_of_Z 7)
             {| polls := []; active_poll := Some tie_poll |} tie_poll []).
    + intros k' c' q [].
    + reflexivity.
    + reflexivity.
    + intros o [].
  - apply (answer_without_known_option_counts_nothing (lit "poll-1") [0; 3]
             [] (str_of_Z 7)
             {| polls := [];
                active_poll := Some (reload_poll_data tie_poll) |}
             (reload_poll_data tie_poll) []).
    + intros k' c' q [].
    + reflexivity.
    + reflexivity.
    + intros o [<-|[<-|[]]]; reflexivity.
Defined.

Lemma count_vote_cons (k : key) (v : Z) (t : list (key * Z)) (o : Z) :
  count_vote ((k, v) :: t) o =
  if key_eqb (KInt o) k then (k, v + 1) :: t else (k, v) :: count_vote t o.
Proof.
  unfold count_vote. cbn [od_get od_set].
  destruct (key_eqb (KInt o) k); [reflexivity|].
  destruct (od_get key_eqb t (KInt o)); reflexivity.
Qed.

Lemma count_vote_comm (vs : list (key * Z)) (a b : Z) :
  count_vote (count_vote vs a) b = count_vote (count_vote vs b) a.
Proof.
  induction vs as [|[k v] t IH]; [reflexivity|].
  rewrite (count_vote_cons k v t a), (count_vote_cons k v t b).
  destruct (key_eqb (KInt a) k) eqn:Ea, (key_eqb (KInt b) k) eqn:Eb;
    rewrite !count_vote_cons, ?Ea, ?Eb; try reflexivity.
  rewrite IH. reflexivity.
Qed.

Lemma count_votes_vote (ids : list Z) (vs : list (key * Z)) (o : Z) :
  count_votes (count_vote vs o) ids = count_vote (count_votes vs ids) o.
Proof.
  unfold count_votes. revert vs.
  induction ids as [|a ids IH]; intros vs; simpl; [reflexivity|].
  rewrite <- IH. rewrite count_vote_comm. reflexivity.
Qed.

Lemma count_votes_comm (a b : list Z) (vs : list (key * Z)) :
  count_votes (count_votes vs a) b = count_votes (count_votes vs b) a.
Proof.
  revert vs. induction a as [|o a IH]; intros vs; [reflexivity|].
  change (count_votes vs (o :: a)) with (count_votes (count_vote vs o) a).
  rewrite IH.
  change (count_votes (count_votes vs b) (o :: a))
    with (count_votes (count_vote (count_votes vs b) o) a).
  rewrite count_votes_vote. reflexivity.
Qed.

Lemma store_of_poll_answer (pid : pystr) (ids : list Z) (s : Store) :
  store_of (poll_answer_handler pid ids s) = after_answer pid ids s.
Proof.
  unfold poll_answer_handler, try_except, after_answer.
  destruct (answer_scan pid ids s); reflexivity.
Qed.

Lemma after_answer_cons (pid : pystr) (ids : list Z) (k : pystr)
    (ch : Chat) (t : Store) :
  after_answer pid ids ((k, ch) :: t) =
  match active_poll ch with
  | Some p =>
      if pystr_eqb (poll_id p) pid then
        (k, {| polls := polls ch;
               active_poll := Some (with_votes p (count_votes (votes p) ids)) |})
        :: t
      else (k, ch) :: after_answer pid ids t
  | None => (k, ch) :: after_answer pid ids t
  end.
Proof.
  unfold after_answer. simpl.
  destruct (active_poll ch) as [p|].
  - destruct (pystr_eqb (poll_id p) pid); [reflexivity|].
    destruct (answer_scan pid ids t); reflexivity.
  - destruct (answer_scan pid ids t); reflexivity.
Qed.

Lemma after_answer_comm (pid1 pid2 : pystr) (ids1 ids2 : list Z) (s : Store) :
  after_answer pid2 ids2 (after_answer pid1 ids1 s) =
  after_answer pid1 ids1 (after_answer pid2 ids2 s).
Proof.
  induction s as [|[k ch] t IH]; [reflexivity|].
  rewrite (after_answer_cons pid1 ids1 k ch t),
          (after_answer_cons pid2 ids2 k ch t).
  destruct (active_poll ch) as [p|] eqn:Ha.
  - destruct (pystr_eqb (poll_id p) pid1) eqn:E1,
             (pystr_eqb (poll_id p) pid2) eqn:E2;
      rewrite !after_answer_cons; simpl; rewrite ?Ha, ?E1, ?E2; simpl.
    + rewrite count_votes_comm. reflexivity.
    + reflexivity.
    + reflexivity.
    + rewrite IH. reflexivity.
  - rewrite !after_answer_cons, Ha, IH. reflexivity.
Qed.

(** X10. Two poll answers commute: handled in either order they leave the
    same store, whether they are for the same poll or for polls of
    different chats. *)
Theorem poll_answers_commute (pid1 pid2 : pystr) (ids1 ids2 : list Z)
    (s : Store) :
  store_of (poll_answer_handler pid2 ids2
              (store_of (poll_answer_handler pid1 ids1 s))) =
  store_of (poll_answer_handler pid1 ids1
              (store_of (poll_answer_handler pid2 ids2 s))).
Proof. rewrite !store_of_poll_answer. apply after_answer_comm. Qed.

(** ** More on the candidate generator *)

Lemma lstrip_In (s : pystr) (c : N) : In c (lstrip s) -> In c s.
Proof.
  induction s as [|x s IH]; simpl; [tauto|].
  destruct (isspace x); simpl; auto.
Qed.

Lemma strip_In (s : pystr) (c : N) : In c (strip s) -> In c s.
Proof.
  unfold strip. intros H.
  apply in_rev in H. apply lstrip_In in H. apply in_rev in H.
  apply lstrip_In in H. exact H.
Qed.

Lemma split_nl_no_newline (s cur seg : pystr) :
  ~ In 10%N cur -> In seg (split_nl cur s) -> ~ In 10%N seg.
Proof.
  revert cur. induction s as [|c s IH]; intros cur Hcur; simpl.
  - intros [<-|[]] H. apply in_rev in H. contradiction.
  - destruct (N.eqb_spec c 10) as [->|Hne].
    + intros [<-|H].
      * intros H'. apply in_rev in H'. contradiction.
      * apply (IH []); [simpl; tauto | exact H].
    + apply IH. simpl. intros [H|H]; [congruence | contradiction].
Qed.

Lemma placeholder_one_line (k : nat) (x : pystr) :
  (k <= 4)%nat -> In x (map placeholder (seq (k + 1) (4 - k))) ->
  startswith fence x = false /\ ~ In 10%N x.
Proof.
  intros Hk Hin.
  destruct k as [|[|[|[|[|k]]]]]; try lia; simpl in Hin;
    repeat (destruct Hin as [<-|Hin];
            [split; [reflexivity | vm_compute; intuition discriminate]|]);
    contradiction.
Qed.

(** The lines kept from the answer passed both filters. *)
Lemma generate_code_options_kept (c0 : N) (resp : pystr)
    (code_history : list pystr) :
  let lines :=
    filter (fun line => negb (startswith fence line)
                        && Nat.leb (length line) 95)
      (map strip (filter (fun line => negb (falsy (strip line)))
                         (split_nl [] (c0 :: resp)))) in
  exists kept,
    generate_code_options (c0 :: resp) code_history =
    kept ++ map placeholder (seq (length kept + 1) (4 - length kept)) /\
    (length kept <= 4)%nat /\ kept = take_unique lines [] /\
    forall x, In x kept -> In x lines.
Proof.
  intros lines. unfold generate_code_options. simpl falsy. cbv iota.
  fold lines.
  pose proof (take_unique_spec lines [] (NoDup_nil _)) as Hu.
  simpl in Hu. specialize (Hu ltac:(lia)).
  destruct Hu as (Hnd & Hlen & Hsrc).
  exists (take_unique lines []). split; [|split; [exact Hlen | split; [reflexivity|]]].
  - cbv zeta. rewrite pad_options_spec. apply firstn_all2.
    rewrite length_app, length_map, length_seq. lia.
  - intros x Hx. destruct (Hsrc x Hx) as [[]|H]. exact H.
Qed.

(** X11. Whatever the model answers, no option [generate_code_options]
    returns starts with three backquotes, and none contains the line feed
    character U+000A, the separator the answer is split at.  (Other line
    separators, such as a carriage return inside a line of the answer, are
    not removed by the code and may remain in an option.) *)
Theorem options_hold_no_line_feed_and_no_fence (response : pystr)
    (code_history : list pystr) :
  Forall (fun o => startswith fence o = false /\ ~ In 10%N o)
         (generate_code_options response code_history).
Proof.
  destruct response as [|c0 resp].
  - unfold generate_code_options. simpl.
    destruct code_history; unfold fallback_first, fallback_next;
      repeat constructor; vm_compute; intuition discriminate.
  - destruct (generate_code_options_kept c0 resp code_history)
      as (kept & -> & Hlen & _ & Hin).
    apply Forall_forall. intros x Hx. apply in_app_or in Hx.
    destruct Hx as [Hx|Hx].
    + specialize (Hin x Hx). apply filter_In in Hin.
      destruct Hin as [Hin Hf]. apply andb_true_iff in Hf.
      destruct Hf as [Hf _]. apply negb_true_iff in Hf.
      split; [exact Hf|].
      apply in_map_iff in Hin. destruct Hin as [raw [<- Hraw]].
      apply filter_In in Hraw. destruct Hraw as [Hraw _].
      intros H. apply strip_In in H.
      apply (split_nl_no_newline (c0 :: resp) [] raw); auto.
    + apply (placeholder_one_line (length kept) x Hlen Hx).
Qed.

Lemma split_nl_line (line cur rest : pystr) :
  ~ In 10%N line ->
  split_nl cur (line ++ rest) = split_nl (rev line ++ cur) rest.
Proof.
  revert cur. induction line as [|c line IH]; intros cur Hno; [reflexivity|].
  simpl. destruct (N.eqb_spec c 10) as [->|Hne].
  - exfalso. apply Hno. simpl. auto.
  - rewrite IH by (intros H; apply Hno; simpl; auto).
    rewrite <- app_assoc. reflexivity.
Qed.

(** Splitting what [join] built gives the lines back. *)
Lemma split_join_nl (ls : list pystr) :
  ls <> [] -> Forall (fun l => ~ In 10%N l) ls ->
  split_nl [] (join_nl ls) = ls.
Proof.
  induction ls as [|l ls IH]; intros Hne Hall; [contradiction|].
  inversion Hall as [|x xs Hl Hls]; subst.
  destruct ls as [|l' ls].
  - simpl. rewrite <- (app_nil_r l) at 1.
    rewrite (split_nl_line l [] [] Hl). simpl.
    rewrite app_nil_r, rev_involutive. reflexivity.
  - change (join_nl (l :: l' :: ls)) with (l ++ 10%N :: join_nl (l' :: ls)).
    rewrite (split_nl_line l [] _ Hl). simpl split_nl.
    rewrite app_nil_r, rev_involutive. f_equal.
    apply IH; [discriminate | exact Hls].
Qed.

Lemma lstrip_clean (s : pystr) :
  (forall c t, s = c :: t -> isspace c = false) -> lstrip s = s.
Proof.
  destruct s as [|c t]; [reflexivity|]. intros H. simpl.
  rewrite (H c t eq_refl). reflexivity.
Qed.

Lemma strip_clean (line : pystr) : clean line -> strip line = line.
Proof.
  intros (_ & _ & Hhead & Hlast & _). unfold strip.
  rewrite (lstrip_clean line Hhead), (lstrip_clean (rev line) Hlast).
  apply rev_involutive.
Qed.

Lemma filter_all {A} (f : A -> bool) (l : list A) :
  Forall (fun x => f x = true) l -> filter f l = l.
Proof.
  induction 1 as [|x l Hx _ IH]; simpl; [reflexivity|].
  rewrite Hx, IH. reflexivity.
Qed.

Lemma map_strip_clean (ls : list pystr) :
  Forall clean ls -> map strip ls = ls.
Proof.
  induction 1 as [|x l Hx _ IH]; simpl; [reflexivity|].
  rewrite (strip_clean x Hx), IH. reflexivity.
Qed.

(** On lines without duplicates the loop keeps the first ones, up to
    four in all. *)
Lemma take_unique_NoDup (ls acc : list pystr) :
  NoDup (acc ++ ls) -> (length acc < 4)%nat ->
  take_unique ls acc = acc ++ firstn (4 - length acc) ls.
Proof.
  revert acc. induction ls as [|l ls IH]; intros acc Hnd Hlen;
    cbn [take_unique].
  - rewrite firstn_nil, app_nil_r. reflexivity.
  - assert (Hmem : mem l acc = false).
    { destruct (mem l acc) eqn:E; [|reflexivity].
      apply mem_In in E. exfalso.
      apply NoDup_remove_2 in Hnd. apply Hnd.
      apply in_or_app. left. exact E. }
    rewrite Hmem.
    destruct (Nat.eqb_spec (length (acc ++ [l])) 4) as [H4|H4].
    + rewrite length_app in H4. simpl in H4.
      replace (4 - length acc)%nat with 1%nat by lia. reflexivity.
    + rewrite length_app in H4. simpl in H4.
      rewrite IH.
      * rewrite length_app. cbn [length]. rewrite <- app_assoc.
        replace (4 - length acc)%nat with (S (4 - (length acc + 1)))%nat by lia.
        reflexivity.
      * rewrite <- app_assoc. exact Hnd.
      * rewrite length_app. simpl. lia.
Qed.

(** X12. When the model answers with lines that are clean (one line each,
    not empty, no white space at the ends, no fence, at most 95
    characters) and pairwise distinct, separated by line breaks,
    [generate_code_options] returns the first four of them in order; when
    there are fewer than four, they are followed by the placeholders that
    number the missing options. *)
Theorem clean_answer_is_offered_as_it_is (ls code_history : list pystr) :
  ls <> [] -> NoDup ls -> Forall clean ls ->
  generate_code_options (join_nl ls) code_history =
  firstn 4 ls ++
  map placeholder (seq (length (firstn 4 ls) + 1) (4 - length (firstn 4 ls))).
Proof.
  intros Hne Hnd Hclean.
  assert (Hj : exists c0 resp, join_nl ls = c0 :: resp).
  { destruct ls as [|l ls]; [contradiction|].
    inversion Hclean as [|x xs (Hl & _) _]; subst.
    destruct l as [|c0 l]; [contradiction|].
    destruct ls; simpl; eauto. }
  destruct Hj as (c0 & resp & Hj).
  destruct (generate_code_options_kept c0 resp code_history)
    as (kept & Hr & _ & Hkept & _).
  rewrite Hj, Hr. rewrite <- Hj in Hkept.
  assert (Hsplit : split_nl [] (join_nl ls) = ls).
  { apply split_join_nl; [exact Hne|].
    apply Forall_forall. intros l Hl. rewrite Forall_forall in Hclean.
    apply (Hclean l Hl). }
  rewrite Hsplit in Hkept.
  rewrite (filter_all _ ls) in Hkept.
  2:{ apply Forall_forall. intros l Hl. rewrite Forall_forall in Hclean.
      rewrite (strip_clean l (Hclean l Hl)).
      destruct (Hclean l Hl) as (Hl0 & _). destruct l; [contradiction|].
      reflexivity. }
  rewrite (map_strip_clean ls Hclean) in Hkept.
  rewrite (filter_all _ ls) in Hkept.
  2:{ apply Forall_forall. intros l Hl. rewrite Forall_forall in Hclean.
      destruct (Hclean l Hl) as (_ & _ & _ & _ & Hf & Hlen).
      rewrite Hf. simpl. apply Nat.leb_le. exact Hlen. }
  rewrite (take_unique_NoDup ls [] Hnd) in Hkept by (simpl; lia).
  simpl in Hkept. subst kept. reflexivity.
Qed.

Lemma clean_answer_is_offered_as_it_is_witness :
  generate_code_options (join_nl [lit "x = 1"; lit "print(x)"]) [] =
  [lit "x = 1"; lit "print(x)"; placeholder 3; placeholder 4].
Proof.
  apply (clean_answer_is_offered_as_it_is [lit "x = 1"; lit "print(x)"] []).
  - discriminate.
  - repeat constructor; simpl; intuition discriminate.
  - repeat constructor; try discriminate;
      try (vm_compute; intuition discriminate);
      try (intros c t H; inversion H; reflexivity);
      try (vm_compute; lia).
Defined.

(** ** [complete_code] *)

Lemma drop_fences_filter (lines : list pystr) (in_code_block : bool)
    (code_lines : list pystr) :
  drop_fences lines in_code_block code_lines =
  code_lines ++
  filter (fun line => negb (startswith fence (strip line))) lines.
Proof.
  revert in_code_block code_lines.
  induction lines as [|line rest IH]; intros b acc;
    cbn [drop_fences filter].
  - rewrite app_nil_r. reflexivity.
  - destruct (startswith fence (strip line)); cbn [negb].
    + apply IH.
    + rewrite orb_true_r, IH, <- app_assoc. reflexivity.
Qed.

(** X13. [complete_code] answers ["# Empty code"] for an empty history
    without looking at the model, and the history followed by an indented
    [pass] when the model gave nothing.  Otherwise it returns the answer
    of the model without its fence lines, stripped: the flag
    [in_code_block] has no influence, so the lines outside a fenced block
    are kept together with the lines inside. *)
Theorem complete_code_drops_fence_lines_only (response : pystr)
    (code_history : list pystr) :
  complete_code response [] = lit "# Empty code" /\
  (code_history <> [] ->
   complete_code [] code_history =
   join_nl code_history ++ 10%N :: lit "    pass") /\
  (code_history <> [] -> response <> [] ->
   complete_code response code_history =
   strip (join_nl (filter (fun line => negb (startswith fence (strip line)))
                          (split_nl [] response)))).
Proof.
  split; [reflexivity|]. split.
  - intros Hh. destruct code_history; [contradiction | reflexivity].
  - intros Hh Hr. destruct code_history; [contradiction|].
    destruct response; [contradiction|].
    unfold complete_code. simpl falsy. cbv iota zeta.
    rewrite drop_fences_filter. reflexivity.
Qed.

Lemma complete_code_drops_fence_lines_only_witness :
  complete_code
    (join_nl [lit "Here is the code:"; lit "```python"; lit "x = 1";
              lit "```"])
    [lit "x = 1"]
  = join_nl [lit "Here is the code:"; lit "x = 1"].
Proof.
  destruct (complete_code_drops_fence_lines_only
              (join_nl [lit "Here is the code:"; lit "```python";
                        lit "x = 1"; lit "```"])
              [lit "x = 1"]) as (_ & _ & H).
  rewrite H; [reflexivity | discriminate | discriminate].
Defined.

(** ** Commands *)

Lemma get_code_history_eval (c : pystr) (s : Store) :
  get_code_history c s =
  (Some (history_of s c), store_of (get_chat c s), effects_of (get_chat c s)).
Proof.
  unfold history_of, polls_of. destruct (chat_get s c) as [ch|] eqn:Hc.
  - rewrite (get_code_history_found s c ch Hc), (get_chat_found s c ch Hc).
    reflexivity.
  - rewrite (get_code_history_missing s c Hc), (get_chat_missing s c Hc).
    reflexivity.
Qed.

(** X14. [/sendnow] from an administrator while the chat has an active
    poll is refused: the reply says that a poll is active, no poll is sent
    to Telegram, and the store is not touched (not even written). *)
Theorem sendnow_refused_while_poll_is_active (T : Z) (admins : list Z)
    (w : World) (user_id chat_id : Z) (s : Store) (chat : Chat)
    (q : PollData) :
  is_admin admins user_id = true ->
  chat_get s (str_of_Z chat_id) = Some chat ->
  active_poll chat = Some q ->
  let r := sendnow_command T admins w user_id chat_id s in
  store_of r = s /\
  effects_of r =
    EReply AlreadyActive
    :: (if reply_ok w then [] else [ELog Error; EReply ErrorText]).
Proof.
  intros Hadm Hc Ha r. unfold r, sendnow_command, check_admin, on_error,
    reply_text.
  rewrite Hadm.
  destruct (reply_ok w).
  - assert (H : forall X, X = (Some tt, s, [EReply AlreadyActive]) ->
                store_of X = s /\ effects_of X = [EReply AlreadyActive])
      by (intros X ->; split; reflexivity).
    apply H. meval ltac:(try rewrite Ha).
  - assert (H : forall X,
                X = (@None unit, s,
                     [EReply AlreadyActive; ELog Error; EReply ErrorText]) ->
                store_of X = s /\
                effects_of X =
                  [EReply AlreadyActive; ELog Error; EReply ErrorText])
      by (intros X ->; split; reflexivity).
    apply H. meval ltac:(try rewrite Ha).
Qed.

Lemma sendnow_refused_while_poll_is_active_witness :
  store_of (sendnow_command 300 [1] calm_world 1 7 tie_store) = tie_store.
Proof.
  destruct (sendnow_refused_while_poll_is_active 300 [1] calm_world 1 7
              tie_store {| polls := []; active_poll := Some tie_poll |}
              tie_poll) as (H & _).
  - reflexivity.
  - reflexivity.
  - reflexivity.
  - exact H.
Defined.

Lemma reader_ret {A} (a : A) : reader (ret a).
Proof. intros s. simpl. auto. Qed.

Lemma reader_raise {A} : reader (@raise A).
Proof. intros s. simpl. auto. Qed.

Lemma reader_emit (e : effect) : gateway_call e = false -> reader (emit e).
Proof. intros He s. simpl. rewrite He. auto. Qed.

Lemma reader_bind {A B} (m : M A) (f : A -> M B) :
  reader m -> (forall a, reader (f a)) -> reader (bind m f).
Proof.
  intros Hm Hf s. unfold bind. specialize (Hm s).
  destruct (m s) as [[[a|] s1] e1]; [|exact Hm].
  destruct Hm as [H1 E1]. specialize (Hf a s1).
  destruct (f a s1) as [[r s2] e2]. destruct Hf as [H2 E2].
  split.
  - intros c'. destruct (H1 c') as [A1 B1]. destruct (H2 c') as [A2 B2].
    split; congruence.
  - rewrite forallb_app, E1, E2. reflexivity.
Qed.

Lemma reader_try {A} (body handler : M A) :
  reader body -> reader handler -> reader (try_except body handler).
Proof.
  intros Hb Hh s. unfold try_except. specialize (Hb s).
  destruct (body s) as [[[a|] s1] e1]; [exact Hb|].
  destruct Hb as [H1 E1]. specialize (Hh s1).
  destruct (handler s1) as [[r s2] e2]. destruct Hh as [H2 E2].
  split.
  - intros c'. destruct (H1 c') as [A1 B1]. destruct (H2 c') as [A2 B2].
    split; congruence.
  - rewrite forallb_app, E1, E2. reflexivity.
Qed.

Lemma reader_reply_text (w : World) (r : reply) : reader (reply_text w r).
Proof.
  unfold reply_text. apply reader_bind; [apply reader_emit; reflexivity|].
  intros _. destruct (reply_ok w); [apply reader_ret | apply reader_raise].
Qed.

Lemma reader_get_chat (c : pystr) : reader (get_chat c).
Proof.
  intros s. destruct (get_chat_frame c s) as [Hframe Heff].
  destruct (get_chat c s) as [[r s'] es].
  unfold store_of, effects_of in *; simpl in *.
  split; [exact Hframe|]. destruct Heff as [-> | ->]; reflexivity.
Qed.

Lemma reader_get_code_history (c : pystr) : reader (get_code_history c).
Proof.
  unfold get_code_history. apply reader_bind; [apply reader_get_chat|].
  intros ch. apply reader_ret.
Qed.

Ltac reader_solve :=
  repeat first
    [ apply reader_ret | apply reader_raise | apply reader_reply_text
    | apply reader_get_chat | apply reader_get_code_history
    | (apply reader_emit; reflexivity)
    | (apply reader_bind; [|intros ?])
    | apply reader_try
    | match goal with
      | |- reader (match ?x with _ => _ end) => destruct x
      end ].

(** X15. The commands that run no administrator action ([/code],
    [/code_completed], [/health], and [/start] or [/sendnow] from a user
    who is not an administrator) leave the archive and the active poll of
    every chat as they are, and send no poll, stop no poll, announce no
    result and schedule no timer; at most they create the empty entry of a
    chat that had none. *)
Theorem commands_of_non_admins_change_no_poll (T : Z) (admins : list Z)
    (ev : event) (s : Store) :
  read_only admins ev = true ->
  let r := handle T admins ev s in
  (forall c, polls_of (store_of r) c = polls_of s c /\
             history_of (store_of r) c = history_of s c /\
             active_of (store_of r) c = active_of s c) /\
  forallb (fun e => negb (gateway_call e)) (effects_of r) = true.
Proof.
  intros Hro r.
  assert (H : reader (handle T admins ev)).
  { assert (Hforget : forall A (m : M A), reader m -> reader (forget m)).
    { intros A m Hm s0. specialize (Hm s0). unfold forget.
      destruct (m s0) as [[x s'] es]. exact Hm. }
    destruct ev; simpl in Hro; try discriminate; simpl; apply Hforget.
    - apply negb_true_iff in Hro.
      unfold start_command, on_error. rewrite Hro. cbv beta iota.
      reader_solve.
    - unfold code_command, on_error. reader_solve.
    - unfold code_completed_command, check_admin, on_error. reader_solve.
    - apply negb_true_iff in Hro. intros s0.
      unfold sendnow_command, check_admin, reply_text, bind, emit.
      rewrite Hro. destruct (reply_ok w); simpl; auto.
    - unfold health_command, check_admin, on_error. reader_solve. }
  specialize (H s). fold r in H. destruct r as [[x s'] es].
  unfold store_of, effects_of; simpl. destruct H as [H E].
  split; [|exact E]. intros c. destruct (H c) as [Hp Hact].
  unfold history_of. rewrite Hp. auto.
Qed.

Lemma commands_of_non_admins_change_no_poll_witness :
  active_of (store_of (handle 300 [1] (SendNow calm_world 2 7) tie_store))
            (str_of_Z 7)
  = active_of tie_store (str_of_Z 7).
Proof.
  destruct (commands_of_non_admins_change_no_poll 300 [1]
              (SendNow calm_world 2 7) tie_store) as (H & _).
  - reflexivity.
  - apply H.
Defined.

Lemma start_command_admin_eval (T : Z) (admins : list Z) (w : World)
    (user_id chat_id : Z) (args : start_arg) (s : Store) (pid : pystr)
    (mid : Z) :
  is_admin admins user_id = true ->
  args <> BadArg ->
  reply_ok w = true ->
  send_poll_result w = Some (pid, mid) ->
  let target := start_target chat_id args in
  let c := str_of_Z target in
  exists es,
    start_command T admins w user_id chat_id args s =
    (Some tt,
     chat_set s c {| polls := [];
                     active_poll := Some (new_poll T w pid mid []) |},
     es) /\
    In (ESendPoll target 1 (generate_code_options (llm_response w) [])) es /\
    (history_of s c <> [] -> In (EReply CompletedFile) es).
Proof.
  intros Hadm Harg Hrep Hr target c.
  pose proof (get_code_history_eval c s) as Hh.
  set (s1 := store_of (get_chat c s)) in *.
  set (e1 := effects_of (get_chat c s)) in *.
  set (s2 := chat_set s1 c new_chat).
  assert (Hs2 : s2 = chat_set s c new_chat).
  { unfold s2, s1, get_chat. destruct (chat_get s c); unfold store_of; simpl;
      [reflexivity | apply chat_set_set]. }
  pose proof (send_poll_eval T w target s2) as Hsp. cbv zeta in Hsp.
  rewrite Hr in Hsp. fold c in Hsp.
  assert (Hg2 : chat_get s2 c = Some new_chat) by apply chat_get_set_same.
  rewrite (get_chat_found s2 c new_chat Hg2) in Hsp.
  unfold history_of, polls_of in Hsp. rewrite Hg2 in Hsp.
  unfold effects_of in Hsp. simpl in Hsp.
  unfold s2 at 2 3 in Hsp. rewrite !chat_set_set in Hsp.
  assert (Hs3 : chat_set s1 c {| polls := [];
                                 active_poll := Some (new_poll T w pid mid []) |}
                = chat_set s c {| polls := [];
                                  active_poll := Some (new_poll T w pid mid []) |}).
  { unfold s1, get_chat. destruct (chat_get s c); unfold store_of; simpl;
      [reflexivity | apply chat_set_set]. }
  change (winners []) with (@nil pystr) in Hsp. rewrite Hs3 in Hsp.
  assert (Htarget :
            match args with
            | NoArg => Some chat_id
            | ChatArg t => Some t
            | BadArg => None
            end = Some target).
  { destruct args; [reflexivity | contradiction | reflexivity]. }
  unfold start_command, on_error, reply_text. rewrite Hadm, Htarget, Hrep.
  fold c.
  destruct (history_of s c) as [|l ls] eqn:Hhist.
  - eexists. split; [meval idtac|].
    split; [|intros H; contradiction].
    rewrite !in_app_iff. simpl. tauto.
  - eexists. split; [meval idtac|].
    split; [|intros _]; rewrite !in_app_iff; simpl; tauto.
Qed.

(** X16. [/start] from an administrator restarts the chat it names (the
    chat given as argument, or the chat of the command): when the replies
    are delivered and Telegram accepts the poll, the chat ends with an
    empty archive and history and with a new active poll whose options
    were generated for an empty program, asked as line 1.  The completed
    code of a chat that had lines is sent in the same run, and no other
    chat is touched. *)
Theorem start_by_admin_restarts_the_chat (T : Z) (admins : list Z)
    (w : World) (user_id chat_id : Z) (args : start_arg) (s : Store)
    (pid : pystr) (mid : Z) :
  is_admin admins user_id = true ->
  args <> BadArg ->
  reply_ok w = true ->
  send_poll_result w = Some (pid, mid) ->
  let target := start_target chat_id args in
  let c := str_of_Z target in
  let r := start_command T admins w user_id chat_id args s in
  result_of r = Some tt /\
  polls_of (store_of r) c = [] /\
  history_of (store_of r) c = [] /\
  active_of (store_of r) c = Some (new_poll T w pid mid []) /\
  (forall c', c <> c' -> chat_get (store_of r) c' = chat_get s c') /\
  In (ESendPoll target 1 (generate_code_options (llm_response w) []))
     (effects_of r) /\
  (history_of s c <> [] -> In (EReply CompletedFile) (effects_of r)).
Proof.
  intros Hadm Harg Hrep Hr target c r.
  destruct (start_command_admin_eval T admins w user_id chat_id args s pid mid
              Hadm Harg Hrep Hr) as (es & Heq & Hin & Hdone).
  fold target c in Heq, Hin, Hdone. unfold r. rewrite Heq.
  unfold result_of, store_of, effects_of; simpl fst; simpl snd.
  split; [reflexivity|]. split; [apply polls_of_set|].
  split; [unfold history_of; rewrite polls_of_set; reflexivity|].
  split; [apply active_of_set|].
  split; [intros c' Hne; apply chat_get_set_other; exact Hne|].
  split; assumption.
Qed.

Lemma start_by_admin_restarts_the_chat_witness :
  history_of (store_of (start_command 300 [1] calm_world 1 7 NoArg
                          session_store)) (str_of_Z 7) = [].
Proof.
  destruct (start_by_admin_restarts_the_chat 300 [1] calm_world 1 7 NoArg
              session_store (lit "poll-2") 2) as (_ & _ & H & _).
  - reflexivity.
  - discriminate.
  - reflexivity.
  - reflexivity.
  - exact H.
Defined.

(** X17. [/start] from an administrator gives up without clearing
    anything in two cases: when its argument is not a number, and when the
    chat has lines but the first message about the completed code cannot
    be delivered.  In both the store is left as it was, no poll is sent,
    and the history is still there. *)
Theorem start_by_admin_aborts_without_clearing (T : Z) (admins : list Z)
    (w : World) (user_id chat_id : Z) (args : start_arg) (s : Store) :
  is_admin admins user_id = true ->
  (args = BadArg \/
   (history_of s (str_of_Z (start_target chat_id args)) <> [] /\
    reply_ok w = false)) ->
  let r := start_command T admins w user_id chat_id args s in
  store_of r = s /\
  filter is_save (effects_of r) = [] /\
  filter is_send_poll (effects_of r) = [] /\
  exists first,
    effects_of r =
    EReply first
    :: (if reply_ok w then [] else [ELog Error; EReply ErrorText]).
Proof.
  intros Hadm Hcase r.
  assert (H : exists first,
            start_command T admins w user_id chat_id args s =
            (if reply_ok w then Some tt else None, s,
             EReply first
             :: (if reply_ok w then [] else [ELog Error; EReply ErrorText]))).
  { assert (Hbad : exists first,
              start_command T admins w user_id chat_id BadArg s =
              (if reply_ok w then Some tt else None, s,
               EReply first
               :: (if reply_ok w then [] else [ELog Error; EReply ErrorText]))).
    { exists BadChatId.
      unfold start_command, on_error, reply_text. rewrite Hadm.
      destruct (reply_ok w); meval idtac. }
    destruct Hcase as [-> | [Hhist Hrep]]; [exact Hbad|].
    destruct args as [| |target]; [|exact Hbad|];
      exists Completing; unfold start_target in Hhist;
      match type of Hhist with
      | history_of s ?c0 <> [] => set (c := c0) in *
      end;
      (assert (Hc : exists ch, chat_get s c = Some ch)
        by (unfold history_of, polls_of in Hhist;
            destruct (chat_get s c) as [ch|]; [eauto | contradiction]));
      destruct Hc as [ch Hc];
      pose proof (get_code_history_found s c ch Hc) as Hh;
      (assert (Hne : winners (polls ch) <> [])
        by (unfold history_of, polls_of in Hhist; rewrite Hc in Hhist;
            exact Hhist));
      destruct (winners (polls ch)) as [|l ls] eqn:Hw; try contradiction;
      unfold start_command, on_error, reply_text; rewrite Hadm, Hrep;
      fold c; meval idtac. }
  destruct H as [first H]. unfold r. rewrite H.
  unfold store_of, effects_of; simpl fst; simpl snd.
  split; [reflexivity|].
  split; [destruct (reply_ok w); reflexivity|].
  split; [destruct (reply_ok w); reflexivity|].
  exists first. reflexivity.
Qed.

Lemma start_by_admin_aborts_without_clearing_witness :
  store_of (start_command 300 [1] calm_world 1 7 BadArg session_store)
  = session_store.
Proof.
  destruct (start_by_admin_aborts_without_clearing 300 [1] calm_world 1 7
              BadArg session_store) as (H & _).
  - reflexivity.
  - left. reflexivity.
  - exact H.
Defined.

(** ** Restarting from the storage file *)

Section ODictFold.
Variables (K V : Type) (eqb : K -> K -> bool).
Hypothesis eqb_eq : forall a b, eqb a b = true <-> a = b.

Lemma od_set_absent (d : list (K * V)) (k : K) (v : V) :
  ~ In k (map fst d) -> od_set eqb d k v = d ++ [(k, v)].
Proof.
  induction d as [|[k' v'] d IH]; simpl; intros H; [reflexivity|].
  rewrite (eqb_diff _ eqb eqb_eq k k') by (intros E; apply H; auto).
  rewrite IH by tauto. reflexivity.
Qed.

(** Filling a dictionary entry by entry from a list without repeated keys
    gives the entries in the order of the list. *)
Lemma fold_od_set_map (g : V -> V) (d acc : list (K * V)) :
  NoDup (map fst (acc ++ d)) ->
  fold_left (fun a kv => od_set eqb a (fst kv) (g (snd kv))) d acc =
  acc ++ map (fun kv => (fst kv, g (snd kv))) d.
Proof.
  revert acc. induction d as [|[k v] d IH]; intros acc Hnd; simpl.
  - rewrite app_nil_r. reflexivity.
  - rewrite od_set_absent.
    + rewrite IH.
      * rewrite <- app_assoc. reflexivity.
      * rewrite <- app_assoc. simpl.
        rewrite map_app in *. simpl in *. exact Hnd.
    + rewrite map_app in Hnd. simpl in Hnd.
      apply NoDup_remove_2 in Hnd. intros H. apply Hnd.
      apply in_or_app. left. exact H.
Qed.

Lemma od_set_keys_Forall (Q : K -> Prop) (d : list (K * V)) (k : K) (v : V) :
  Forall (fun kv => Q (fst kv)) d -> Q k ->
  Forall (fun kv => Q (fst kv)) (od_set eqb d k v).
Proof.
  intros Hd Hk. induction Hd as [|[k' v'] d Hk' Hd IH]; simpl.
  - constructor; auto.
  - destruct (eqb k k'); constructor; auto.
Qed.
End ODictFold.

Lemma reload_votes_shape (vs : list (key * Z)) :
  Forall (fun kv => str_key (fst kv)) (reload_votes vs) /\
  NoDup (map fst (reload_votes vs)).
Proof.
  unfold reload_votes.
  assert (H : forall acc,
            Forall (fun kv => str_key (fst kv)) acc /\ NoDup (map fst acc) ->
            Forall (fun kv => str_key (fst kv))
              (fold_left (fun d kv =>
                            od_set key_eqb d (KStr (key_name (fst kv))) (snd kv))
                         vs acc) /\
            NoDup (map fst
              (fold_left (fun d kv =>
                            od_set key_eqb d (KStr (key_name (fst kv))) (snd kv))
                         vs acc))).
  { induction vs as [|[k n] vs IH]; intros acc [Hs Hn]; simpl; [auto|].
    apply IH. split.
    - apply od_set_keys_Forall; [exact Hs | eexists; reflexivity].
    - apply od_set_NoDup; [apply key_eqb_eq | exact Hn]. }
  apply H. split; constructor.
Qed.

Lemma reload_votes_fixed (vs : list (key * Z)) :
  Forall (fun kv => str_key (fst kv)) vs -> NoDup (map fst vs) ->
  reload_votes vs = vs.
Proof.
  intros Hs Hn. unfold reload_votes.
  assert (Hf : forall acc,
            fold_left (fun d kv =>
                         od_set key_eqb d (KStr (key_name (fst kv))) (snd kv))
                      vs acc =
            fold_left (fun a kv => od_set key_eqb a (fst kv) (snd kv)) vs acc).
  { induction Hs as [|[k n] vs [t Hk] Hs IH]; intros acc; [reflexivity|].
    simpl in Hk. subst k. simpl. inversion Hn; subst. apply IH. assumption. }
  rewrite Hf.
  rewrite (fold_od_set_map _ _ key_eqb key_eqb_eq (fun n => n) vs [] Hn).
  simpl. rewrite <- (map_id vs) at 2. apply map_ext. intros [k n]. reflexivity.
Qed.

Lemma reload_votes_idem (vs : list (key * Z)) :
  reload_votes (reload_votes vs) = reload_votes vs.
Proof.
  destruct (reload_votes_shape vs) as [Hs Hn].
  apply reload_votes_fixed; assumption.
Qed.

Lemma reload_chat_idem (c : Chat) : reload_chat (reload_chat c) = reload_chat c.
Proof.
  unfold reload_chat. simpl. f_equal.
  - rewrite map_map. apply map_ext. intros r.
    unfold reload_poll_result. simpl. rewrite reload_votes_idem. reflexivity.
  - destruct (active_poll c) as [p|]; [|reflexivity]. simpl.
    unfold reload_poll_data. simpl. rewrite reload_votes_idem. reflexivity.
Qed.

Lemma reload_map (s : Store) :
  NoDup (map fst s) ->
  reload s = map (fun kc => (fst kc, reload_chat (snd kc))) s.
Proof.
  intros Hnd. unfold reload, chat_set.
  apply (fold_od_set_map _ _ pystr_eqb pystr_eqb_eq reload_chat s [] Hnd).
Qed.

Lemma winners_reload (l : list PollResult) :
  winners (map reload_poll_result l) = winners l.
Proof.
  unfold winners. induction l as [|r l IH]; simpl; [reflexivity|].
  destruct (falsy (winner r)); simpl; rewrite IH; reflexivity.
Qed.

Lemma chat_get_reload (s : Store) (c : pystr) :
  NoDup (map fst s) ->
  chat_get (reload s) c = option_map reload_chat (chat_get s c).
Proof.
  intros Hnd. unfold reload. rewrite (reload_get s [] c Hnd).
  destruct (chat_get s c); reflexivity.
Qed.

(** *** The file the restart reads *)

Lemma forallb_over_map {A B} (g : A -> B) (f : B -> bool) (l : list A) :
  forallb f (map g l) = forallb (fun x => f (g x)) l.
Proof.
  induction l as [|x l IH]; simpl; [reflexivity|]. rewrite IH. reflexivity.
Qed.

Lemma forallb_same {A} (f g : A -> bool) (l : list A) :
  (forall x, f x = g x) -> forallb f l = forallb g l.
Proof.
  intros H. induction l as [|x l IH]; simpl; [reflexivity|].
  rewrite H, IH. reflexivity.
Qed.

Lemma writable_votes (vs : list (key * Z)) :
  writable (repr_votes vs) =
  forallb (fun kv => encodable (key_name (fst kv))) vs.
Proof.
  unfold repr_votes. cbn [writable]. rewrite forallb_over_map.
  apply forallb_same. intros [k n]. cbn [fst snd writable].
  apply andb_true_r.
Qed.

Lemma writable_reload_votes (vs : list (key * Z)) :
  writable (repr_votes vs) = true ->
  writable (repr_votes (reload_votes vs)) = true.
Proof.
  rewrite !writable_votes, !forallb_forall. intros H.
  assert (Hall : Forall (fun kv : key * Z =>
                           encodable (key_name (fst kv)) = true)
                        (reload_votes vs)).
  { unfold reload_votes.
    assert (G : forall acc,
              Forall (fun kv : key * Z =>
                        encodable (key_name (fst kv)) = true) acc ->
              Forall (fun kv : key * Z =>
                        encodable (key_name (fst kv)) = true)
                (fold_left (fun d kv =>
                              od_set key_eqb d (KStr (key_name (fst kv)))
                                     (snd kv)) vs acc)).
    { induction vs as [|[k n] vs IH]; intros acc Hacc; [exact Hacc|].
      cbn [fold_left fst snd]. apply IH.
      - intros x Hx. apply H. right. exact Hx.
      - apply (od_set_keys_Forall _ _ key_eqb
                 (fun k' => encodable (key_name k') = true));
          [exact Hacc|].
        apply (H (k, n)). left. reflexivity. }
    apply G. constructor. }
  rewrite Forall_forall in Hall. exact Hall.
Qed.

Lemma writable_reload_poll_data (p : PollData) :
  writable (repr_poll_data p) = true ->
  writable (repr_poll_data (reload_poll_data p)) = true.
Proof.
  unfold repr_poll_data, reload_poll_data, field.
  cbn [writable forallb fst snd key_name poll_id message_id options votes
       close_time created_at].
  rewrite !andb_true_iff. intros (H1 & H2 & H3 & H4 & H5 & H6 & _).
  repeat split; try tauto.
  apply writable_reload_votes. apply H4.
Qed.

Lemma writable_reload_poll_result (r : PollResult) :
  writable (repr_poll_result r) = true ->
  writable (repr_poll_result (reload_poll_result r)) = true.
Proof.
  unfold repr_poll_result, reload_poll_result, field.
  cbn [writable forallb fst snd key_name r_poll_id r_options r_votes winner
       winner_index closed_at].
  rewrite !andb_true_iff. intros (H1 & H2 & H3 & H4 & H5 & H6 & _).
  repeat split; try tauto.
  apply writable_reload_votes. apply H3.
Qed.

Lemma writable_reload_chat (c : Chat) :
  writable (repr_chat c) = true ->
  writable (repr_chat (reload_chat c)) = true.
Proof.
  unfold repr_chat, reload_chat, field.
  cbn [writable forallb fst snd key_name polls active_poll].
  rewrite !andb_true_iff. intros ((Hn1 & Hp) & (Hn2 & Ha) & _).
  split; [split; [exact Hn1|] | split; [split; [exact Hn2|] | reflexivity]].
  - rewrite map_map, forallb_over_map. rewrite forallb_over_map in Hp.
    rewrite forallb_forall in *. intros r Hr.
    apply writable_reload_poll_result. apply Hp. exact Hr.
  - destruct (active_poll c) as [p|]; [|reflexivity].
    apply writable_reload_poll_data. exact Ha.
Qed.

Lemma store_writable_chats (s : Store) :
  store_writable s =
  forallb (fun kc => encodable (fst kc) && writable (repr_chat (snd kc))) s.
Proof.
  unfold store_writable, repr_store, field.
  cbn [writable forallb fst snd key_name].
  rewrite forallb_over_map. cbn [fst snd key_name].
  rewrite andb_true_r. reflexivity.
Qed.

(** What was read from the file can be written again. *)
Lemma store_writable_reload (s : Store) :
  NoDup (map fst s) ->
  store_writable s = true -> store_writable (reload s) = true.
Proof.
  intros Hnd. rewrite (reload_map s Hnd), !store_writable_chats.
  rewrite forallb_over_map. rewrite !forallb_forall. intros H [k ch] Hin.
  specialize (H _ Hin). cbn [fst snd] in *.
  apply andb_true_iff in H. destruct H as [Hk Hc].
  apply andb_true_iff. split; [exact Hk|].
  apply writable_reload_chat. exact Hc.
Qed.

Lemma load_written_store (s : Store) :
  load (written (repr_store s)) = repr_store (restart s).
Proof.
  unfold written, restart, store_writable.
  destruct (writable (repr_store s)); [apply roundtrip_store | reflexivity].
Qed.

Lemma restart_idem (s : Store) :
  NoDup (map fst s) -> restart (restart s) = restart s.
Proof.
  intros Hnd.
  assert (E : restart s = if store_writable s then reload s else [])
    by reflexivity.
  rewrite E. destruct (store_writable s) eqn:Hw; [|reflexivity].
  unfold restart. rewrite (store_writable_reload s Hnd Hw).
  rewrite (reload_map s Hnd).
  rewrite reload_map by (rewrite map_map; simpl; exact Hnd).
  rewrite map_map. apply map_ext. intros [k ch]. simpl.
  rewrite reload_chat_idem. reflexivity.
Qed.

(** X18. What a restarted process reads from the storage file.  When every
    string of the store can be encoded as UTF-8, [save] writes the whole
    document and the restart keeps everything but the key type of the
    votes: every chat has the same history, as many archived polls, and an
    active poll with the same identifier, message, options, deadline and
    creation time as before.  When some string cannot be encoded, the file
    is cut off and the restarted process holds the empty store: no chat
    has a history or an active poll.  In both cases what has been read once
    is read back unchanged by a second save and load. *)
Theorem restart_keeps_history_and_is_idempotent (s : Store) :
  NoDup (map fst s) ->
  load (written (repr_store s)) = repr_store (restart s) /\
  (store_writable s = true ->
   forall c,
     history_of (restart s) c = history_of s c /\
     length (polls_of (restart s) c) = length (polls_of s c) /\
     option_map (fun p => (poll_id p, message_id p, options p, close_time p,
                           created_at p))
                (active_of (restart s) c) =
     option_map (fun p => (poll_id p, message_id p, options p, close_time p,
                           created_at p))
                (active_of s c)) /\
  (store_writable s = false ->
   restart s = [] /\
   forall c, history_of (restart s) c = [] /\ active_of (restart s) c = None) /\
  restart (restart s) = restart s /\
  load (written (load (written (repr_store s)))) =
  load (written (repr_store s)).
Proof.
  intros Hnd.
  split; [apply load_written_store|]. split; [|split; [|split]].
  - intros Hw c. unfold restart. rewrite Hw.
    unfold history_of, polls_of, active_of.
    rewrite (chat_get_reload s c Hnd).
    destruct (chat_get s c) as [ch|]; simpl; [|auto].
    split; [apply winners_reload|]. split; [apply length_map|].
    destruct (active_poll ch); reflexivity.
  - intros Hw. unfold restart. rewrite Hw. split; [reflexivity|].
    intros c. split; reflexivity.
  - apply restart_idem. exact Hnd.
  - rewrite !load_written_store, (restart_idem s Hnd). reflexivity.
Qed.

Lemma restart_keeps_history_and_is_idempotent_witness :
  history_of (restart session_store) (str_of_Z 7) = [lit "x = 1"] /\
  restart (restart session_store) = restart session_store /\
  history_of torn_store (str_of_Z 7) = [lit "s = '" ++ [55357%N] ++ lit "'"] /\
  restart torn_store = [].
Proof.
  destruct (restart_keeps_history_and_is_idempotent session_store)
    as (_ & Hkeep & _ & Hidem & _).
  - vm_compute. repeat constructor. simpl. tauto.
  - destruct (restart_keeps_history_and_is_idempotent torn_store)
      as (_ & _ & Hlost & _).
    + vm_compute. repeat constructor. simpl. tauto.
    + split; [|split; [exact Hidem | split; [reflexivity|]]].
      * destruct (Hkeep eq_refl (str_of_Z 7)) as (Hh & _).
        rewrite Hh. vm_compute. reflexivity.
      * apply Hlost. reflexivity.
Defined.

(** X19. When every string of the store can be encoded as UTF-8, the
    counts of an active poll opened by [send_poll] survive the restart in
    their order; only their keys come back as the strings "0", "1", "2",
    "3". *)
Theorem restart_keeps_counts_under_string_keys (s : Store) (c : pystr)
    (p : PollData) :
  store_wf s ->
  store_writable s = true ->
  active_of s c = Some p ->
  exists n0 n1 n2 n3,
    votes p = [(KInt 0, n0); (KInt 1, n1); (KInt 2, n2); (KInt 3, n3)] /\
    option_map votes (active_of (restart s) c) =
    Some [(KStr (lit "0"), n0); (KStr (lit "1"), n1);
          (KStr (lit "2"), n2); (KStr (lit "3"), n3)].
Proof.
  intros [Hnd Hall] Hw Ha. unfold restart. rewrite Hw.
  unfold active_of in *. rewrite (chat_get_reload s c Hnd).
  destruct (chat_get s c) as [ch|] eqn:Hc; [|discriminate].
  assert (Hwf : poll_wf p).
  { apply (od_get_In _ _ pystr_eqb pystr_eqb_eq) in Hc.
    rewrite Forall_forall in Hall. apply (Hall _ Hc). exact Ha. }
  destruct Hwf as (Hk & _).
  destruct (votes p) as [|[k0 n0] [|[k1 n1] [|[k2 n2] [|[k3 n3] [|x vs]]]]] eqn:Hv;
    try discriminate Hk.
  simpl in Hk. inversion Hk; subst.
  exists n0, n1, n2, n3. split; [reflexivity|].
  simpl. rewrite Ha. simpl. rewrite Hv. reflexivity.
Qed.

Lemma restart_keeps_counts_under_string_keys_witness :
  option_map votes (active_of (restart tie_store) (str_of_Z 7)) =
  Some [(KStr (lit "0"), 3); (KStr (lit "1"), 3);
        (KStr (lit "2"), 1); (KStr (lit "3"), 0)].
Proof.
  destruct (restart_keeps_counts_under_string_keys tie_store (str_of_Z 7)
              tie_poll) as (n0 & n1 & n2 & n3 & Hv & H).
  - split.
    + simpl. repeat constructor. simpl. tauto.
    + constructor; [|constructor]. simpl. intros q Hq. inversion Hq; subst.
      unfold poll_wf, tie_poll; simpl. repeat split.
      * repeat constructor; simpl; lia.
      * repeat constructor; discriminate.
  - reflexivity.
  - reflexivity.
  - inversion Hv; subst. exact H.
Defined.

(** ** Invariants of runs *)

Lemma poll_ok_new_poll (T : Z) (w : World) (pid : pystr) (mid : Z)
    (hist : list pystr) :
  poll_ok (new_poll T w pid mid hist).
Proof.
  destruct (generate_code_options_shape (llm_response w) hist)
    as (_ & Hnd & Hall & _).
  split; [apply poll_wf_new_poll|]. unfold new_poll; simpl.
  split; [exact Hnd|].
  rewrite Forall_forall in *. intros o Ho. apply (Hall o Ho).
Qed.

Lemma poll_ok_with_votes (p : PollData) (ids : list Z) :
  poll_ok p -> poll_ok (with_votes p (count_votes (votes p) ids)).
Proof.
  intros (Hwf & Hnd & Hlen).
  split; [apply poll_wf_with_votes; exact Hwf|]. simpl. auto.
Qed.

(** X20. Along every run of events from a store whose active polls are in
    order, each active poll stays in order: exactly four options, none
    empty, pairwise distinct, at most 95 characters each, and votes keyed
    0, 1, 2, 3 with no negative count. *)
Theorem active_polls_stay_in_order (T : Z) (admins : list Z)
    (evs : list event) (s0 : Store) (c : pystr) (p : PollData) :
  store_inv poll_ok s0 ->
  active_of (store_of (run T admins evs s0)) c = Some p ->
  length (options p) = 4%nat /\
  Forall (fun o => o <> [] /\ (length o <= 95)%nat) (options p) /\
  NoDup (options p) /\
  map fst (votes p) = [KInt 0; KInt 1; KInt 2; KInt 3] /\
  Forall (fun kv => 0 <= snd kv) (votes p).
Proof.
  intros Hinv Ha.
  pose proof (triple_run poll_ok poll_ok_new_poll poll_ok_with_votes
                T admins evs s0 Hinv I) as H.
  destruct (run T admins evs s0) as [[r s'] es].
  destruct H as (Hinv' & _). unfold store_of in Ha; simpl in Ha.
  unfold active_of in Ha.
  destruct (chat_get s' c) as [ch|] eqn:Hc; [|discriminate].
  destruct (store_inv_get poll_ok s' c ch p Hinv' Hc Ha)
    as ((Hk & Hv & Hl & Hne) & Hnd & Hlen).
  repeat split; try assumption.
  rewrite Forall_forall in *. intros o Ho. split; [apply Hne | apply Hlen]; auto.
Qed.

Lemma active_polls_stay_in_order_witness :
  NoDup (options (new_poll 300 later_world (lit "poll-3") 3 [lit "x = 1"])).
Proof.
  destruct (active_polls_stay_in_order 300 [1] session_events []
              (str_of_Z 7)
              (new_poll 300 later_world (lit "poll-3") 3 [lit "x = 1"]))
    as (_ & _ & Hnd & _).
  - split; constructor.
  - vm_compute. reflexivity.
  - exact Hnd.
Defined.

Section Keeps.
(** The property that is kept: it looks at the archives only. *)
Variable P : Store -> Prop.
Hypothesis P_polls :
  forall s s', (forall c, polls_of s' c = polls_of s c) -> P s -> P s'.











End Keeps.







(** ** Votes after the close *)

Lemma od_set_In_NoDup {V} (d : list (pystr * V)) (k : pystr) (v : V)
    (k' : pystr) (v' : V) :
  NoDup (map fst d) -> In (k', v') (od_set pystr_eqb d k v) ->
  (k' = k /\ v' = v) \/ (k' <> k /\ In (k', v') d).
Proof.
  induction d as [|[k0 v0] d IH]; simpl; intros Hnd Hin.
  - destruct Hin as [H|[]]. inversion H. auto.
  - inversion Hnd as [|x l Hnotin Hnd']; subst.
    destruct (pystr_eqb k k0) eqn:E.
    + apply pystr_eqb_eq in E. subst k0.
      destruct Hin as [H|H]; [inversion H; auto|].
      right. split; [|auto]. intros ->. apply Hnotin.
      apply (in_map fst) in H. exact H.
    + apply pystr_eqb_neq in E.
      destruct Hin as [H|H].
      * inversion H; subst. right. split; [congruence | auto].
      * destruct (IH Hnd' H) as [?|[? ?]]; auto.
Qed.

(** X22. A poll answer that arrives after its poll was closed changes
    nothing: once [close_poll] has archived the poll, the handler finds no
    chat for the identifier (no other chat has a poll with it), so the
    store, with the votes it archived, is left as it is and nothing is
    written or logged. *)
Theorem late_vote_after_close_is_dropped (w : World) (chat_id : Z)
    (pid : pystr) (flag_stop : bool) (option_ids : list Z) (s : Store)
    (chat : Chat) (p : PollData) :
  NoDup (map fst s) ->
  chat_get s (str_of_Z chat_id) = Some chat ->
  active_poll chat = Some p ->
  poll_id p = pid ->
  poll_wf p ->
  (forall k ch q, In (k, ch) s -> active_poll ch = Some q ->
                  poll_id q = pid -> k = str_of_Z chat_id) ->
  let closed := store_of (close_poll w chat_id pid flag_stop s) in
  poll_answer_handler pid option_ids closed = (Some tt, closed, []).
Proof.
  intros Hnd Hc Ha Hid Hwf Huniq closed.
  destruct (close_poll_wf w chat_id pid flag_stop s chat p Hc Ha Hid Hwf)
    as (i & line & _ & _ & _ & _ & _ & Hrun).
  cbv zeta in Hrun.
  assert (Hclosed : closed =
            chat_set s (str_of_Z chat_id)
              {| polls := polls chat ++ [poll_result_of w pid p (KInt i) line];
                 active_poll := None |})
    by (unfold closed; rewrite Hrun; reflexivity).
  unfold poll_answer_handler, try_except.
  rewrite (answer_scan_no_match pid option_ids closed); [reflexivity|].
  intros k ch q Hin Hq. rewrite Hclosed in Hin.
  destruct (od_set_In_NoDup s _ _ k ch Hnd Hin) as [[_ ->]|[Hk Hin']].
  - discriminate Hq.
  - intros Heq. apply Hk. apply (Huniq k ch q Hin' Hq Heq).
Qed.

Lemma late_vote_after_close_is_dropped_witness :
  let closed := store_of (close_poll calm_world 7 (lit "poll-1") true
                            tie_store) in
  poll_answer_handler (lit "poll-1") [1] closed = (Some tt, closed, []).
Proof.
  apply (late_vote_after_close_is_dropped calm_world 7 (lit "poll-1") true
           [1] tie_store {| polls := []; active_poll := Some tie_poll |}
           tie_poll).
  - simpl. repeat constructor. simpl. tauto.
  - reflexivity.
  - reflexivity.
  - reflexivity.
  - unfold poll_wf, tie_poll; simpl. repeat split.
    + repeat constructor; simpl; lia.
    + repeat constructor; discriminate.
  - intros k ch q [H|[]] _ _. inversion H. reflexivity.
Defined.

(** ** [logs_command] and [health_command] *)

Lemma last_n_suffix {A} (n : nat) (l : list A) :
  exists pre, l = pre ++ last_n n l.
Proof.
  exists (firstn (length l - n) l). unfold last_n.
  symmetry. apply firstn_skipn.
Qed.

Lemma last_n_length {A} (n : nat) (l : list A) :
  (length (last_n n l) <= n)%nat.
Proof. unfold last_n. rewrite length_skipn. lia. Qed.

Lemma last_n_all {A} (n : nat) (l : list A) :
  (length l <= n)%nat -> last_n n l = l.
Proof.
  intros H. unfold last_n.
  replace (length l - n)%nat with 0%nat by lia. reflexivity.
Qed.

(** X23. The log text [logs_command] sends is an end piece of the log
    file: at most 4000 characters, all taken from the last 100 lines.  A
    file of at most 100 lines and 4000 characters is sent whole. *)
Theorem logs_text_is_a_bounded_tail (lines : list pystr) :
  (length (logs_text lines) <= 4000)%nat /\
  (exists pre, concat lines = pre ++ logs_text lines) /\
  (exists pre, concat (last_n 100 lines) = pre ++ logs_text lines) /\
  (length (last_n 100 lines) <= 100)%nat /\
  ((length lines <= 100)%nat -> (length (concat lines) <= 4000)%nat ->
   logs_text lines = concat lines).
Proof.
  unfold logs_text.
  destruct (last_n_suffix 100 lines) as [pre Hpre].
  assert (Htail : exists q,
            concat (last_n 100 lines) =
            q ++ (if Nat.ltb 4000 (length (concat (last_n 100 lines)))
                  then last_n 4000 (concat (last_n 100 lines))
                  else concat (last_n 100 lines))).
  { destruct (Nat.ltb 4000 (length (concat (last_n 100 lines)))).
    - apply last_n_suffix.
    - exists []. reflexivity. }
  split; [|split; [|split; [exact Htail | split]]].
  - destruct (Nat.ltb_spec 4000 (length (concat (last_n 100 lines)))).
    + apply last_n_length.
    + assumption.
  - destruct Htail as [q Hq]. exists (concat pre ++ q).
    rewrite Hpre at 1. rewrite concat_app, <- app_assoc. f_equal. exact Hq.
  - apply last_n_length.
  - intros H100 H4000. rewrite (last_n_all 100 lines H100).
    destruct (Nat.ltb_spec 4000 (length (concat lines))); [lia | reflexivity].
Qed.

(** X24. The uptime [health_command] shows adds up to the number of
    seconds it was computed from, with minutes and seconds between 0 and
    59; the hours are not negative when the number of seconds is not. *)
Theorem uptime_parts_add_up (total : Z) :
  let '(hours, minutes, seconds) := uptime_parts total in
  total = hours * 3600 + minutes * 60 + seconds /\
  0 <= minutes < 60 /\ 0 <= seconds < 60 /\
  (0 <= total -> 0 <= hours).
Proof.
  unfold uptime_parts. cbv zeta.
  pose proof (Z.div_mod total 3600 ltac:(lia)) as H1.
  pose proof (Z.mod_pos_bound total 3600 ltac:(lia)) as H2.
  pose proof (Z.div_mod (total mod 3600) 60 ltac:(lia)) as H3.
  pose proof (Z.mod_pos_bound (total mod 3600) 60 ltac:(lia)) as H4.
  assert (H5 : 0 <= total mod 3600 / 60 < 60).
  { split; [apply Z.div_pos; lia | apply Z.div_lt_upper_bound; lia]. }
  repeat split; lia.
Qed.

Lemma uptime_parts_add_up_witness :
  uptime_parts 3725 = (1, 2, 5) /\ 0 <= 1.
Proof.
  pose proof (uptime_parts_add_up 3725) as H.
  change (uptime_parts 3725) with (1, 2, 5) in H. cbv iota beta in H.
  destruct H as (_ & _ & _ & Hh).
  split; [reflexivity | apply Hh; lia].
Defined.

Lemma logs_text_is_a_bounded_tail_witness :
  logs_text [lit "first line"; lit "second line"] =
  concat [lit "first line"; lit "second line"].
Proof.
  destruct (logs_text_is_a_bounded_tail [lit "first line"; lit "second line"])
    as (_ & _ & _ & _ & H).
  apply H; simpl; lia.
Defined.

(** ** The total of the votes *)

Lemma vote_total_count_vote (vs : list (key * Z)) (o : Z) :
  vote_total (count_vote vs o) =
  vote_total vs + (if od_mem key_eqb vs (KInt o) then 1 else 0).
Proof.
  unfold vote_total, od_mem.
  induction vs as [|[k v] t IH]; [reflexivity|].
  rewrite count_vote_cons. cbn [od_get].
  destruct (key_eqb (KInt o) k); simpl; [lia|].
  rewrite IH. destruct (od_get key_eqb t (KInt o)); lia.
Qed.

Lemma od_mem_count_vote (vs : list (key * Z)) (o : Z) (k : key) :
  od_mem key_eqb (count_vote vs o) k = od_mem key_eqb vs k.
Proof.
  unfold od_mem.
  destruct (od_get key_eqb vs k) eqn:E.
  - apply (od_get_In _ _ key_eqb key_eqb_eq) in E.
    apply (in_map fst) in E. rewrite <- (count_vote_keys vs o) in E.
    destruct (od_get key_eqb (count_vote vs o) k) eqn:E'; [reflexivity|].
    apply (od_get_None _ _ key_eqb key_eqb_eq) in E'. contradiction.
  - apply (od_get_None _ _ key_eqb key_eqb_eq) in E.
    rewrite <- (count_vote_keys vs o) in E.
    apply (od_get_None _ _ key_eqb key_eqb_eq) in E. rewrite E. reflexivity.
Qed.

(** X25. Counting an answer adds to the total of the votes exactly the
    number of option ids of the answer that are keys of the votes: one per
    counted id, an id named twice counting twice, unknown ids counting
    nothing. *)
Theorem answer_adds_one_vote_per_known_option (vs : list (key * Z))
    (option_ids : list Z) :
  vote_total (count_votes vs option_ids) =
  vote_total vs +
  Z.of_nat (length (filter (fun o => od_mem key_eqb vs (KInt o)) option_ids)).
Proof.
  unfold count_votes. revert vs.
  induction option_ids as [|o ids IH]; intros vs; [simpl; lia|].
  cbn [fold_left filter]. rewrite IH, vote_total_count_vote.
  rewrite (filter_ext _ (fun o' => od_mem key_eqb vs (KInt o')))
    by (intros o'; apply od_mem_count_vote).
  destruct (od_mem key_eqb vs (KInt o)); cbn [length]; lia.
Qed.

(** * Handlers as coroutines *)

(** ** A coroutine that is not interleaved *)

Lemma flat_atom {A} (m : M A) (s : Store) : flat (atom m) s = m s.
Proof.
  unfold atom. simpl. destruct (m s) as [[r s1] e1].
  rewrite app_nil_r. reflexivity.
Qed.

Lemma flat_bind {A B} (x : co A) (f : A -> co B) (s : Store) :
  flat (bind_co x f) s = bind (flat x) (fun a => flat (f a)) s.
Proof.
  revert s. induction x as [[a|] | C m k IH | k IH]; intros s.
  - unfold bind. simpl. destruct (flat (f a) s) as [[r s2] e2]. reflexivity.
  - reflexivity.
  - unfold bind in *. simpl. destruct (m s) as [[r s1] e1].
    rewrite IH. destruct (flat (k r) s1) as [[[a|] s2] e2].
    + destruct (flat (f a) s2) as [[r3 s3] e3]. rewrite app_assoc.
      reflexivity.
    + reflexivity.
  - simpl. apply IH.
Qed.

Lemma flat_try {A} (x h : co A) (s : Store) :
  flat (try_co x h) s = try_except (flat x) (flat h) s.
Proof.
  revert s. induction x as [[a|] | C m k IH | k IH]; intros s.
  - reflexivity.
  - unfold try_except. simpl. destruct (flat h s) as [[r s2] e2]. reflexivity.
  - unfold try_except in *. simpl. destruct (m s) as [[r s1] e1].
    rewrite IH. destruct (flat (k r) s1) as [[[a|] s2] e2].
    + reflexivity.
    + destruct (flat h s2) as [[r3 s3] e3]. rewrite app_assoc. reflexivity.
  - simpl. apply IH.
Qed.

Lemma agrees_atom {A} (m : M A) : agrees (atom m) m.
Proof. intros s. apply flat_atom. Qed.

Lemma agrees_bind {A B} (x : co A) (m : M A) (f : A -> co B)
    (g : A -> M B) :
  agrees x m -> (forall a, agrees (f a) (g a)) ->
  agrees (bind_co x f) (bind m g).
Proof.
  intros Hx Hf s. rewrite flat_bind. unfold bind. rewrite Hx.
  destruct (m s) as [[[a|] s1] e1]; [|reflexivity].
  rewrite Hf. reflexivity.
Qed.

Lemma agrees_try {A} (x h : co A) (m m' : M A) :
  agrees x m -> agrees h m' -> agrees (try_co x h) (try_except m m').
Proof.
  intros Hx Hh s. rewrite flat_try. unfold try_except. rewrite Hx.
  destruct (m s) as [[[a|] s1] e1]; [reflexivity|].
  rewrite Hh. reflexivity.
Qed.

Lemma agrees_after_await {A} (x : co A) (m : M A) :
  agrees x m -> agrees (await ;~ x) m.
Proof. intros Hx s. simpl. apply Hx. Qed.

(** A step of the proof that a coroutine and a computation with the same
    structure agree. *)
Ltac agree :=
  cbv beta zeta;
  lazymatch goal with
  | |- agrees (try_co _ _) (try_except _ _) => apply agrees_try; agree
  | |- agrees (bind_co await _) _ => apply agrees_after_await; agree
  | |- agrees (bind_co _ _) (bind _ _) =>
      apply agrees_bind; [agree | intro; agree]
  | |- agrees (atom _) _ => apply agrees_atom
  | |- agrees (if ?b then _ else _) _ => destruct b; agree
  | |- agrees (match ?o with _ => _ end) _ => destruct o; agree
  | |- _ => solve [auto]
  end.

Section Agreement.
Variable T : Z.
Variable admins : list Z.

Lemma agrees_reply_text (w : World) (r : reply) :
  agrees (reply_text_co w r) (reply_text w r).
Proof. unfold reply_text_co, reply_text. agree. Qed.

Lemma agrees_check_admin (w : World) (user_id : Z) :
  agrees (check_admin_co admins w user_id) (check_admin admins w user_id).
Proof.
  pose proof agrees_reply_text.
  unfold check_admin_co, check_admin. agree.
Qed.

Lemma agrees_on_error (w : World) : agrees (on_error_co w) (on_error w).
Proof.
  pose proof agrees_reply_text.
  unfold on_error_co, on_error. agree.
Qed.

Lemma agrees_send_poll (w : World) (chat_id : Z) :
  agrees (send_poll_co T w chat_id) (send_poll T w chat_id).
Proof.
  unfold send_poll_co, send_poll, bot_send_poll_co, bot_send_poll. agree.
Qed.

Lemma agrees_start_command (w : World) (user_id chat_id : Z)
    (args : start_arg) :
  agrees (start_command_co T admins w user_id chat_id args)
         (start_command T admins w user_id chat_id args).
Proof.
  pose proof agrees_reply_text. pose proof agrees_on_error.
  pose proof agrees_send_poll.
  unfold start_command_co, start_command. agree.
Qed.

Lemma agrees_code_command (w : World) (chat_id : Z) :
  agrees (code_command_co w chat_id) (code_command w chat_id).
Proof.
  pose proof agrees_reply_text. pose proof agrees_on_error.
  unfold code_command_co, code_command. agree.
Qed.

Lemma agrees_code_completed_command (w : World) (user_id chat_id : Z) :
  agrees (code_completed_command_co admins w user_id chat_id)
         (code_completed_command admins w user_id chat_id).
Proof.
  pose proof agrees_reply_text. pose proof agrees_on_error.
  pose proof agrees_check_admin.
  unfold code_completed_command_co, code_completed_command. agree.
Qed.

Lemma agrees_sendnow_command (w : World) (user_id chat_id : Z) :
  agrees (sendnow_command_co T admins w user_id chat_id)
         (sendnow_command T admins w user_id chat_id).
Proof.
  pose proof agrees_reply_text. pose proof agrees_on_error.
  pose proof agrees_check_admin. pose proof agrees_send_poll.
  unfold sendnow_command_co, sendnow_command. agree.
Qed.

Lemma agrees_health_command (w : World) (user_id chat_id : Z) :
  agrees (health_command_co admins w user_id chat_id)
         (health_command admins w user_id chat_id).
Proof.
  pose proof agrees_reply_text. pose proof agrees_on_error.
  pose proof agrees_check_admin.
  unfold health_command_co, health_command. agree.
Qed.

End Agreement.

Lemma send_poll_returns (T : Z) (w : World) (chat_id : Z) (s : Store) :
  result_of (send_poll T w chat_id s) = Some tt.
Proof.
  pose proof (send_poll_eval T w chat_id s) as H. cbv zeta in H.
  rewrite H. destruct (send_poll_result w) as [[pid mid]|]; reflexivity.
Qed.

(** One [try] around a part that may raise and a part that does not is the
    same as a [try] around each. *)
Lemma agrees_try_split (x : co bool) (k : co unit) (hd : M bool)
    (tl : M unit) :
  agrees x hd -> agrees k tl ->
  (forall s, result_of (tl s) <> None) ->
  agrees
    (try_co (go_on <~ x ;; if go_on then await ;~ k else atom (ret tt))
            (atom (log Error)))
    (go_on <- try_except hd (log Error ;;; ret false) ;;
     if go_on then try_except tl (log Error) else ret tt).
Proof.
  intros Hx Hk Htl s. rewrite flat_try. unfold try_except at 1.
  rewrite flat_bind. unfold bind at 1. rewrite Hx.
  unfold bind, try_except.
  destruct (hd s) as [[[go_on|] s1] e1].
  - destruct go_on.
    + change (flat (await ;~ k) s1) with (flat k s1). rewrite Hk.
      specialize (Htl s1).
      destruct (tl s1) as [[[u|] s2] e2]; [reflexivity|].
      exfalso. apply Htl. reflexivity.
    + rewrite flat_atom. reflexivity.
  - rewrite flat_atom. simpl. rewrite !app_nil_r. reflexivity.
Qed.

Section AgreementClose.
Variable T : Z.

Lemma agrees_bot_stop_poll (w : World) (chat_id message : Z) :
  agrees (bot_stop_poll_co w chat_id message) (bot_stop_poll w chat_id message).
Proof. unfold bot_stop_poll_co, bot_stop_poll. agree. Qed.

Lemma agrees_bot_send_message (w : World) (chat_id : Z) (line : pystr)
    (count : Z) :
  agrees (bot_send_message_co w chat_id line count)
         (bot_send_message w chat_id line count).
Proof. unfold bot_send_message_co, bot_send_message. agree. Qed.

(** [close_poll] run alone is the part before the sleep followed, when it
    reached the sleep, by the part after it. *)
Lemma agrees_close_poll (w w' : World) (chat_id : Z) (pid : pystr)
    (flag_stop : bool) :
  agrees (close_poll_co T w w' chat_id pid flag_stop)
         (go_on <- close_poll w chat_id pid flag_stop ;;
          if go_on then close_poll_resume T w' chat_id else ret tt).
Proof.
  pose proof agrees_bot_stop_poll. pose proof agrees_bot_send_message.
  pose proof (agrees_send_poll T).
  unfold close_poll_co, close_poll, close_poll_resume.
  apply agrees_try_split.
  - unfold close_poll_body_co. agree.
  - agree.
  - intros s. unfold bind, get_chat.
    destruct (chat_get s (str_of_Z chat_id)) as [ch|].
    + destruct (active_poll ch) as [q|]; [discriminate|].
      pose proof (send_poll_returns T w' chat_id s) as Hs.
      destruct (send_poll T w' chat_id s) as [[r s2] e2].
      unfold result_of in *. simpl in *. rewrite Hs. discriminate.
    + simpl.
      pose proof (send_poll_returns T w' chat_id
                    (chat_set s (str_of_Z chat_id) new_chat)) as Hs.
      destruct (send_poll T w' chat_id
                  (chat_set s (str_of_Z chat_id) new_chat)) as [[r s2] e2].
      unfold result_of in *. simpl in *. rewrite Hs. discriminate.
Qed.

End AgreementClose.

(** ** The event loop *)

(** A task that is alone in the pool runs as [flat] says. *)
Lemma interleave_alone (x : co unit) (s : Store) :
  exists n,
    interleave (repeat 0%nat (S n)) [x] s =
    ([Fin (result_of (flat x s))], store_of (flat x s),
     effects_of (flat x s)).
Proof.
  revert s. induction x as [r | C m k IH | k IH]; intros s.
  - exists 0%nat. reflexivity.
  - destruct (m s) as [[r s1] e1] eqn:Hm.
    destruct (IH r s1) as [n Hn]. exists n.
    cbn [repeat interleave nth_error resume flat set_task] in *.
    rewrite Hm.
    destruct (resume (k r) s1) as [[x' s2] e2].
    destruct (interleave (repeat 0%nat n) [x'] s2) as [[pool' s3] e3].
    destruct (flat (k r) s1) as [[r' s4] e4].
    unfold result_of, store_of, effects_of in *. simpl in *.
    inversion Hn; subst. rewrite app_assoc. reflexivity.
  - destruct (IH s) as [n Hn]. exists (S n).
    change (repeat 0%nat (S (S n))) with (0%nat :: repeat 0%nat (S n)).
    cbn [interleave nth_error resume flat set_task].
    rewrite Hn. reflexivity.
Qed.

(** ** A [/sendnow] beside the task of a timer *)

(** C2. The timer of the open poll of chat 7 fires and its task closes the
    poll; an administrator sends [/sendnow] during the settle delay.  The
    handler of the command finds no active poll and is suspended in its
    first reply; the task of the timer wakes up, finds no active poll
    either, opens the next poll and ends; the handler of the command goes
    on and asks Telegram for a poll of its own while the chat has an active
    poll.  Two polls for the same line are open in the chat, with a timer
    each; the second replaces the first as the active poll, so the first is
    never closed and its votes are dropped.  When the answer of Telegram
    to the task of the timer arrives later, both polls are sent while the
    chat has no active poll, and the store ends up the same.  When the two
    handlers run one after the other, the command is refused and one poll
    is open. *)
Theorem sendnow_beside_timer_task_opens_second_poll :
  let c := str_of_Z 7 in
  let r := interleave race_schedule race_pool race_store in
  let late := interleave race_schedule_late race_pool race_store in
  let serial := interleave serial_schedule race_pool race_store in
  (store_wf race_store /\
   option_map poll_id (active_of race_store c) = Some (lit "poll-2")) /\
  (forallb finished (loop_pool r) = true /\
   ~ opens_when_idle race_store (loop_effects r) /\
   filter is_send_poll (loop_effects r) =
     [ESendPoll 7 2 (generate_code_options (lit "y = 2") [lit "x = 1"]);
      ESendPoll 7 2 (generate_code_options (lit "z = 3") [lit "x = 1"])] /\
   filter is_run_once (loop_effects r) =
     [ERunOnce 300 7 (lit "poll-3"); ERunOnce 300 7 (lit "poll-4")] /\
   option_map poll_id (active_of (loop_store r) c) = Some (lit "poll-4") /\
   map r_poll_id (polls_of (loop_store r) c) = [lit "poll-2"] /\
   close_poll later_world 7 (lit "poll-3") false (loop_store r) =
     (Some false, loop_store r, [ELog Warning]) /\
   poll_answer_handler (lit "poll-3") [0] (loop_store r) =
     (Some tt, loop_store r, [])) /\
  (forallb finished (loop_pool late) = true /\
   filter is_send_poll (loop_effects late) =
     filter is_send_poll (loop_effects r) /\
   filter is_save (loop_effects late) =
     filter is_save (loop_effects r) /\
   loop_store late = loop_store r) /\
  (forallb finished (loop_pool serial) = true /\
   opens_when_idle race_store (loop_effects serial) /\
   filter is_send_poll (loop_effects serial) =
     [ESendPoll 7 2 (generate_code_options (lit "y = 2") [lit "x = 1"])] /\
   In (EReply AlreadyActive) (loop_effects serial) /\
   option_map poll_id (active_of (loop_store serial) c) =
     Some (lit "poll-3")).
Proof.
  cbv zeta. split; [|split; [|split]].
  - split; [|vm_compute; reflexivity].
    apply (run_keeps_store_wf 300 [1]
             [Start calm_world 1 7 NoArg; PollAnswer (lit "poll-2") [0]] []).
    split; [constructor | constructor].
  - split; [vm_compute; reflexivity|].
    split.
    { intros H. vm_compute in H.
      destruct H as (_ & H & _). discriminate H. }
    repeat (split; [vm_compute; reflexivity|]).
    vm_compute; reflexivity.
  - repeat (split; [vm_compute; reflexivity|]).
    vm_compute; reflexivity.
  - split; [vm_compute; reflexivity|].
    split; [vm_compute; tauto|].
    split; [vm_compute; reflexivity|].
    split; [vm_compute; tauto|].
    vm_compute; reflexivity.
Qed.

(** ** The announcement fails *)

(** C9. Let [close_poll], called without the stop flag, close the active
    poll of a chat, and let [bot.send_message] raise.  The poll is
    archived and the chat has no active poll, but the handler leaves
    through its [except] branch right after the call: it does not sleep,
    does not read the chat again and opens no poll, and no timer is left
    that would do so. *)
Theorem failed_announcement_ends_the_chain (T : Z) (w w' : World)
    (chat_id : Z) (pid : pystr) (s : Store) (chat : Chat) (p : PollData) :
  chat_get s (str_of_Z chat_id) = Some chat ->
  active_poll chat = Some p ->
  poll_id p = pid ->
  poll_wf p ->
  send_message_ok w = false ->
  let c := str_of_Z chat_id in
  let r := flat (close_poll_co T w w' chat_id pid false) s in
  result_of r = Some tt /\
  close_poll w chat_id pid false s =
    (Some false, store_of r, effects_of r) /\
  active_of (store_of r) c = None /\
  length (history_of (store_of r) c) = S (length (history_of s c)) /\
  ~ In (ESleep 5) (effects_of r) /\
  filter is_send_poll (effects_of r) = [] /\
  filter is_run_once (effects_of r) = [] /\
  exists es line n,
    effects_of r = es ++ [ESendMessage chat_id line n; ELog Error].
Proof.
  intros Hc Ha Hid Hwf Hmsg c r.
  destruct (close_poll_wf w chat_id pid false s chat p Hc Ha Hid Hwf)
    as (i & line & Hi & _ & _ & Hnth & Hne & Hrun).
  cbv zeta in Hrun. rewrite Hmsg in Hrun. cbn [andb] in Hrun.
  destruct (close_poll_commits w chat_id pid false s chat p Hc Ha Hid Hwf)
    as (i' & line' & _ & _ & _ & _ & Hlen & _ & _ & _ & Hact).
  assert (Hr : r = (Some tt,
                    store_of (close_poll w chat_id pid false s),
                    effects_of (close_poll w chat_id pid false s))).
  { unfold r. rewrite (agrees_close_poll T w w' chat_id pid false s).
    unfold bind. rewrite Hrun. unfold store_of, effects_of; simpl.
    rewrite app_nil_r. reflexivity. }
  rewrite Hr. unfold result_of at 1. simpl fst.
  change (store_of (Some tt, store_of (close_poll w chat_id pid false s),
                    effects_of (close_poll w chat_id pid false s)))
    with (store_of (close_poll w chat_id pid false s)).
  change (effects_of (Some tt, store_of (close_poll w chat_id pid false s),
                      effects_of (close_poll w chat_id pid false s)))
    with (effects_of (close_poll w chat_id pid false s)).
  split; [reflexivity|].
  split; [rewrite Hrun; reflexivity|].
  split; [exact Hact|]. split; [exact Hlen|].
  rewrite Hrun. unfold effects_of. simpl snd.
  split; [|split; [|split]].
  - destruct (stop_poll_ok w); simpl; intuition discriminate.
  - destruct (stop_poll_ok w); reflexivity.
  - destruct (stop_poll_ok w); reflexivity.
  - eexists (EStopPoll chat_id (message_id p)
             :: (if stop_poll_ok w then [] else [ELog Error]) ++ [_; _]),
            line, _.
    simpl. rewrite <- app_assoc. reflexivity.
Qed.

Lemma failed_announcement_ends_the_chain_witness :
  let r := flat (close_poll_co 300 (announce_fails calm_world) later_world 7
                   (lit "poll-1") false) tie_store in
  active_of (store_of r) (str_of_Z 7) = None /\
  filter is_send_poll (effects_of r) = [] /\
  ~ In (ESleep 5) (effects_of r).
Proof.
  destruct (failed_announcement_ends_the_chain 300
              (announce_fails calm_world) later_world 7 (lit "poll-1")
              tie_store {| polls := []; active_poll := Some tie_poll |}
              tie_poll)
    as (_ & _ & Hact & _ & Hsleep & Hsend & _).
  - reflexivity.
  - reflexivity.
  - reflexivity.
  - unfold poll_wf, tie_poll; simpl. repeat split.
    + repeat constructor; simpl; lia.
    + repeat constructor; discriminate.
  - reflexivity.
  - split; [exact Hact|]. split; [exact Hsend | exact Hsleep].
Defined.
